(** * BioData Manager: the species reconciliation pipeline

    A shallow embedding of [utils.py] ([limpiar_dataframe],
    [construir_interseccion]) and of the processing block of [app.py]
    (cleaning loop, enrichment merges), with the properties the
    specification states about them.

    Conventions of the embedding.
    - Text is a [string] whose characters are the code points 0..255
      (Latin-1); [str.strip] and [str.lower] follow Python on that range.
    - A cell of a table is text, an integer or the missing value NaN (what
      the loader puts in an empty cell).  Floating-point cells are outside
      the model.
    - A [DataFrame] is a list of column labels and a list of rows; a row has
      its index label and one cell per column.  Column labels may repeat,
      as in pandas.
    - [limpiar_dataframe] copies and mutates frames, so it runs on an
      explicit object store; [construir_interseccion] and the merges only
      read their arguments and build new values, so they are functions.
    - pandas is taken at the behaviour of its 1.x/2.x releases
      ([astype(str)] turns NaN into the text nan). *)

From Stdlib Require Import ZArith Ascii String.
From stdpp Require Import base tactics option list gmap sorting pretty strings.

(** ** Text *)

(** [str.isspace] on one character of the Latin-1 range. *)
Definition py_isspace (a : ascii) : bool :=
  let n := N_of_ascii a in
  (((9 <=? n) && (n <=? 13)) || ((28 <=? n) && (n <=? 32))
   || (n =? 133) || (n =? 160))%N.

(** [str.lower] on one character of the Latin-1 range. *)
Definition lower_char (a : ascii) : ascii :=
  let n := N_of_ascii a in
  if (((65 <=? n) && (n <=? 90))
      || ((192 <=? n) && (n <=? 222) && negb (n =? 215)))%N
  then ascii_of_N (n + 32) else a.

Fixpoint lower (s : string) : string :=
  match s with
  | EmptyString => EmptyString
  | String a s' => String (lower_char a) (lower s')
  end.

Fixpoint lstrip (s : string) : string :=
  match s with
  | EmptyString => EmptyString
  | String a s' => if py_isspace a then lstrip s' else s
  end.

Fixpoint rstrip (s : string) : string :=
  match s with
  | EmptyString => EmptyString
  | String a s' =>
      match rstrip s' with
      | EmptyString => if py_isspace a then EmptyString else String a EmptyString
      | r => String a r
      end
  end.

(** [str.strip()] with no argument. *)
Definition strip (s : string) : string := rstrip (lstrip s).

(** ** Cells *)

Inductive value : Type :=
  | VStr (s : string)
  | VInt (z : Z)
  | VNaN.

Global Instance value_eq_dec : EqDecision value.
Proof. solve_decision. Defined.

Definition value_code (v : value) : string + Z + unit :=
  match v with
  | VStr s => inl (inl s)
  | VInt z => inl (inr z)
  | VNaN => inr tt
  end.

Definition value_decode (x : string + Z + unit) : value :=
  match x with
  | inl (inl s) => VStr s
  | inl (inr z) => VInt z
  | inr _ => VNaN
  end.

Global Instance value_countable : Countable value.
Proof.
  apply (inj_countable' value_code value_decode). by intros [].
Defined.

(** Python's [str(v)], which [astype(str)] applies to every cell. *)
Definition py_str (v : value) : string :=
  match v with
  | VStr s => s
  | VInt z => pretty z
  | VNaN => "nan"
  end.

Definition is_text (v : value) : bool :=
  match v with VStr _ => true | _ => false end.

Definition is_int (v : value) : bool :=
  match v with VInt _ => true | _ => false end.

(** ** Tables *)

Record row : Type := Row { label : nat; cells : list value }.

Record DataFrame : Type := Frame { columns : list string; rows : list row }.

Global Instance row_eq_dec : EqDecision row.
Proof. solve_decision. Defined.

Global Instance DataFrame_eq_dec : EqDecision DataFrame.
Proof. solve_decision. Defined.

(** [pd.DataFrame()]: no column, no row. *)
Definition empty_frame : DataFrame := Frame [] [].

Global Instance DataFrame_inhabited : Inhabited DataFrame :=
  populate empty_frame.

(** Every row has one cell per column. *)
Definition rectangular (df : DataFrame) : Prop :=
  Forall (λ r, length (cells r) = length (columns df)) (rows df).

(** The positions at which a column label occurs. *)
Fixpoint positions_from (i : nat) (c : string) (cols : list string) : list nat :=
  match cols with
  | [] => []
  | x :: cols' =>
      if decide (x = c) then i :: positions_from (S i) c cols'
      else positions_from (S i) c cols'
  end.

Definition positions (c : string) (cols : list string) : list nat :=
  positions_from 0 c cols.

Definition cell_at (p : nat) (r : row) : value := default VNaN (cells r !! p).

(** What [df[c]] evaluates to: a Series when the label occurs once, a
    frame of all the columns bearing it when it occurs several times. *)
Inductive selection : Type :=
  | Series (vals : list value)
  | SubFrame (df : DataFrame).

Definition take_columns (ps : list nat) (df : DataFrame) : DataFrame :=
  Frame ((λ p, default "" (columns df !! p)) <$> ps)
        ((λ r, Row (label r) ((λ p, cell_at p r) <$> ps)) <$> rows df).

(** [df.rename(columns={old: new})]. *)
Definition rename_columns (old new : string) (df : DataFrame) : DataFrame :=
  Frame ((λ x, if decide (x = old) then new else x) <$> columns df) (rows df).

Definition set_cells (ps : list nat) (v : value) (cs : list value) : list value :=
  foldr (λ p acc, <[p := v]> acc) cs ps.

(** [df[c] = vals]: overwrite the column(s) labelled [c], or append a new
    column when the label is absent. *)
Definition assign_column (c : string) (vals : list value) (df : DataFrame)
  : DataFrame :=
  match positions c (columns df) with
  | [] =>
      Frame (columns df ++ [c])
            (zip_with (λ r v, Row (label r) (cells r ++ [v])) (rows df) vals)
  | ps =>
      Frame (columns df)
            (zip_with (λ r v, Row (label r) (set_cells ps v (cells r)))
                      (rows df) vals)
  end.

(** [df[mask]] with a boolean mask. *)
Definition mask_rows (mask : list bool) (df : DataFrame) : DataFrame :=
  Frame (columns df) (fst <$> filter (λ rb, snd rb = true) (zip (rows df) mask)).

(** The key of a row for [drop_duplicates(subset=[c])] and for a merge on
    [c]: its cells in the column(s) labelled [c]. *)
Definition row_key (ps : list nat) (r : row) : list value :=
  (λ p, cell_at p r) <$> ps.

(** The elements of a list whose key did not occur before, in order. *)
Fixpoint keep_first {A K : Type} `{EqDecision K}
    (key : A → K) (seen : list K) (l : list A) : list A :=
  match l with
  | [] => []
  | x :: l' =>
      if decide (key x ∈ seen) then keep_first key seen l'
      else x :: keep_first key (key x :: seen) l'
  end.

(** ** Exceptions and the object store *)

Inductive exn : Type :=
  | ValueError_columna (c : string)
      (* "La columna '<c>' no existe en el archivo." *)
  | AttributeError     (* 'DataFrame' object has no attribute 'str' *)
  | KeyError (c : string)
  | ValueError_label (c : string)
      (* "The column label '<c>' is not unique." *)
  | Stop.              (* st.error(...) followed by st.stop() *)

Inductive result (A : Type) : Type :=
  | Ok (a : A)
  | Err (e : exn).
Arguments Ok {A} a.
Arguments Err {A} e.

Global Instance exn_eq_dec : EqDecision exn.
Proof. solve_decision. Defined.

Abbreviation loc := nat.

(** The store holds the frames created so far; a reference is a position.
    References handed to the code are always allocated, so reading one
    is total. *)
Abbreviation heap := (list DataFrame).

Definition M (A : Type) : Type := heap → heap * result A.

Global Instance M_ret : MRet M := λ A a h, (h, Ok a).

Global Instance M_bind : MBind M := λ A B k m h,
  match m h with
  | (h', Ok a) => k a h'
  | (h', Err e) => (h', Err e)
  end.

Definition raise {A} (e : exn) : M A := λ h, (h, Err e).

Definition lift {A} (r : result A) : M A := λ h, (h, r).

Definition deref (l : loc) : M DataFrame := λ h, (h, Ok (h !!! l)).

Definition alloc (df : DataFrame) : M loc := λ h, (h ++ [df], Ok (length h)).

Definition mutate (l : loc) (f : DataFrame → DataFrame) : M unit :=
  λ h, (alter f l h, Ok tt).

(** [df.copy()] *)
Definition df_copy (l : loc) : M loc := d ← deref l; alloc d.

(** [df.rename(columns={old: new})]: a new frame. *)
Definition df_rename (l : loc) (old new : string) : M loc :=
  d ← deref l; alloc (rename_columns old new d).

(** [df[c]] *)
Definition getitem (c : string) (df : DataFrame) : result selection :=
  match positions c (columns df) with
  | [] => Err (KeyError c)
  | [p] => Ok (Series ((λ r, cell_at p r) <$> rows df))
  | ps => Ok (SubFrame (take_columns ps df))
  end.

Definition df_getitem (l : loc) (c : string) : M selection :=
  d ← deref l; lift (getitem c d).

(** [.astype(str)], on a Series or on a frame. *)
Definition astype_str (sel : selection) : selection :=
  match sel with
  | Series vals => Series ((λ v, VStr (py_str v)) <$> vals)
  | SubFrame df =>
      SubFrame (Frame (columns df)
        ((λ r, Row (label r) ((λ v, VStr (py_str v)) <$> cells r)) <$> rows df))
  end.

(** The [.str] accessor exists on a Series only. *)
Definition str_accessor (sel : selection) : result (list value) :=
  match sel with
  | Series vals => Ok vals
  | SubFrame _ => Err AttributeError
  end.

(** A [.str] method maps text and leaves NaN for anything else. *)
Definition str_method (f : string → string) (vals : list value) : list value :=
  (λ v, match v with VStr s => VStr (f s) | _ => VNaN end) <$> vals.

(** [sel != ""].  A frame-valued selection cannot reach this point (the
    [.str] access before it has raised); were it to, the [.str] access
    after it would raise the same exception. *)
Definition ne_empty (sel : selection) : result (list bool) :=
  match sel with
  | Series vals => Ok ((λ v, negb (bool_decide (v = VStr ""))) <$> vals)
  | SubFrame _ => Err AttributeError
  end.

(** [df[c] = vals]: in place. *)
Definition df_setitem (l : loc) (c : string) (vals : list value) : M unit :=
  mutate l (assign_column c vals).

(** [df[mask]]: a new frame. *)
Definition df_mask (l : loc) (mask : list bool) : M loc :=
  d ← deref l; alloc (mask_rows mask d).

Definition drop_duplicates (c : string) (df : DataFrame) : result DataFrame :=
  match positions c (columns df) with
  | [] => Err (KeyError c)
  | ps => Ok (Frame (columns df) (keep_first (row_key ps) [] (rows df)))
  end.

(** [df.drop_duplicates(subset=[c])]: a new frame. *)
Definition df_drop_duplicates (l : loc) (c : string) : M loc :=
  d ← deref l; d' ← lift (drop_duplicates c d); alloc d'.

(** ** [utils.limpiar_dataframe] *)

Definition limpiar_dataframe
    (df : loc) (columna_especie_original columna_estandar : string) : M loc :=
  d ← deref df;
  if negb (bool_decide (columna_especie_original ∈ columns d))
  then raise (ValueError_columna columna_especie_original)
  else
    df_clean ← df_copy df;
    df_clean ← df_rename df_clean columna_especie_original columna_estandar;
    sel ← df_getitem df_clean columna_estandar;
    txt ← lift (str_accessor (astype_str sel));
    df_setitem df_clean columna_estandar (str_method strip txt);;
    sel ← df_getitem df_clean columna_estandar;
    mask ← lift (ne_empty sel);
    df_clean ← df_mask df_clean mask;
    sel ← df_getitem df_clean columna_estandar;
    txt ← lift (str_accessor sel);
    df_setitem df_clean columna_estandar (str_method lower txt);;
    df_clean ← df_drop_duplicates df_clean columna_estandar;
    mret df_clean.

(** The frames a successful run creates, as functions of the input frame
    ([p] is the position of the species column). *)

Definition update_cell (p : nat) (f : value → value) (r : row) : row :=
  Row (label r) (<[p := f (cell_at p r)]> (cells r)).

Definition strip_value (v : value) : value := VStr (strip (py_str v)).

Definition lower_value (v : value) : value :=
  match v with VStr s => VStr (lower s) | _ => VNaN end.

Definition stage_strip (orig canon : string) (p : nat) (d : DataFrame) : DataFrame :=
  Frame (columns (rename_columns orig canon d))
        (update_cell p strip_value <$> rows d).

Definition stage_mask (orig canon : string) (p : nat) (d : DataFrame) : DataFrame :=
  Frame (columns (rename_columns orig canon d))
        (filter (λ r, cell_at p r ≠ VStr "") (rows (stage_strip orig canon p d))).

Definition stage_lower (orig canon : string) (p : nat) (d : DataFrame) : DataFrame :=
  Frame (columns (rename_columns orig canon d))
        (update_cell p lower_value <$> rows (stage_mask orig canon p d)).

Definition stage_dedup (orig canon : string) (p : nat) (d : DataFrame) : DataFrame :=
  Frame (columns (rename_columns orig canon d))
        (keep_first (row_key [p]) [] (rows (stage_lower orig canon p d))).


(** The result of a successful run, row by row: the rows whose species text
    is not blank, with the species cell cleaned, first occurrence kept. *)
Definition clean_value (v : value) : value := VStr (lower (strip (py_str v))).

Definition cleaned_rows (p : nat) (rs : list row) : list row :=
  keep_first (row_key [p]) []
    (update_cell p clean_value
       <$> filter (λ r, strip (py_str (cell_at p r)) ≠ "") rs).

(** ** Normalized tables *)

(** A species value as the cleaning leaves it: text that is not empty, has
    no white space at either end and is in lower case. *)
Definition clean_species (v : value) : Prop :=
  match v with
  | VStr s => s ≠ "" ∧ strip s = s ∧ lower s = s
  | _ => False
  end.

Global Instance clean_species_dec v : Decision (clean_species v).
Proof. destruct v; simpl; apply _. Defined.

(** A normalized table: rectangular, with exactly one column labelled
    [canon], whose cells are clean species values, all different. *)
Definition normalized (canon : string) (df : DataFrame) : Prop :=
  rectangular df ∧
  match positions canon (columns df) with
  | [p] => NoDup (cell_at p <$> rows df)
           ∧ Forall clean_species (cell_at p <$> rows df)
  | _ => False
  end.

Global Instance normalized_dec canon df : Decision (normalized canon df).
Proof.
  unfold normalized, rectangular.
  destruct (positions canon (columns df)) as [|p [|q ps]]; apply _.
Defined.

(** ** Dictionaries and sets *)

(** A Python [dict] with text keys: the items in insertion order, no key
    twice.  Assigning to a key that is present keeps its place. *)
Abbreviation dict V := (list (string * V)).

Fixpoint dict_set {V : Type} (k : string) (v : V) (d : dict V) : dict V :=
  match d with
  | [] => [(k, v)]
  | (k', v') :: d' =>
      if decide (k' = k) then (k, v) :: d' else (k', v') :: dict_set k v d'
  end.

Fixpoint dict_get {V : Type} (k : string) (d : dict V) : option V :=
  match d with
  | [] => None
  | (k', v) :: d' => if decide (k' = k) then Some v else dict_get k d'
  end.

Definition dict_keys {V : Type} (d : dict V) : list string := fst <$> d.

(** A Python [set] of cells is a [gset value].  The order in which a [for]
    loop visits its elements is not fixed by the language (it follows the
    hashes, which change from run to run for text): the code is modelled
    for any order. *)
Class SetOrder : Type := {
  set_order : gset value → list value;
  set_order_perm : ∀ s, set_order s ≡ₚ elements s
}.

(** One admissible order. *)
Definition elements_order : SetOrder :=
  {| set_order := elements; set_order_perm := λ s, reflexivity (elements s) |}.

(** Code that raises and touches no object. *)
Global Instance result_ret : MRet result := λ A a, Ok a.

Global Instance result_bind : MBind result := λ A B k r,
  match r with
  | Ok a => k a
  | Err e => Err e
  end.

(** ** [utils.construir_interseccion] *)

(** [set(df[columna_estandar].dropna().unique())] *)
Definition especies (columna_estandar : string) (df : DataFrame)
  : result (gset value) :=
  sel ← getitem columna_estandar df;
  match sel with
  | Series vals => Ok (list_to_set (filter (λ v, v ≠ VNaN) vals))
  | SubFrame _ => Err AttributeError  (* a frame has no [unique] *)
  end.

(** The first loop: one species set per source. *)
Fixpoint conjuntos_por_fuente (columna_estandar : string)
    (items : dict DataFrame) (species_sets : dict (gset value))
  : result (dict (gset value)) :=
  match items with
  | [] => Ok species_sets
  | (nombre_fuente, df) :: items' =>
      conj ← especies columna_estandar df;
      conjuntos_por_fuente columna_estandar items'
        (dict_set nombre_fuente conj species_sets)
  end.

(** [{nombre_fuente: (especie in conj) for nombre_fuente, conj in
    species_sets.items()}] *)
Definition presencia (especie : value) (species_sets : dict (gset value))
  : dict bool :=
  (λ kv, (kv.1, bool_decide (especie ∈ kv.2))) <$> species_sets.

(** [sum(presencia.values())] *)
Definition num_fuentes (pres : dict bool) : Z :=
  Z.of_nat (length (filter (λ kv, kv.2 = true) pres)).

(** The row of one species: a dictionary that receives the species, the
    count and then one 0/1 entry per source, each under its key. *)
Definition fila (columna_estandar : string) (especie : value)
    (pres : dict bool) : dict value :=
  foldl (λ f kv, dict_set kv.1 (VInt (if kv.2 : bool then 1 else 0)) f)
        (dict_set "num_fuentes" (VInt (num_fuentes pres))
           (dict_set columna_estandar especie []))
        pres.

(** The second loop: the rows of the species found in two sources or more,
    in the order the set is visited. *)
Definition filas `{SetOrder} (columna_estandar : string)
    (species_sets : dict (gset value)) : list (dict value) :=
  let all_species := ⋃ (snd <$> species_sets) in
  omap (λ especie,
          let pres := presencia especie species_sets in
          if decide (2 ≤ num_fuentes pres)%Z
          then Some (fila columna_estandar especie pres) else None)
       (set_order all_species).

(** [pd.DataFrame(filas)]: the columns are the keys in order of first
    appearance, a key missing from a row gives NaN, the index is 0, 1, ... *)
Definition frame_of_dicts (fs : list (dict value)) : DataFrame :=
  let cols := keep_first id [] (concat (dict_keys <$> fs)) in
  Frame cols
        (imap (λ i f, Row i ((λ c, default VNaN (dict_get c f)) <$> cols)) fs).

(** [df.empty] *)
Definition df_empty (df : DataFrame) : bool :=
  bool_decide (rows df = [] ∨ columns df = []).

(** The order of two cells in an ascending key of a sort on several
    keys: integers by value, text by code points, the integers of a column
    that mixes kinds before its text, and the missing values last. *)
Definition value_leb (v w : value) : bool :=
  match v, w with
  | VInt a, VInt b => (a <=? b)%Z
  | VStr s, VStr t => String.leb s t
  | VNaN, VNaN => true
  | VInt _, _ => true
  | VStr _, VNaN => true
  | _, _ => false
  end.

(** The order of two cells in a descending key: the reverse, but for the
    missing values, which are last all the same. *)
Definition value_desc (v w : value) : bool :=
  match v, w with
  | _, VNaN => true
  | VNaN, _ => false
  | _, _ => value_leb w v
  end.

(** [r1] may come before [r2]: larger first key first, then smaller second
    key first. *)
Definition row_before (p1 p2 : nat) (r1 r2 : row) : Prop :=
  if decide (cell_at p1 r1 = cell_at p1 r2)
  then value_leb (cell_at p2 r1) (cell_at p2 r2) = true
  else value_desc (cell_at p1 r1) (cell_at p1 r2) = true.

Global Instance row_before_dec p1 p2 r1 r2 : Decision (row_before p1 p2 r1 r2).
Proof. unfold row_before. case_decide; apply _. Defined.

(** [df.sort_values(by=[k1, k2], ascending=[False, True])] *)
Definition sort_values (k1 k2 : string) (df : DataFrame) : result DataFrame :=
  match positions k1 (columns df), positions k2 (columns df) with
  | [], _ => Err (KeyError k1)
  | _, [] => Err (KeyError k2)
  | [p1], [p2] =>
      Ok (Frame (columns df) (merge_sort (row_before p1 p2) (rows df)))
  | _ :: _ :: _, _ => Err (ValueError_label k1)
  | _, _ => Err (ValueError_label k2)
  end.

(** [df.reset_index(drop=True)] *)
Definition reset_index (df : DataFrame) : DataFrame :=
  Frame (columns df) (imap (λ i r, Row i (cells r)) (rows df)).

Definition construir_interseccion `{SetOrder}
    (fuentes_limpias : dict DataFrame) (columna_estandar : string)
  : result (dict (gset value) * DataFrame) :=
  species_sets ← conjuntos_por_fuente columna_estandar fuentes_limpias [];
  if decide (species_sets = [])
  then Ok ([], Frame [columna_estandar] [])
  else
    let tabla_interseccion := frame_of_dicts (filas columna_estandar species_sets) in
    if df_empty tabla_interseccion
    then Ok (species_sets, tabla_interseccion)
    else
      sorted ← sort_values "num_fuentes" columna_estandar tabla_interseccion;
      Ok (species_sets, reset_index sorted).

(** *** Reading the result *)

(** The cell of a row of [df] under the column labelled [c]. *)
Definition celda (df : DataFrame) (r : row) (c : string) : option value :=
  match positions c (columns df) with
  | [p] => cells r !! p
  | _ => None
  end.

(** The species set of a source (empty where the column cannot be read). *)
Definition species_set (columna_estandar : string) (df : DataFrame) : gset value :=
  match especies columna_estandar df with
  | Ok s => s
  | Err _ => ∅
  end.

(** The species sets of a mapping of sources, one per source. *)
Definition species_sets_de (columna_estandar : string)
    (fuentes : dict DataFrame) : dict (gset value) :=
  (λ kv, (kv.1, species_set columna_estandar kv.2)) <$> fuentes.

(** The number of sources whose species set contains [e]. *)
Definition sources_containing (columna_estandar : string)
    (fuentes : dict DataFrame) (e : value) : Z :=
  Z.of_nat (length (filter (λ kv, e ∈ species_set columna_estandar kv.2) fuentes)).

(** The sum of the 0/1 cells of a row under the columns of the sources. *)
Definition presence_sum (df : DataFrame) (r : row) (nombres : list string) : Z :=
  foldr (λ nombre acc,
           match celda df r nombre with
           | Some (VInt z) => (z + acc)%Z
           | _ => acc
           end) 0%Z nombres.

(** The keys of every row dictionary, hence the columns of a table that
    has rows: the species column, the count, then the sources, a label
    already used keeping its first place. *)
Definition columnas_tabla (columna_estandar : string) (nombres : list string)
  : list string :=
  let init := if decide (columna_estandar = "num_fuentes")
              then [columna_estandar] else [columna_estandar; "num_fuentes"] in
  init ++ keep_first id init nombres.

(** The cells of the row built from a dictionary, under columns [cols]. *)
Definition fila_cells (cols : list string) (f : dict value) : list value :=
  (λ c, default VNaN (dict_get c f)) <$> cols.

(** What the specification asks of the counts of an intersection table:
    every row holds a species and a count that is the sum of the row's 0/1
    source cells, is the number of sources whose set contains the species,
    and is 2 at least; a species found in fewer than 2 sources has no row. *)
Definition conteo_correcto (columna_estandar : string)
    (fuentes : dict DataFrame) (tabla : DataFrame) : Prop :=
  (∀ r, r ∈ rows tabla →
     ∃ e n, celda tabla r columna_estandar = Some e
            ∧ celda tabla r "num_fuentes" = Some (VInt n)
            ∧ n = presence_sum tabla r (dict_keys fuentes)
            ∧ n = sources_containing columna_estandar fuentes e
            ∧ (2 ≤ n)%Z)
  ∧ (∀ e, (sources_containing columna_estandar fuentes e < 2)%Z →
          ∀ r, r ∈ rows tabla → celda tabla r columna_estandar ≠ Some e).

(** ** The processing block of [app.py] *)

(** One entry of [sources_info]. *)
Record fuente : Type := Fuente {
  name : string;
  df_raw : loc;
  species_col : string;
  extra_col : string
}.

(** What the cleaning loop accumulates: the cleaned frame of each source,
    the extra column to take from each source that has one, and the
    warnings shown on the way (source, extra column not found). *)
Record limpieza : Type := Limpieza {
  fuentes_limpias : dict loc;
  extra_cols_map : dict string;
  avisos : list (string * string)
}.

(** One turn of the loop "1. Limpieza por fuente". *)
Definition limpiar_fuente (columna_estandar : string) (src : fuente)
    (acc : limpieza) : M limpieza :=
  let nombre := name src in
  let species_col := strip (species_col src) in
  if decide (species_col = "") then raise Stop
  else
    df_clean ← limpiar_dataframe (df_raw src) species_col columna_estandar;
    d ← deref df_clean;
    let limpias := dict_set nombre df_clean (fuentes_limpias acc) in
    if decide (extra_col src = "")
    then mret (Limpieza limpias (extra_cols_map acc) (avisos acc))
    else if decide (extra_col src ∈ columns d)
    then mret (Limpieza limpias
                 (dict_set nombre (extra_col src) (extra_cols_map acc))
                 (avisos acc))
    else mret (Limpieza limpias (extra_cols_map acc)
                 (avisos acc ++ [(nombre, extra_col src)])).

Fixpoint limpiar_fuentes (columna_estandar : string) (sources_info : list fuente)
    (acc : limpieza) : M limpieza :=
  match sources_info with
  | [] => mret acc
  | src :: rest =>
      acc' ← limpiar_fuente columna_estandar src acc;
      limpiar_fuentes columna_estandar rest acc'
  end.

(** [df[[c1, c2]]] *)
Definition select_two (c1 c2 : string) (df : DataFrame) : result DataFrame :=
  match positions c1 (columns df), positions c2 (columns df) with
  | [], _ => Err (KeyError c1)
  | _, [] => Err (KeyError c2)
  | ps1, ps2 => Ok (take_columns (ps1 ++ ps2) df)
  end.

(** The label of a column of one side of a merge: it takes the suffix when
    the other side has a column of that label too (the key apart). *)
Definition suffix_overlap (suffix : string) (others : list string)
    (on c : string) : string :=
  if decide (c ≠ on ∧ c ∈ others) then c +:+ suffix else c.

(** [left.merge(right, on=on, how="left")]: every row of [left], in order,
    joined to the rows of [right] that have its key, or to missing values
    when there is none; the index starts again at 0.  Keys are matched by
    equality of cells.  (pandas also refuses to join an integer key column
    with a text one and turns an integer column that receives a missing
    value into floats; the tables joined here have text keys, and neither
    is modelled.) *)
Definition merge_left (on : string) (left right : DataFrame) : result DataFrame :=
  match positions on (columns left), positions on (columns right) with
  | [], _ => Err (KeyError on)
  | _, [] => Err (KeyError on)
  | [pl], [pr] =>
      let rcols := delete pr (columns right) in
      let cols := (suffix_overlap "_x" rcols on <$> columns left)
                  ++ (suffix_overlap "_y" (columns left) on <$> rcols) in
      let join (l : row) : list (list value) :=
        match filter (λ r, cell_at pr r = cell_at pl l) (rows right) with
        | [] => [cells l ++ replicate (length rcols) VNaN]
        | ms => (λ r, cells l ++ delete pr (cells r)) <$> ms
        end in
      Ok (Frame cols (imap (λ i cs, Row i cs) (concat (join <$> rows left))))
  | _, _ => Err (ValueError_label on)
  end.

(** The name of the column a source's extra column gets in the final
    table: [f"{nombre_fuente}_{extra_col}"]. *)
Definition nuevo_nombre_col (ne : string * string) : string :=
  ne.1 +:+ "_" +:+ ne.2.

(** One turn of the loop "3. Agregar columnas extra". *)
Definition agregar_extra (columna_estandar : string) (fuentes : dict DataFrame)
    (tabla_final : DataFrame) (ne : string * string) : result DataFrame :=
  match dict_get ne.1 fuentes with
  | None => Err (KeyError ne.1)
  | Some df =>
      sub ← select_two columna_estandar ne.2 df;
      df_src ← drop_duplicates columna_estandar sub;
      merge_left columna_estandar tabla_final
                 (rename_columns ne.2 (nuevo_nombre_col ne) df_src)
  end.

Fixpoint agregar_extras (columna_estandar : string) (fuentes : dict DataFrame)
    (extras : dict string) (tabla_final : DataFrame) : result DataFrame :=
  match extras with
  | [] => Ok tabla_final
  | ne :: rest =>
      t ← agregar_extra columna_estandar fuentes tabla_final ne;
      agregar_extras columna_estandar fuentes rest t
  end.

(** What a run hands to the display: the species sets, the final table
    and the warnings. *)
Record resultado : Type := Resultado {
  species_sets : dict (gset value);
  tabla_final : DataFrame;
  advertencias : list (string * string)
}.

(** The frames a dictionary of references points to. *)
Definition leer_fuentes (limpias : dict loc) : M (dict DataFrame) :=
  λ h, (h, Ok ((λ kv, (kv.1, h !!! kv.2)) <$> limpias)).

(** Steps 2 and 3 of the run: the intersection of the cleaned sources and
    the merges of their extra columns. *)
Definition completar `{SetOrder} (columna_estandar : string) (l : limpieza)
  : M resultado :=
  if decide (fuentes_limpias l = []) then raise Stop
  else
    fuentes ← leer_fuentes (fuentes_limpias l);
    r ← lift (construir_interseccion fuentes columna_estandar);
    final ← lift (agregar_extras columna_estandar fuentes
                    (extra_cols_map l) r.2);
    mret (Resultado r.1 final (avisos l)).

(** The body of "if procesar:", up to the final table (the search filter
    and the display come after it). *)
Definition procesar `{SetOrder} (columna_estandar : string)
    (sources_info : list fuente) : M resultado :=
  if decide (sources_info = []) then raise Stop
  else
    l ← limpiar_fuentes columna_estandar sources_info (Limpieza [] [] []);
    completar columna_estandar l.

(** *** Reading the final table *)

(** The value the enrichment puts under a source's new column in the row
    of the species [key]: the extra cell of the row of that species in
    the source's table, or NaN when the source does not have the species. *)
Definition valor_extra (columna_estandar : string) (fuentes : dict DataFrame)
    (key : value) (ne : string * string) : value :=
  match dict_get ne.1 fuentes with
  | Some df =>
      match positions columna_estandar (columns df),
            positions ne.2 (columns df) with
      | [pc], [pe] =>
          match filter (λ r, cell_at pc r = key) (rows df) with
          | r :: _ => cell_at pe r
          | [] => VNaN
          end
      | _, _ => VNaN
      end
  | None => VNaN
  end.

(** The intersection table with one new column per pair of [extras], in
    that order ([pl] is the position of the species column). *)
Definition tabla_enriquecida (columna_estandar : string)
    (fuentes : dict DataFrame) (pl : nat) (extras : dict string)
    (tabla : DataFrame) : DataFrame :=
  Frame (columns tabla ++ (nuevo_nombre_col <$> extras))
        (imap (λ i r,
                 Row i (cells r
                        ++ (valor_extra columna_estandar fuentes (cell_at pl r)
                              <$> extras)))
              (rows tabla)).

(** A row as a map from column labels to cells. *)
Definition row_map (df : DataFrame) (r : row) : gmap string value :=
  list_to_map (zip (columns df) (cells r)).

(** Two tables with the same columns up to their order, the same index and,
    row by row, the same cell under every label. *)
Definition mismo_contenido (t1 t2 : DataFrame) : Prop :=
  columns t1 ≡ₚ columns t2
  ∧ label <$> rows t1 = label <$> rows t2
  ∧ row_map t1 <$> rows t1 = row_map t2 <$> rows t2.

(** The pairs of [extras] can be merged onto [tabla]: the table has the
    species column once, no label twice, and is rectangular; every pair
    names a source whose table is normalized and has the extra column
    once, under a label other than the species column's; the new labels
    are different from each other and from the labels of the table. *)
Definition extras_validos (columna_estandar : string)
    (fuentes : dict DataFrame) (extras : dict string) (tabla : DataFrame)
  : Prop :=
  rectangular tabla
  ∧ NoDup (columns tabla)
  ∧ columna_estandar ∈ columns tabla
  ∧ NoDup (nuevo_nombre_col <$> extras)
  ∧ Forall (λ ne,
            (nuevo_nombre_col ne ∉ columns tabla)
            ∧ ne.2 ≠ columna_estandar
            ∧ match dict_get ne.1 fuentes with
              | Some df =>
                  normalized columna_estandar df
                  ∧ length (positions ne.2 (columns df)) = 1
              | None => False
              end) extras.

Global Instance extras_validos_dec canon fuentes extras tabla :
  Decision (extras_validos canon fuentes extras tabla).
Proof.
  unfold extras_validos, rectangular.
  repeat (apply and_dec; [apply _|]).
  apply Forall_dec. intros ne.
  repeat (apply and_dec; [apply _|]).
  destruct (dict_get ne.1 fuentes); apply _.
Defined.

(** The same source, declaring no extra column. *)
Definition sin_extra (src : fuente) : fuente :=
  Fuente (name src) (df_raw src) (species_col src) "".

(** The result of the cleaning loop with warnings put in front of its own. *)
Definition con_avisos (a : list (string * string)) (r : limpieza) : limpieza :=
  Limpieza (fuentes_limpias r) (extra_cols_map r) (a ++ avisos r).

(** ** Example tables *)

(** A raw upload: blank and missing species, a duplicate up to case and
    white space, a numeric cell. *)
Definition tabla_sib : DataFrame :=
  Frame ["especie"; "estado"]
        [ Row 0 [VStr "  Felis Catus "; VStr "LC"];
          Row 1 [VNaN; VStr "VU"];
          Row 2 [VStr "   "; VStr "NT"];
          Row 3 [VStr "felis catus"; VStr "EN"];
          Row 4 [VInt 7; VNaN] ].

(** A raw upload that already has a column named like the standard one,
    next to the column the user declares as the species column (an
    occurrence download has both). *)
Definition tabla_gbif : DataFrame :=
  Frame ["scientificName"; "species"]
        [ Row 0 [VStr "Felis catus Linnaeus, 1758"; VStr "Felis catus"];
          Row 1 [VStr "Canis lupus Linnaeus, 1758"; VStr "Canis lupus"] ].

(** A normalized table holding the given species. *)
Definition tabla_de (especies : list string) : DataFrame :=
  Frame ["scientificName"] (imap (λ i s, Row i [VStr s]) especies).

(** The example of the specification: the cat in two sources, the wolf in
    one. *)
Definition fuentes_ejemplo : dict DataFrame :=
  [ ("SIB", tabla_de ["felis catus"]);
    ("GBIF", tabla_de ["felis catus"]);
    ("IUCN", tabla_de ["canis lupus"]) ].

(** Two sources with no species in common. *)
Definition fuentes_disjuntas : dict DataFrame :=
  [ ("SIB", tabla_de ["felis catus"]);
    ("GBIF", tabla_de ["canis lupus"]) ].

(** A source that bears the name of the count column. *)
Definition fuentes_num_fuentes : dict DataFrame :=
  [ ("num_fuentes", tabla_de ["felis catus"]);
    ("GBIF", tabla_de ["felis catus"]) ].

(** Three sources whose intersection table has several rows. *)
Definition fuentes_varias : dict DataFrame :=
  [ ("SIB", tabla_de ["puma concolor"; "felis catus"]);
    ("GBIF", tabla_de ["felis catus"; "canis lupus"; "puma concolor"]);
    ("IUCN", tabla_de ["canis lupus"; "puma concolor"]) ].

(** Raw uploads with an extra column. *)
Definition tabla_a : DataFrame :=
  Frame ["especie"; "estado"]
        [ Row 0 [VStr "Felis catus"; VStr "LC"];
          Row 1 [VStr "Puma concolor"; VStr "NT"] ].

Definition tabla_b : DataFrame :=
  Frame ["scientificName"; "estado"]
        [ Row 0 [VStr "puma concolor "; VStr "VU"];
          Row 1 [VStr "FELIS CATUS"; VStr "EN"];
          Row 2 [VStr "canis lupus"; VStr "CR"] ].

Definition tabla_c : DataFrame :=
  Frame ["scientificName"; "estado"]
        [ Row 0 [VStr "canis lupus"; VStr "LC"] ].

(** Two cleaned sources with an extra column, and their intersection
    table. *)
Definition fuentes_con_estado : dict DataFrame :=
  [ ("SIB", Frame ["scientificName"; "estado"]
              [ Row 0 [VStr "felis catus"; VStr "LC"];
                Row 1 [VStr "puma concolor"; VStr "NT"] ]);
    ("GBIF", Frame ["scientificName"; "estado"]
               [ Row 0 [VStr "puma concolor"; VStr "VU"];
                 Row 1 [VStr "felis catus"; VStr "EN"];
                 Row 2 [VStr "canis lupus"; VStr "CR"] ]) ].

Definition interseccion_con_estado : DataFrame :=
  Frame ["scientificName"; "num_fuentes"; "SIB"; "GBIF"]
        [ Row 0 [VStr "felis catus"; VInt 2; VInt 1; VInt 1];
          Row 1 [VStr "puma concolor"; VInt 2; VInt 1; VInt 1] ].

(** Two uploads in the store and the entries of [sources_info] used in the
    examples: SIB declares an extra column it has, GBIF one it has not. *)
Definition almacen : list DataFrame := [tabla_a; tabla_b].

Definition fuente_sib : fuente := Fuente "SIB" 0 "especie" "estado".

Definition fuente_gbif_sin_columna : fuente :=
  Fuente "GBIF" 1 "scientificName" "iucn_status".

(** Two uploads with no species in common; the first declares an extra
    column that it has. *)
Definition almacen_disjunto : list DataFrame := [tabla_a; tabla_c].

Definition fuentes_info_disjuntas : list fuente :=
  [ Fuente "SIB" 0 "especie" "estado"; Fuente "IUCN" 1 "scientificName" "" ].

(** Two uploads with a missing species each. *)
Definition tabla_con_nan_1 : DataFrame :=
  Frame ["scientificName"; "estado"]
        [ Row 0 [VStr "Felis catus"; VStr "LC"];
          Row 1 [VNaN; VStr "DD"];
          Row 2 [VNaN; VStr "NE"] ].

Definition tabla_con_nan_2 : DataFrame :=
  Frame ["scientificName"]
        [ Row 0 [VNaN]; Row 1 [VStr "canis lupus"] ].

(** A source that bears the name of the species column. *)
Definition fuentes_nombre_columna : dict DataFrame :=
  [ ("scientificName", tabla_de ["felis catus"]);
    ("GBIF", tabla_de ["felis catus"]) ].

(** Two sources whose new column names coincide: [A] with the extra column
    [b_c], and [A_b] with the extra column [c]. *)
Definition fuentes_mismo_nombre : dict DataFrame :=
  [ ("A", Frame ["scientificName"; "b_c"] [Row 0 [VStr "felis catus"; VStr "u"]]);
    ("A_b", Frame ["scientificName"; "c"] [Row 0 [VStr "felis catus"; VStr "v"]]) ].

Definition interseccion_mismo_nombre : DataFrame :=
  Frame ["scientificName"; "num_fuentes"; "A"; "A_b"]
        [Row 0 [VStr "felis catus"; VInt 2; VInt 1; VInt 1]].

(** A cleaned source next to a raw upload that was not cleaned. *)
Definition fuentes_sin_limpiar : dict DataFrame :=
  [ ("SIB", tabla_de ["felis catus"]);
    ("GBIF", tabla_a);
    ("IUCN", tabla_de ["felis catus"]) ].

(** An upload like [tabla_gbif] in which a species is missing. *)
Definition tabla_gbif_nan : DataFrame :=
  Frame ["scientificName"; "species"]
        [ Row 0 [VStr "Felis catus Linnaeus, 1758"; VStr "Felis catus"];
          Row 1 [VStr "Canis lupus Linnaeus, 1758"; VNaN] ].

(** ** [utils.leer_archivo_subido] *)

(** [s.split(sep)] for a one-character separator: the pieces between the
    separators, one more than there are separators. *)
Fixpoint split_char (sep : ascii) (s : string) : list string :=
  match s with
  | EmptyString => [EmptyString]
  | String a s' =>
      match split_char sep s' with
      | [] => [String a EmptyString]
      | p :: ps =>
          if decide (a = sep) then EmptyString :: p :: ps
          else String a p :: ps
      end
  end.

(** [nombre.split(".")[-1].lower()] *)
Definition extension (nombre : string) : string :=
  lower (default "" (last (split_char "." nombre))).

(** What the loader gives back: nothing when no file was uploaded, what
    the pandas reader returns, or the [ValueError] that carries the
    extension. *)
Inductive lectura (R : Type) : Type :=
  | SinArchivo
  | Leido (r : R)
  | FormatoNoSoportado (ext : string).
Arguments SinArchivo {R}.
Arguments Leido {R} r.
Arguments FormatoNoSoportado {R} ext.

(** The pandas readers are taken as they are: [read_csv] stands for
    [pd.read_csv(file, sep=None, engine="python")] and [read_excel] for
    [pd.read_excel(file)], on the content [C] of the upload. *)
Definition leer_archivo_subido {C R : Type} (read_csv read_excel : C → R)
    (file : option (string * C)) : lectura R :=
  match file with
  | None => SinArchivo
  | Some (nombre, contenido) =>
      if decide (extension nombre = "csv") then Leido (read_csv contenido)
      else if decide (extension nombre ∈ ["xls"; "xlsx"])
      then Leido (read_excel contenido)
      else FormatoNoSoportado (extension nombre)
  end.

(** ** The cards of [app.py] and the list [sources_info] *)

Definition default_names : list string := ["SIB"; "GBIF"; "IUCN"].

(** [default_names[i] if i < len(default_names) else f"Fuente {i+1}"] *)
Definition nombre_base (i : nat) : string :=
  match default_names !! i with
  | Some n => n
  | None => "Fuente " +:+ pretty (i + 1)
  end.

(** The state of one card: the upload, if any, and the two text inputs. *)
Record tarjeta (C : Type) : Type := Tarjeta {
  archivo : option (string * C);
  col_especie : string;
  col_extra : string
}.
Arguments Tarjeta {C} _ _ _.
Arguments archivo {C} _.
Arguments col_especie {C} _.
Arguments col_extra {C} _.

(** What stops the loading: the [ValueError] of the loader, with the
    extension, or whatever the pandas reader raises on the content. *)
Inductive error_carga (E : Type) : Type :=
  | Formato (ext : string)
  | Lector (e : E).
Arguments Formato {E} ext.
Arguments Lector {E} e.

(** The loop "for i in range(num_sources)" that fills [sources_info],
    from card [i] on: a card without upload is passed over; an upload is
    read into a new frame of the store and described by an entry of the
    list; an unsupported format or a failure of the reader stops the loop
    (the loop is outside the [try] of the processing block). *)
Fixpoint cargar_fuentes {C E : Type} (read_csv read_excel : C → E + DataFrame)
    (i : nat) (tarjetas : list (tarjeta C)) (h : heap)
  : heap * (error_carga E + list fuente) :=
  match tarjetas with
  | [] => (h, inr [])
  | t :: rest =>
      match leer_archivo_subido read_csv read_excel (archivo t) with
      | SinArchivo => cargar_fuentes read_csv read_excel (S i) rest h
      | FormatoNoSoportado ext => (h, inl (Formato ext))
      | Leido (inl e) => (h, inl (Lector e))
      | Leido (inr df) =>
          match cargar_fuentes read_csv read_excel (S i) rest (h ++ [df]) with
          | (h', inr srcs) =>
              (h', inr (Fuente (nombre_base i) (length h) (col_especie t)
                               (strip (col_extra t)) :: srcs))
          | (h', inl err) => (h', inl err)
          end
      end
  end.

(** The cards that hold an upload, by their numbers, from card [i] on. *)
Fixpoint con_archivo {C : Type} (i : nat) (tarjetas : list (tarjeta C))
  : list nat :=
  match tarjetas with
  | [] => []
  | t :: rest =>
      match archivo t with
      | Some _ => i :: con_archivo (S i) rest
      | None => con_archivo (S i) rest
      end
  end.

(** ** The indicators of [app.py] *)

(** Step "7. Indicadores por fuente": the number of species of each
    source, [len(conj)]. *)
Definition datos_indicadores (species_sets : dict (gset value)) : dict nat :=
  (λ kv, (kv.1, size kv.2)) <$> species_sets.

(** *** Reading a cleaned table against its input *)

(** [T'] is [T] with some rows left out and only the cell at position [p]
    changed: its rows are rows of [T] in their order, each with its index
    label and, at every other position, its cell. *)
Definition solo_cambia_columna (p : nat) (T T' : DataFrame) : Prop :=
  label <$> rows T' `sublist_of` label <$> rows T
  ∧ ∀ r', r' ∈ rows T' →
      ∃ r, r ∈ rows T
           ∧ label r' = label r
           ∧ length (cells r') = length (cells r)
           ∧ ∀ q, q ≠ p → cells r' !! q = cells r !! q.

(** The species of a raw table that the cleaning keeps: the cleaned text
    of the cells at position [p] that are not blank. *)
Definition especies_limpias (p : nat) (T : DataFrame) : list value :=
  clean_value <$> filter (λ v, strip (py_str v) ≠ "") (cell_at p <$> rows T).

(** The species found in two sources or more, in the order in which the
    set of all the species is visited. *)
Definition especies_compartidas `{SetOrder} (columna_estandar : string)
    (fuentes : dict DataFrame) : list value :=
  filter (λ e, (2 ≤ sources_containing columna_estandar fuentes e)%Z)
         (set_order (⋃ (snd <$> species_sets_de columna_estandar fuentes))).

(** The cells of the row that [construir_interseccion] builds for a
    species. *)
Definition celdas_de (columna_estandar : string) (fuentes : dict DataFrame)
    (e : value) : list value :=
  fila_cells (columnas_tabla columna_estandar (dict_keys fuentes))
    (fila columna_estandar e
       (presencia e (species_sets_de columna_estandar fuentes))).

(** The order of [sort_values], on the cells of two rows. *)
Definition celdas_before (p1 p2 : nat) (c1 c2 : list value) : Prop :=
  row_before p1 p2 (Row 0 c1) (Row 0 c2).

(** Another admissible order: the reverse of [elements_order]. *)
Definition reverse_order : SetOrder :=
  {| set_order := λ s, reverse (elements s);
     set_order_perm := λ s, reverse_Permutation (elements s) |}.

(** *** Cards for the examples *)

(** A reader for the examples: the content of an upload is the table it
    parses to, and a table without any column stands for a file that
    pandas cannot parse. *)
Definition lector_ejemplo (contenido : DataFrame) : unit + DataFrame :=
  if decide (columns contenido = []) then inl () else inr contenido.

(** Four cards, the second without upload. *)
Definition tarjetas_ejemplo : list (tarjeta DataFrame) :=
  [ Tarjeta (Some ("sib.csv", tabla_a)) "especie" " estado ";
    Tarjeta None "scientificName" "";
    Tarjeta (Some ("iucn.2024.XLSX", tabla_b)) "scientificName" "";
    Tarjeta (Some ("otra.Csv", tabla_c)) "scientificName" "estado" ].

(** What loading these cards gives: the store and the list
    [sources_info]. *)
Definition almacen_ejemplo : heap := [tabla_a; tabla_b; tabla_c].

Definition fuentes_info_ejemplo : list fuente :=
  [ Fuente "SIB" 0 "especie" "estado";
    Fuente "IUCN" 1 "scientificName" "";
    Fuente "Fuente 4" 2 "scientificName" "estado" ].

(** *** Reading a run of the processing block against the uploads *)

(** A source that the cleaning loop can clean, in a store [h]: its upload
    is a rectangular table, the species column typed by the user is not
    blank and, trimmed, is a column of the table, and renaming it leaves
    the standard label on one column only. *)
Definition fuente_valida (columna_estandar : string) (h : heap)
    (src : fuente) : Prop :=
  match h !! df_raw src with
  | Some T =>
      rectangular T
      ∧ strip (species_col src) ≠ ""
      ∧ strip (species_col src) ∈ columns T
      ∧ length (positions columna_estandar
                  (columns (rename_columns (strip (species_col src))
                              columna_estandar T))) = 1
  | None => False
  end.

Global Instance fuente_valida_dec canon h src :
  Decision (fuente_valida canon h src).
Proof.
  unfold fuente_valida, rectangular. destruct (h !! df_raw src); apply _.
Defined.

(** The columns of the cleaned table of a source: those of the upload,
    the species column renamed. *)
Definition columnas_limpias (columna_estandar : string) (h : heap)
    (src : fuente) : list string :=
  columns (rename_columns (strip (species_col src)) columna_estandar
             (h !!! df_raw src)).

(** The species of a source: the cleaned texts of the species cells of
    its upload that are not blank. *)
Definition especies_de_fuente (columna_estandar : string) (h : heap)
    (src : fuente) : gset value :=
  match positions columna_estandar (columnas_limpias columna_estandar h src) with
  | [p] => list_to_set (especies_limpias p (h !!! df_raw src))
  | _ => ∅
  end.

(** [d] is the cleaned table of the source [src] of the store [h]. *)
Definition limpia_de (columna_estandar : string) (h : heap) (src : fuente)
    (d : DataFrame) : Prop :=
  normalized columna_estandar d
  ∧ columns d = columnas_limpias columna_estandar h src
  ∧ species_set columna_estandar d = especies_de_fuente columna_estandar h src.

(** The extra columns that the cleaning loop keeps, and those it warns
    about: the extra column a source declares is kept when its cleaned
    table has it. *)
Definition extras_de (columna_estandar : string) (h : heap)
    (srcs : list fuente) : dict string :=
  (λ s, (name s, extra_col s))
    <$> filter (λ s, extra_col s ≠ ""
                     ∧ extra_col s ∈ columnas_limpias columna_estandar h s) srcs.

Definition avisos_de (columna_estandar : string) (h : heap)
    (srcs : list fuente) : list (string * string) :=
  (λ s, (name s, extra_col s))
    <$> filter (λ s, extra_col s ≠ ""
                     ∧ extra_col s ∉ columnas_limpias columna_estandar h s) srcs.

(** The entries of the example with the extra columns changed: the first
    source asks for a column that its upload does not have. *)
Definition fuentes_info_aviso : list fuente :=
  [ Fuente "SIB" 0 "especie" "categoria";
    Fuente "IUCN" 1 " scientificName " "";
    Fuente "Fuente 4" 2 "scientificName" "" ].

(** Entries of which the second cannot be cleaned: no species column is
    given, or one that the upload does not have. *)
Definition fuentes_info_en_blanco : list fuente :=
  [ Fuente "SIB" 0 "especie" ""; Fuente "GBIF" 1 "   " "" ].

Definition fuentes_info_sin_columna : list fuente :=
  [ Fuente "SIB" 0 "especie" ""; Fuente "GBIF" 1 "species" "" ].

(** *** The tables of the enrichment that hold text *)

(** The merges are read on tables in which pandas leaves every cell as it
    is: the species cells of the table are text, as are those of the
    sources, and the extra columns hold no integer (a merge that brings a
    missing value into a column of integers turns the column into
    floats). *)
Definition extras_de_texto (columna_estandar : string)
    (fuentes : dict DataFrame) (extras : dict string) (tabla : DataFrame)
  : Prop :=
  Forall (λ r, is_text <$> celda tabla r columna_estandar = Some true)
         (rows tabla)
  ∧ Forall (λ ne,
            match dict_get ne.1 fuentes with
            | Some df =>
                match positions ne.2 (columns df) with
                | [pe] => Forall (λ r, is_int (cell_at pe r) = false) (rows df)
                | _ => False
                end
            | None => False
            end) extras.

Global Instance extras_de_texto_dec canon fuentes extras tabla :
  Decision (extras_de_texto canon fuentes extras tabla).
Proof.
  unfold extras_de_texto. apply and_dec; [apply _|].
  apply Forall_dec. intros ne.
  destruct (dict_get ne.1 fuentes) as [df|]; [|apply _].
  destruct (positions ne.2 (columns df)) as [|pe [|? ?]]; apply _.
Defined.
(** * Properties *)

(** ** The object store *)

Lemma lookup_total_new (h : heap) (x : DataFrame) : (h ++ [x]) !!! length h = x.
Proof. by apply list_lookup_total_middle. Qed.

Lemma alter_new (f : DataFrame → DataFrame) (h : heap) (x : DataFrame) :
  alter f (length h) (h ++ [x]) = h ++ [f x].
Proof.
  replace (length h) with (length h + 0) by lia. by rewrite alter_app_r.
Qed.

(** ** Column positions *)

Lemma elem_of_positions_from i c cols p :
  p ∈ positions_from i c cols ↔ ∃ j, p = i + j ∧ cols !! j = Some c.
Proof.
  revert i. induction cols as [|x cols IH]; intros i; simpl.
  - split; [by intros ?%elem_of_nil | by intros (j & _ & ?)].
  - destruct (decide (x = c)) as [->|Hne].
    + rewrite elem_of_cons, IH. split.
      * intros [->|(j & -> & Hj)]; [exists 0 | exists (S j)]; split; try done; lia.
      * intros ([|j] & -> & Hj); [left; lia | right; exists j; split; [lia|done]].
    + rewrite IH. split.
      * intros (j & -> & Hj). exists (S j). split; [lia|done].
      * intros ([|j] & -> & Hj); simpl in Hj; [congruence|].
        exists j. split; [lia|done].
Qed.

Lemma elem_of_positions c cols p : p ∈ positions c cols ↔ cols !! p = Some c.
Proof.
  unfold positions. rewrite elem_of_positions_from. split.
  - by intros (j & -> & Hj).
  - intros Hp. by exists p.
Qed.

Lemma positions_nil c cols : positions c cols = [] ↔ c ∉ cols.
Proof.
  split.
  - intros Hnil [p Hp]%list_elem_of_lookup.
    apply elem_of_positions in Hp. rewrite Hnil in Hp. by apply elem_of_nil in Hp.
  - intros Hnot. destruct (positions c cols) as [|p ps] eqn:E; [done|].
    exfalso. apply Hnot. apply list_elem_of_lookup. exists p.
    apply elem_of_positions. rewrite E. left.
Qed.

Lemma positions_from_not_in i c cols : c ∉ cols → positions_from i c cols = [].
Proof.
  revert i. induction cols as [|x cols IH]; intros i Hnot; [done|]. simpl.
  rewrite not_elem_of_cons in Hnot. destruct Hnot as [Hne Hnot].
  rewrite decide_False by done. by apply IH.
Qed.

Lemma positions_NoDup c cols :
  NoDup cols → c ∈ cols → ∃ p, positions c cols = [p].
Proof.
  unfold positions. generalize 0 as i.
  induction cols as [|x cols IH]; intros i Hnd Hin; [by apply elem_of_nil in Hin|].
  apply NoDup_cons in Hnd as [Hx Hnd]. simpl.
  destruct (decide (x = c)) as [->|Hne].
  - exists i. by rewrite positions_from_not_in.
  - apply elem_of_cons in Hin as [?|Hin]; [congruence|]. by apply IH.
Qed.

Lemma positions_single_lt c cols p :
  positions c cols = [p] → p < length cols.
Proof.
  intros Hp. apply (lookup_lt_Some cols p c), elem_of_positions.
  rewrite Hp. left.
Qed.

(** ** Closed forms of the frame operations on a single species column *)

Lemma getitem_single c d p :
  positions c (columns d) = [p] →
  getitem c d = Ok (Series (cell_at p <$> rows d)).
Proof. intros Hp. unfold getitem. by rewrite Hp. Qed.

Lemma getitem_several c d p q ps :
  positions c (columns d) = p :: q :: ps →
  getitem c d = Ok (SubFrame (take_columns (p :: q :: ps) d)).
Proof. intros Hp. unfold getitem. by rewrite Hp. Qed.

Lemma assign_column_single c d p (g : value → value) :
  positions c (columns d) = [p] →
  assign_column c (g <$> (cell_at p <$> rows d)) d
  = Frame (columns d) (update_cell p g <$> rows d).
Proof.
  intros Hp. unfold assign_column. rewrite Hp. f_equal.
  rewrite <-list_fmap_compose, zip_with_fmap_r, zip_with_diag.
  apply list_fmap_ext. by intros i r _.
Qed.

Lemma str_method_astype vals :
  str_method strip ((λ v, VStr (py_str v)) <$> vals) = strip_value <$> vals.
Proof. unfold str_method. by rewrite <-list_fmap_compose. Qed.

Lemma mask_rows_fmap (g : row → bool) d :
  mask_rows (g <$> rows d) d
  = Frame (columns d) (filter (λ r, g r = true) (rows d)).
Proof.
  unfold mask_rows. f_equal. induction (rows d) as [|r rs IH]; [done|].
  simpl. rewrite !filter_cons. simpl. destruct (g r); simpl.
  - repeat case_decide; try done. simpl. by f_equal.
  - repeat case_decide; done.
Qed.

Lemma drop_duplicates_single c d p :
  positions c (columns d) = [p] →
  drop_duplicates c d = Ok (Frame (columns d) (keep_first (row_key [p]) [] (rows d))).
Proof. intros Hp. unfold drop_duplicates. by rewrite Hp. Qed.

(** ** The three outcomes of [limpiar_dataframe] *)

Ltac run_step :=
  unfold df_copy, df_rename, df_getitem, df_setitem, df_mask,
    df_drop_duplicates, deref, alloc, mutate, lift, raise,
    mbind, M_bind, mret, M_ret; cbn beta iota;
  rewrite ?lookup_total_new, ?alter_new.

Lemma limpiar_missing (h : heap) (df : loc) orig canon :
  orig ∉ columns (h !!! df) →
  limpiar_dataframe df orig canon h = (h, Err (ValueError_columna orig)).
Proof.
  intros Hnot. unfold limpiar_dataframe. run_step.
  by rewrite bool_decide_eq_false_2.
Qed.

Lemma limpiar_ok (h : heap) (df : loc) orig canon p :
  orig ∈ columns (h !!! df) →
  positions canon (columns (rename_columns orig canon (h !!! df))) = [p] →
  limpiar_dataframe df orig canon h
  = (h ++ [h !!! df; stage_strip orig canon p (h !!! df);
           stage_lower orig canon p (h !!! df);
           stage_dedup orig canon p (h !!! df)],
     Ok (length h + 3)).
Proof.
  intros Hin Hp. unfold limpiar_dataframe. run_step.
  rewrite bool_decide_eq_true_2 by done. cbn [negb]. run_step.
  generalize dependent (h !!! df). intros d Hin Hp.
  rewrite (getitem_single _ _ _ Hp). cbn [astype_str str_accessor].
  rewrite str_method_astype. run_step.
  rewrite (assign_column_single canon (rename_columns orig canon d) p strip_value Hp).
  change (Frame _ (update_cell p strip_value <$> rows (rename_columns orig canon d)))
    with (stage_strip orig canon p d).
  run_step.
  assert (Hp1 : positions canon (columns (stage_strip orig canon p d)) = [p]) by done.
  rewrite (getitem_single _ _ _ Hp1). cbn [ne_empty].
  rewrite <-list_fmap_compose, mask_rows_fmap.
  replace (Frame _ _) with (stage_mask orig canon p d); last first.
  { unfold stage_mask. f_equal. apply list_filter_iff. intros r. simpl.
    rewrite negb_true_iff, bool_decide_eq_false. done. }
  run_step.
  assert (Hp2 : positions canon (columns (stage_mask orig canon p d)) = [p]) by done.
  rewrite (getitem_single _ _ _ Hp2). cbn [str_accessor].
  unfold str_method. fold lower_value. run_step.
  rewrite (assign_column_single canon (stage_mask orig canon p d) p lower_value Hp2).
  change (Frame _ (update_cell p lower_value <$> rows (stage_mask orig canon p d)))
    with (stage_lower orig canon p d).
  run_step.
  assert (Hp3 : positions canon (columns (stage_lower orig canon p d)) = [p]) by done.
  rewrite (drop_duplicates_single _ _ _ Hp3).
  change (Frame _ (keep_first (row_key [p]) [] (rows (stage_lower orig canon p d))))
    with (stage_dedup orig canon p d).
  f_equal.
  - by rewrite <-!(assoc_L (++)).
  - f_equal. rewrite !length_app. simpl. lia.
Qed.

Lemma limpiar_ambiguous (h : heap) (df : loc) orig canon p q ps :
  orig ∈ columns (h !!! df) →
  positions canon (columns (rename_columns orig canon (h !!! df))) = p :: q :: ps →
  limpiar_dataframe df orig canon h
  = (h ++ [h !!! df; rename_columns orig canon (h !!! df)], Err AttributeError).
Proof.
  intros Hin Hp. unfold limpiar_dataframe. run_step.
  rewrite bool_decide_eq_true_2 by done. cbn [negb]. run_step.
  generalize dependent (h !!! df). intros d Hin Hp.
  rewrite (getitem_several _ _ _ _ _ Hp). cbn [astype_str str_accessor].
  by rewrite <-!(assoc_L (++)).
Qed.

(** ** Text: [strip] and [lower] *)

Lemma lower_char_idem a : lower_char (lower_char a) = lower_char a.
Proof. destruct a as [[] [] [] [] [] [] [] []]; reflexivity. Qed.

Lemma py_isspace_lower_char a : py_isspace (lower_char a) = py_isspace a.
Proof. destruct a as [[] [] [] [] [] [] [] []]; reflexivity. Qed.

Lemma lower_idem s : lower (lower s) = lower s.
Proof. induction s as [|a s IH]; simpl; [done|]. by rewrite lower_char_idem, IH. Qed.

Lemma lower_empty s : lower s = "" ↔ s = "".
Proof. by destruct s. Qed.

Lemma lstrip_lower s : lstrip (lower s) = lower (lstrip s).
Proof.
  induction s as [|a s IH]; simpl; [done|].
  rewrite py_isspace_lower_char. by destruct (py_isspace a).
Qed.

Lemma rstrip_lower s : rstrip (lower s) = lower (rstrip s).
Proof.
  induction s as [|a s IH]; simpl; [done|].
  rewrite IH, py_isspace_lower_char.
  destruct (rstrip s); simpl; [by destruct (py_isspace a)|done].
Qed.

Lemma strip_lower s : strip (lower s) = lower (strip s).
Proof. unfold strip. by rewrite lstrip_lower, rstrip_lower. Qed.

Lemma rstrip_idem s : rstrip (rstrip s) = rstrip s.
Proof.
  induction s as [|a s IH]; simpl; [done|].
  destruct (rstrip s) as [|b r] eqn:E.
  - destruct (py_isspace a) eqn:Ea; simpl; [done|]. by rewrite Ea.
  - simpl in *. by rewrite IH.
Qed.

(** Text that does not begin with white space keeps that property when its
    end is trimmed. *)
Lemma lstrip_rstrip_fixed s : lstrip s = s → lstrip (rstrip s) = rstrip s.
Proof.
  destruct s as [|a s]; simpl; [done|].
  destruct (py_isspace a) eqn:Ea.
  - intros Hs. exfalso.
    assert (Hlen : ∀ t, String.length (lstrip t) ≤ String.length t).
    { induction t as [|b t IHt]; simpl; [lia|]. destruct (py_isspace b); simpl; lia. }
    specialize (Hlen s). rewrite Hs in Hlen. simpl in Hlen. lia.
  - intros _. destruct (rstrip s); simpl; by rewrite Ea.
Qed.

Lemma lstrip_idem s : lstrip (lstrip s) = lstrip s.
Proof.
  induction s as [|a s IH]; simpl; [done|].
  destruct (py_isspace a) eqn:Ea; [done|]. simpl. by rewrite Ea.
Qed.

Lemma strip_idem s : strip (strip s) = strip s.
Proof.
  unfold strip. rewrite (lstrip_rstrip_fixed (lstrip s)) by apply lstrip_idem.
  apply rstrip_idem.
Qed.

Lemma clean_species_clean_value v :
  strip (py_str v) ≠ "" → clean_species (clean_value v).
Proof.
  intros Hne. simpl. split_and!.
  - by rewrite lower_empty.
  - by rewrite strip_lower, strip_idem.
  - apply lower_idem.
Qed.

Lemma clean_value_fixed v : clean_species v → clean_value v = v.
Proof.
  destruct v as [s| |]; simpl; try done. intros (_ & Hs & Hl).
  unfold clean_value. simpl. by rewrite Hs, Hl.
Qed.

(** ** Rows: updating a cell, keeping first occurrences *)

Lemma cell_at_update_cell p f r :
  p < length (cells r) → cell_at p (update_cell p f r) = f (cell_at p r).
Proof.
  intros Hp. unfold cell_at, update_cell. simpl.
  by rewrite list_lookup_insert_eq.
Qed.

Lemma update_cell_twice p f g r :
  update_cell p g (update_cell p f r) = update_cell p (λ v, g (f v)) r
  ∨ length (cells r) ≤ p.
Proof.
  destruct (decide (p < length (cells r))) as [Hp|Hp]; [left|right; lia].
  unfold update_cell at 1 3. rewrite cell_at_update_cell by done.
  simpl. by rewrite list_insert_insert_eq.
Qed.

Lemma update_cell_length p f r :
  length (cells (update_cell p f r)) = length (cells r).
Proof. simpl. apply length_insert. Qed.

Lemma update_cell_fixed p f r :
  p < length (cells r) → f (cell_at p r) = cell_at p r → update_cell p f r = r.
Proof.
  intros Hp Hf. destruct r as [l cs]. unfold update_cell, cell_at in *.
  simpl in *. f_equal. rewrite Hf.
  destruct (lookup_lt_is_Some_2 cs p Hp) as [v Hv]. rewrite Hv. simpl.
  by apply list_insert_id.
Qed.

Section keep_first.
Context {A K : Type} `{EqDecision K} (key : A → K).

Lemma keep_first_sublist seen l : keep_first key seen l `sublist_of` l.
Proof.
  revert seen. induction l as [|x l IH]; intros seen; simpl; [done|].
  case_decide; [by apply sublist_cons | by apply sublist_skip].
Qed.

Lemma keep_first_fresh seen l x :
  x ∈ keep_first key seen l → key x ∉ seen.
Proof.
  revert seen. induction l as [|y l IH]; intros seen; simpl.
  - by intros ?%elem_of_nil.
  - case_decide as Hy; [by apply IH|].
    intros [->|Hin]%elem_of_cons; [done|].
    apply IH in Hin. by apply not_elem_of_cons in Hin as [_ ?].
Qed.

Lemma keep_first_NoDup seen l : NoDup (key <$> keep_first key seen l).
Proof.
  revert seen. induction l as [|y l IH]; intros seen; simpl; [constructor|].
  case_decide as Hy; [apply IH|]. rewrite fmap_cons.
  apply NoDup_cons. split; [|apply IH].
  intros (x & Hk & Hx)%list_elem_of_fmap.
  apply keep_first_fresh in Hx. apply Hx. rewrite <-Hk. left.
Qed.

(** The first element bearing a key that was not seen before is kept. *)
Lemma keep_first_first seen l i x :
  l !! i = Some x →
  key x ∉ seen →
  key x ∉ (key <$> take i l) →
  x ∈ keep_first key seen l.
Proof.
  revert seen i. induction l as [|y l IH]; intros seen i Hi Hseen Hbefore;
    [done|]. simpl. destruct i as [|i]; simpl in *.
  - injection Hi as ->. rewrite decide_False by done. left.
  - rewrite ?fmap_cons, not_elem_of_cons in Hbefore.
    destruct Hbefore as [Hne Hbefore]. case_decide.
    + by apply (IH seen i).
    + right. apply (IH _ i); try done. by apply not_elem_of_cons.
Qed.

(** Every key of the list that was not seen before is the key of a kept
    element. *)
Lemma keep_first_complete seen l x :
  x ∈ l → key x ∉ seen → ∃ y, y ∈ keep_first key seen l ∧ key y = key x.
Proof.
  revert seen. induction l as [|y l IH]; intros seen Hin Hseen;
    [by apply elem_of_nil in Hin|]. simpl.
  apply elem_of_cons in Hin as [->|Hin].
  - rewrite decide_False by done. exists y. split; [left|done].
  - case_decide as Hy; [by apply IH|].
    destruct (decide (key x = key y)) as [Heq|Hne].
    + exists y. split; [left|done].
    + destruct (IH (key y :: seen) Hin) as (z & Hz & Hkz).
      { by apply not_elem_of_cons. }
      exists z. split; [by right|done].
Qed.

(** Only the membership in [seen] matters. *)
Lemma keep_first_seen s1 s2 l :
  (∀ k, k ∈ s1 ↔ k ∈ s2) → keep_first key s1 l = keep_first key s2 l.
Proof.
  revert s1 s2. induction l as [|y l IH]; intros s1 s2 Hs; simpl; [done|].
  destruct (decide (key y ∈ s1)) as [H1|H1].
  - rewrite decide_True by (by apply Hs). by apply IH.
  - rewrite decide_False by (by rewrite <-Hs). f_equal. apply IH.
    intros k. rewrite !elem_of_cons. by rewrite Hs.
Qed.

(** Nothing is kept of a list whose keys were all seen. *)
Lemma keep_first_none seen l :
  (∀ x, x ∈ l → key x ∈ seen) → keep_first key seen l = [].
Proof.
  induction l as [|y l IH]; intros Hl; simpl; [done|].
  rewrite decide_True by (apply Hl; left). apply IH.
  intros x Hx. apply Hl. by right.
Qed.

Lemma keep_first_all seen l :
  NoDup (key <$> l) →
  (∀ x, x ∈ l → key x ∉ seen) →
  keep_first key seen l = l.
Proof.
  revert seen. induction l as [|y l IH]; intros seen Hnd Hseen; [done|].
  simpl. rewrite fmap_cons in Hnd. apply NoDup_cons in Hnd as [Hy Hnd].
  rewrite decide_False by (apply Hseen; left). f_equal.
  apply IH; [done|]. intros x Hx. apply not_elem_of_cons. split.
  - intros Heq. apply Hy. rewrite <-Heq. by apply list_elem_of_fmap_2.
  - apply Hseen. by right.
Qed.
End keep_first.

Lemma row_key_single_inj p r1 r2 :
  row_key [p] r1 = row_key [p] r2 ↔ cell_at p r1 = cell_at p r2.
Proof. unfold row_key. simpl. split; [by intros [= ?] | by intros ->]. Qed.

Lemma NoDup_row_key_single p rs :
  NoDup (row_key [p] <$> rs) ↔ NoDup (cell_at p <$> rs).
Proof.
  replace (row_key [p] <$> rs) with ((λ v, [v]) <$> (cell_at p <$> rs)).
  - apply (NoDup_fmap (λ v : value, [v])).
  - by rewrite <-list_fmap_compose.
Qed.

(** ** The cleaned table *)

Lemma stage_dedup_rows orig canon p d :
  rectangular d → p < length (columns d) →
  rows (stage_dedup orig canon p d) = cleaned_rows p (rows d).
Proof.
  intros Hrect Hp. unfold stage_dedup, stage_lower, stage_mask, stage_strip,
    cleaned_rows. simpl. f_equal.
  unfold rectangular in Hrect. induction Hrect as [|r rs Hr _ IH]; [done|].
  rewrite fmap_cons, !filter_cons, cell_at_update_cell by lia.
  destruct (decide (strip (py_str (cell_at p r)) ≠ "")) as [Hne|He].
  - rewrite decide_True by (unfold strip_value; congruence).
    rewrite !fmap_cons, IH. f_equal.
    destruct (update_cell_twice p strip_value lower_value r) as [->|?]; [done|lia].
  - rewrite decide_False; [done|]. apply dec_stable in He.
    unfold strip_value. rewrite He. by intros ?.
Qed.

Lemma elem_of_cleaned_rows p rs r' :
  r' ∈ cleaned_rows p rs →
  ∃ r, r ∈ rs ∧ strip (py_str (cell_at p r)) ≠ "" ∧ r' = update_cell p clean_value r.
Proof.
  unfold cleaned_rows. intros Hin.
  eapply elem_of_sublist in Hin; [|apply keep_first_sublist].
  apply list_elem_of_fmap in Hin as (r & -> & Hr).
  apply list_elem_of_filter in Hr as [Hne Hr]. by exists r.
Qed.

Lemma rename_columns_length old new d :
  length (columns (rename_columns old new d)) = length (columns d).
Proof. simpl. apply length_fmap. Qed.

Lemma rename_columns_same c d : rename_columns c c d = d.
Proof.
  destruct d as [cols rs]. unfold rename_columns. simpl. f_equal.
  induction cols as [|x cols IH]; [done|]. rewrite fmap_cons, IH.
  by destruct (decide (x = c)) as [->|].
Qed.

Lemma elem_of_rename_columns old new d :
  old ∈ columns d → new ∈ columns (rename_columns old new d).
Proof.
  intros Hin. simpl. apply list_elem_of_fmap. exists old.
  by rewrite decide_True.
Qed.

(** A successful run returns a normalized table. *)
Lemma stage_dedup_normalized orig canon p d :
  rectangular d →
  positions canon (columns (rename_columns orig canon d)) = [p] →
  normalized canon (stage_dedup orig canon p d).
Proof.
  intros Hrect Hp.
  assert (Hlt : p < length (columns d)).
  { rewrite <-(rename_columns_length orig canon). by eapply positions_single_lt. }
  assert (Hrows : ∀ r', r' ∈ rows (stage_dedup orig canon p d) →
            length (cells r') = length (columns d) ∧ clean_species (cell_at p r')).
  { intros r'. rewrite stage_dedup_rows by done.
    intros (r & Hr & Hne & ->)%elem_of_cleaned_rows.
    unfold rectangular in Hrect. rewrite Forall_forall in Hrect.
    specialize (Hrect r Hr). rewrite update_cell_length. split; [done|].
    rewrite cell_at_update_cell by lia. by apply clean_species_clean_value. }
  split.
  - unfold rectangular. apply Forall_forall. intros r' Hr'.
    change (columns (stage_dedup orig canon p d))
      with (columns (rename_columns orig canon d)).
    rewrite rename_columns_length. by apply Hrows.
  - change (columns (stage_dedup orig canon p d))
      with (columns (rename_columns orig canon d)). rewrite Hp. split.
    + apply NoDup_row_key_single. apply keep_first_NoDup.
    + apply Forall_fmap, Forall_forall. intros r' Hr'. by apply Hrows.
Qed.

(** Cleaning a normalized table again changes nothing. *)
Lemma cleaned_rows_normalized canon d p :
  normalized canon d → positions canon (columns d) = [p] →
  cleaned_rows p (rows d) = rows d.
Proof.
  intros [Hrect Hnorm] Hp. rewrite Hp in Hnorm. destruct Hnorm as [Hnd Hclean].
  assert (Hlt : p < length (columns d)) by by eapply positions_single_lt.
  unfold cleaned_rows. unfold rectangular in Hrect.
  rewrite Forall_fmap in Hclean.
  assert (Hfilter : filter (λ r, strip (py_str (cell_at p r)) ≠ "") (rows d) = rows d).
  { clear Hnd. induction (rows d) as [|r rs IH]; [done|].
    apply Forall_cons in Hclean as [Hr Hclean]. apply Forall_cons in Hrect as [_ Hrect].
    rewrite filter_cons, decide_True, IH; try done.
    simpl in Hr. destruct (cell_at p r) as [s| |]; try done. simpl.
    destruct Hr as (Hne & Hs & _). by rewrite Hs. }
  assert (Hupd : update_cell p clean_value <$> rows d = rows d).
  { clear Hnd Hfilter. induction (rows d) as [|r rs IH]; [done|].
    apply Forall_cons in Hclean as [Hr Hclean]. apply Forall_cons in Hrect as [Hlen Hrect].
    rewrite fmap_cons, IH by done. f_equal.
    apply update_cell_fixed; [lia|]. by apply clean_value_fixed. }
  rewrite Hfilter, Hupd. apply keep_first_all.
  - by apply NoDup_row_key_single.
  - intros r _. apply not_elem_of_nil.
Qed.

Lemma stage_dedup_fixed canon p T :
  normalized canon T → positions canon (columns T) = [p] →
  stage_dedup canon canon p T = T.
Proof.
  intros Hnorm Hp.
  assert (Hrows : rows (stage_dedup canon canon p T) = rows T).
  { rewrite stage_dedup_rows.
    - by apply (cleaned_rows_normalized canon).
    - by destruct Hnorm.
    - by eapply positions_single_lt. }
  assert (Hcols : columns (stage_dedup canon canon p T) = columns T).
  { change (columns (stage_dedup canon canon p T))
      with (columns (rename_columns canon canon T)).
    by rewrite rename_columns_same. }
  destruct T as [cols rs], (stage_dedup canon canon p (Frame cols rs)).
  simpl in *. by subst.
Qed.

(** Every run of [limpiar_dataframe] is one of three. *)
Lemma limpiar_cases (h : heap) (df : loc) orig canon :
((orig ∉ columns (h !!! df))
   ∧ limpiar_dataframe df orig canon h = (h, Err (ValueError_columna orig)))
  ∨ (orig ∈ columns (h !!! df) ∧ ∃ p,
     positions canon (columns (rename_columns orig canon (h !!! df))) = [p]
     ∧ limpiar_dataframe df orig canon h
       = (h ++ [h !!! df; stage_strip orig canon p (h !!! df);
                stage_lower orig canon p (h !!! df);
                stage_dedup orig canon p (h !!! df)],
          Ok (length h + 3)))
  ∨ (orig ∈ columns (h !!! df) ∧ ∃ p q ps,
     positions canon (columns (rename_columns orig canon (h !!! df))) = p :: q :: ps
     ∧ limpiar_dataframe df orig canon h
       = (h ++ [h !!! df; rename_columns orig canon (h !!! df)],
          Err AttributeError)).
Proof.
  destruct (decide (orig ∈ columns (h !!! df))) as [Hin|Hnot].
  - right.
    destruct (positions canon (columns (rename_columns orig canon (h !!! df))))
      as [|p [|q ps]] eqn:Hp.
    + apply positions_nil in Hp. exfalso. apply Hp.
      by apply elem_of_rename_columns.
    + left. split; [done|]. exists p. split; [done|]. by apply limpiar_ok.
    + right. split; [done|]. exists p, q, ps. split; [done|].
      by eapply limpiar_ambiguous.
  - left. split; [done|]. by apply limpiar_missing.
Qed.

Lemma lookup_total_fourth (h : heap) (a b c d : DataFrame) :
  (h ++ [a; b; c; d]) !!! (length h + 3) = d.
Proof.
  rewrite lookup_total_app_r by lia.
  by replace (length h + 3 - length h) with 3 by lia.
Qed.

Lemma keep_first_app {A K : Type} `{EqDecision K} (key : A → K) seen seen' l1 l2 :
  (∀ k, k ∈ seen' ↔ k ∈ seen ∨ k ∈ key <$> l1) →
  keep_first key seen (l1 ++ l2)
  = keep_first key seen l1 ++ keep_first key seen' l2.
Proof.
  revert seen. induction l1 as [|x l1 IH]; intros seen Hs; simpl.
  - apply keep_first_seen. intros k. rewrite Hs, fmap_nil, elem_of_nil. tauto.
  - case_decide as Hx.
    + apply IH. intros k. rewrite Hs, fmap_cons, elem_of_cons.
      split; [|tauto]. intros [?|[->|?]]; tauto.
    + simpl. f_equal. apply IH. intros k.
      rewrite Hs, fmap_cons, !elem_of_cons. tauto.
Qed.

Lemma keep_first_middle {A K : Type} `{EqDecision K} (key : A → K) seen l1 x l2 :
  key x ∉ seen → key x ∉ (key <$> l1) →
  x ∈ keep_first key seen (l1 ++ x :: l2).
Proof.
  intros Hseen Hbefore. apply (keep_first_first key seen _ (length l1)).
  - by apply list_lookup_middle.
  - done.
  - by rewrite take_app_length.
Qed.

(** Renaming the species column leaves one column with the standard label
    when the labels are all different and the standard label is either
    that of the species column or not in use. *)
Lemma positions_rename_columns c canon d :
  NoDup (columns d) → c ∈ columns d → (c = canon ∨ canon ∉ columns d) →
  ∃ p, positions canon (columns (rename_columns c canon d)) = [p].
Proof.
  intros Hnd Hin Hfree. apply positions_NoDup.
  - destruct Hfree as [->|Hfree].
    + by rewrite rename_columns_same.
    + simpl. apply NoDup_fmap_2_strong; [|done].
      intros x y Hx Hy. repeat case_decide; congruence.
  - by apply elem_of_rename_columns.
Qed.

(** A successful run: the table returned is normalized, has the columns of
    the input with the species column renamed, and its rows are the
    cleaned rows of the input. *)
Lemma limpiar_normaliza (h : heap) (df : loc) (T : DataFrame) c canon p :
  h !! df = Some T → rectangular T → c ∈ columns T →
  positions canon (columns (rename_columns c canon T)) = [p] →
  ∃ h', limpiar_dataframe df c canon h = (h', Ok (length h + 3))
        ∧ h `prefix_of` h'
        ∧ normalized canon (h' !!! (length h + 3))
        ∧ columns (h' !!! (length h + 3)) = columns (rename_columns c canon T)
        ∧ rows (h' !!! (length h + 3)) = cleaned_rows p (rows T).
Proof.
  intros Hdf Hrect Hin Hp. pose proof (list_lookup_total_correct _ _ _ Hdf) as Htot.
  eexists. split; [apply (limpiar_ok h df c canon p); by rewrite Htot|].
  rewrite lookup_total_fourth, Htot. split_and!.
  - by apply prefix_app_r.
  - by apply stage_dedup_normalized.
  - done.
  - apply stage_dedup_rows; [done|].
    rewrite <-(rename_columns_length c canon). by eapply positions_single_lt.
Qed.

(** ** Dictionaries *)

Section dict.
Context {V : Type}.
Implicit Types (d : dict V) (k : string) (v : V).

Lemma dict_get_set_eq k v d : dict_get k (dict_set k v d) = Some v.
Proof.
  induction d as [|[k' v'] d IH]; simpl.
  - by rewrite decide_True.
  - destruct (decide (k' = k)) as [->|Hne]; simpl.
    + by rewrite decide_True.
    + by rewrite decide_False.
Qed.

Lemma dict_get_set_ne k k' v d :
  k ≠ k' → dict_get k' (dict_set k v d) = dict_get k' d.
Proof.
  intros Hne. induction d as [|[k0 v0] d IH]; simpl.
  - by rewrite decide_False.
  - destruct (decide (k0 = k)) as [->|Hne0]; simpl.
    + by rewrite !decide_False.
    + by rewrite IH.
Qed.

Lemma dict_set_fresh k v d :
  k ∉ dict_keys d → dict_set k v d = d ++ [(k, v)].
Proof.
  induction d as [|[k' v'] d IH]; simpl; [done|].
  intros [Hne Hnot]%not_elem_of_cons.
  rewrite decide_False by done. f_equal. by apply IH.
Qed.

Lemma dict_keys_set_present k v d :
  k ∈ dict_keys d → dict_keys (dict_set k v d) = dict_keys d.
Proof.
  induction d as [|[k' v'] d IH]; simpl; [by intros ?%elem_of_nil|].
  intros Hin. destruct (decide (k' = k)) as [->|Hne]; simpl; [done|].
  apply elem_of_cons in Hin as [?|Hin]; [congruence|].
  f_equal. by apply IH.
Qed.

Lemma dict_get_None k d : dict_get k d = None ↔ k ∉ dict_keys d.
Proof.
  induction d as [|[k' v'] d IH]; simpl.
  - split; [intros _; apply not_elem_of_nil | done].
  - destruct (decide (k' = k)) as [->|Hne].
    + split; [done|]. intros Hnot. exfalso. apply Hnot. left.
    + rewrite IH, not_elem_of_cons. split; [by intros ?|by intros [_ ?]].
Qed.

Lemma dict_get_app_l k d1 d2 x :
  dict_get k d1 = Some x → dict_get k (d1 ++ d2) = Some x.
Proof.
  induction d1 as [|[k' v'] d1 IH]; simpl; [done|]. case_decide; [done|apply IH].
Qed.

Lemma dict_get_app_r k d1 d2 :
  k ∉ dict_keys d1 → dict_get k (d1 ++ d2) = dict_get k d2.
Proof.
  induction d1 as [|[k' v'] d1 IH]; simpl; [done|].
  intros [Hne Hnot]%not_elem_of_cons. rewrite decide_False by done. by apply IH.
Qed.

Lemma dict_get_elem_of k v d :
  NoDup (dict_keys d) → (k, v) ∈ d → dict_get k d = Some v.
Proof.
  induction d as [|[k' v'] d IH]; simpl; [by intros _ ?%elem_of_nil|].
  intros [Hk Hnd]%NoDup_cons [[= -> ->]|Hin]%elem_of_cons.
  - by rewrite decide_True.
  - rewrite decide_False; [by apply IH|]. intros ->. apply Hk.
    apply list_elem_of_fmap. by exists (k, v).
Qed.
End dict.

(** The keys and the entries of a dictionary filled by successive
    assignments. *)
Lemma dict_keys_foldl_set {V W : Type} (g : W → V) (items : dict W) (d : dict V) :
  dict_keys (foldl (λ f kv, dict_set kv.1 (g kv.2) f) d items)
  = dict_keys d ++ keep_first id (dict_keys d) (dict_keys items).
Proof.
  revert d. induction items as [|[k w] items IH]; intros d; simpl.
  - by rewrite (right_id_L [] (++)).
  - rewrite IH. unfold id at 1. simpl. case_decide as Hk.
    + rewrite dict_keys_set_present by done. done.
    + rewrite dict_set_fresh by done. unfold dict_keys at 1 2.
      rewrite fmap_app. simpl. rewrite <-(assoc_L (++)). simpl. f_equal. f_equal.
      apply keep_first_seen. intros x.
      rewrite elem_of_app, !elem_of_cons, elem_of_nil.
      unfold dict_keys, id. tauto.
Qed.

Lemma dict_get_foldl_set {V W : Type} (g : W → V) (items : dict W) (d : dict V) k :
  NoDup (dict_keys items) →
  dict_get k (foldl (λ f kv, dict_set kv.1 (g kv.2) f) d items)
  = match dict_get k items with
    | Some w => Some (g w)
    | None => dict_get k d
    end.
Proof.
  revert d. induction items as [|[k0 w0] items IH]; intros d Hnd; simpl; [done|].
  apply NoDup_cons in Hnd as [Hk0 Hnd]. rewrite IH by done. simpl in *.
  destruct (decide (k0 = k)) as [->|Hne].
  - apply dict_get_None in Hk0. rewrite Hk0. apply dict_get_set_eq.
  - by rewrite dict_get_set_ne.
Qed.

(** ** The rows of the intersection table *)

Lemma presencia_keys e (sets : dict (gset value)) :
  dict_keys (presencia e sets) = dict_keys sets.
Proof. unfold presencia, dict_keys. by rewrite <-list_fmap_compose. Qed.

Lemma presencia_get e (sets : dict (gset value)) k :
  dict_get k (presencia e sets)
  = (λ conj, bool_decide (e ∈ conj)) <$> dict_get k sets.
Proof.
  induction sets as [|[k' conj] sets IH]; simpl; [done|]. by case_decide.
Qed.

Lemma num_fuentes_presencia e (sets : dict (gset value)) :
  num_fuentes (presencia e sets)
  = Z.of_nat (length (filter (λ kv, e ∈ kv.2) sets)).
Proof.
  unfold num_fuentes. f_equal. induction sets as [|[k conj] sets IH]; [done|].
  simpl. rewrite !filter_cons. simpl.
  destruct (decide (e ∈ conj)) as [Hin|Hnot].
  - rewrite bool_decide_eq_true_2 by done. rewrite decide_True by done.
    simpl. by rewrite IH.
  - rewrite bool_decide_eq_false_2 by done. by rewrite decide_False by done.
Qed.

Lemma fila_keys canon e pres :
  dict_keys (fila canon e pres) = columnas_tabla canon (dict_keys pres).
Proof.
  unfold fila, columnas_tabla.
  rewrite (dict_keys_foldl_set (λ b : bool, VInt (if b then 1 else 0))). simpl.
  destruct (decide (canon = "num_fuentes")) as [->|Hne]; simpl.
  - done.
  - by rewrite ?decide_False.
Qed.

Lemma fila_get canon e pres k :
  NoDup (dict_keys pres) →
  dict_get k (fila canon e pres)
  = match dict_get k pres with
    | Some b => Some (VInt (if b : bool then 1 else 0))
    | None =>
        if decide (k = "num_fuentes") then Some (VInt (num_fuentes pres))
        else if decide (k = canon) then Some e else None
    end.
Proof.
  intros Hnd. unfold fila.
  rewrite (dict_get_foldl_set (λ b : bool, VInt (if b then 1 else 0))) by done.
  destruct (dict_get k pres); [done|].
  destruct (decide (k = "num_fuentes")) as [->|Hk].
  - apply dict_get_set_eq.
  - rewrite dict_get_set_ne by done. destruct (decide (k = canon)) as [->|Hc].
    + apply dict_get_set_eq.
    + by rewrite dict_get_set_ne.
Qed.

Lemma columnas_tabla_NoDup canon nombres : NoDup (columnas_tabla canon nombres).
Proof.
  unfold columnas_tabla. apply NoDup_app. split_and!.
  - case_decide; [apply NoDup_singleton|].
    apply NoDup_cons. split; [by intros ?%list_elem_of_singleton|apply NoDup_singleton].
  - intros x Hx Hx'. by apply keep_first_fresh in Hx'.
  - rewrite <-(list_fmap_id (keep_first id _ _)). apply keep_first_NoDup.
Qed.

Lemma columnas_tabla_fresh canon nombres :
  canon ≠ "num_fuentes" → NoDup nombres →
  canon ∉ nombres → "num_fuentes" ∉ nombres →
  columnas_tabla canon nombres = canon :: "num_fuentes" :: nombres.
Proof.
  intros Hne Hnd Hc Hn. unfold columnas_tabla. rewrite decide_False by done.
  simpl. do 2 f_equal. apply keep_first_all.
  - by rewrite list_fmap_id.
  - intros x Hx. unfold id. rewrite !not_elem_of_cons. split_and!.
    + by intros ->.
    + by intros ->.
    + apply not_elem_of_nil.
Qed.

Lemma elem_of_concat {A} (x : A) (ls : list (list A)) :
  x ∈ concat ls ↔ ∃ l, l ∈ ls ∧ x ∈ l.
Proof.
  induction ls as [|l ls IH]; simpl.
  - split; [by intros ?%elem_of_nil | by intros (? & ?%elem_of_nil & _)].
  - rewrite elem_of_app, IH. split.
    + intros [Hx|(l' & Hl' & Hx)]; [exists l | exists l']; split; try done;
        [left | by right].
    + intros (l' & [->|Hl']%elem_of_cons & Hx); [by left | right; by exists l'].
Qed.

(** The frame built from dictionaries that all have the same keys. *)
Lemma frame_of_dicts_same_keys (K : list string) (fs : list (dict value)) :
  NoDup K → fs ≠ [] → (∀ f, f ∈ fs → dict_keys f = K) →
  frame_of_dicts fs = Frame K (imap (λ i f, Row i (fila_cells K f)) fs).
Proof.
  intros Hnd Hne Hkeys. unfold frame_of_dicts.
  assert (Hcols : keep_first id [] (concat (dict_keys <$> fs)) = K).
  { destruct fs as [|f fs]; [done|]. rewrite fmap_cons. simpl.
    rewrite (Hkeys f) by left.
    rewrite (keep_first_app id [] K).
    - rewrite keep_first_all, keep_first_none.
      + apply (right_id_L [] (++)).
      + intros x [ks [Hks Hx]]%elem_of_concat.
        apply list_elem_of_fmap in Hks as (f' & -> & Hf').
        rewrite (Hkeys f') in Hx by by right. done.
      + by rewrite list_fmap_id.
      + intros x _. apply not_elem_of_nil.
    - intros k. rewrite list_fmap_id, elem_of_nil. tauto. }
  by rewrite Hcols.
Qed.

(** ** Species sets of normalized tables *)

Lemma clean_species_text e : clean_species e → is_text e = true.
Proof. by destruct e. Qed.

Lemma especies_normalized canon df :
  normalized canon df →
  ∃ p, positions canon (columns df) = [p]
       ∧ especies canon df = Ok (list_to_set (cell_at p <$> rows df))
       ∧ Forall clean_species (cell_at p <$> rows df).
Proof.
  intros [_ Hnorm].
  destruct (positions canon (columns df)) as [|p [|q ps]] eqn:Hp; try done.
  destruct Hnorm as [_ Hclean]. exists p. split_and!; [done| |done].
  unfold especies. rewrite (getitem_single _ _ _ Hp). simpl. do 2 f_equal.
  induction Hclean as [|v vs Hv _ IH]; [done|].
  rewrite filter_cons, decide_True, IH; [done|]. by destruct v.
Qed.

Lemma species_set_normalized canon df e :
  normalized canon df → e ∈ species_set canon df → clean_species e.
Proof.
  intros Hnorm. destruct (especies_normalized _ _ Hnorm) as (p & _ & Hesp & Hclean).
  unfold species_set. rewrite Hesp, elem_of_list_to_set.
  rewrite Forall_forall in Hclean. apply Hclean.
Qed.

Lemma foldl_dict_set_fresh {V W : Type} (g : string * W → V)
    (items : dict W) (acc : dict V) :
  NoDup (dict_keys acc ++ dict_keys items) →
  foldl (λ a kv, dict_set kv.1 (g kv) a) acc items
  = acc ++ ((λ kv, (kv.1, g kv)) <$> items).
Proof.
  revert acc. induction items as [|[k w] items IH]; intros acc Hnd; simpl.
  - by rewrite (right_id_L [] (++)).
  - rewrite dict_set_fresh.
    + rewrite IH.
      * by rewrite <-(assoc_L (++)).
      * unfold dict_keys in *. rewrite fmap_app. simpl.
        rewrite <-(assoc_L (++)). simpl. done.
    + apply NoDup_app in Hnd as (_ & Hdisj & _). intros Hk.
      apply (Hdisj k Hk). left.
Qed.

Lemma conjuntos_por_fuente_normalized canon (fuentes : dict DataFrame)
    (acc : dict (gset value)) :
  Forall (λ kv, normalized canon kv.2) fuentes →
  conjuntos_por_fuente canon fuentes acc
  = Ok (foldl (λ a kv, dict_set kv.1 (species_set canon kv.2) a) acc fuentes).
Proof.
  intros Hnorm. revert acc. induction Hnorm as [|[k df] fuentes Hdf _ IH];
    intros acc; simpl; [done|].
  destruct (especies_normalized _ _ Hdf) as (p & _ & Hesp & _). simpl in Hesp.
  assert (Hss : species_set canon df = list_to_set (cell_at p <$> rows df)).
  { unfold species_set. by rewrite Hesp. }
  rewrite Hesp. simpl. rewrite <-Hss. apply IH.
Qed.

(** The species sets [construir_interseccion] returns for a mapping of
    normalized tables: one per source, in the order of the mapping. *)
Lemma conjuntos_por_fuente_mapping canon (fuentes : dict DataFrame) :
  NoDup (dict_keys fuentes) →
  Forall (λ kv, normalized canon kv.2) fuentes →
  conjuntos_por_fuente canon fuentes []
  = Ok ((λ kv, (kv.1, species_set canon kv.2)) <$> fuentes).
Proof.
  intros Hnd Hnorm. rewrite conjuntos_por_fuente_normalized by done.
  by rewrite (foldl_dict_set_fresh (λ kv, species_set canon kv.2)).
Qed.

Lemma forallb_true_intro {A} (f : A → bool) (l : list A) :
  (∀ x, x ∈ l → f x = true) → forallb f l = true.
Proof.
  induction l as [|x l IH]; intros Hl; simpl; [done|].
  rewrite (Hl x) by left. apply IH. intros y Hy. apply Hl. by right.
Qed.

Lemma cell_at_fila_cells K c p i f :
  positions c K = [p] →
  cell_at p (Row i (fila_cells K f)) = default VNaN (dict_get c f).
Proof.
  intros Hp. assert (HK : K !! p = Some c).
  { apply elem_of_positions. rewrite Hp. left. }
  unfold cell_at, fila_cells. simpl. by rewrite list_lookup_fmap, HK.
Qed.

Lemma cells_imap_row {A} (g : A → list value) (l : list A) (k : nat → nat) :
  cells <$> imap (λ i x, Row (k i) (g x)) l = g <$> l.
Proof.
  revert k. induction l as [|x l IH]; intros k; simpl; [done|].
  f_equal. apply (IH (k ∘ S)).
Qed.

(** ** The table [construir_interseccion] builds *)

Lemma species_sets_de_keys canon fuentes :
  dict_keys (species_sets_de canon fuentes) = dict_keys fuentes.
Proof. unfold species_sets_de, dict_keys. by rewrite <-list_fmap_compose. Qed.

Lemma elem_of_all_species canon fuentes e :
  e ∈ ⋃ (snd <$> species_sets_de canon fuentes)
  ↔ ∃ kv, kv ∈ fuentes ∧ e ∈ species_set canon kv.2.
Proof.
  rewrite elem_of_union_list. unfold species_sets_de. split.
  - intros (X & HX & He). apply list_elem_of_fmap in HX as ([k s] & -> & Hks).
    apply list_elem_of_fmap in Hks as (kv & [= -> ->] & Hkv). by exists kv.
  - intros (kv & Hkv & He). exists (species_set canon kv.2). split; [|done].
    apply list_elem_of_fmap. exists (kv.1, species_set canon kv.2). split; [done|].
    apply list_elem_of_fmap. by exists kv.
Qed.

Lemma num_fuentes_sources_containing canon fuentes e :
  num_fuentes (presencia e (species_sets_de canon fuentes))
  = sources_containing canon fuentes e.
Proof.
  rewrite num_fuentes_presencia. unfold sources_containing, species_sets_de.
  f_equal. induction fuentes as [|[k df] fuentes IH]; [done|].
  rewrite fmap_cons, !filter_cons. simpl.
  destruct (decide (e ∈ species_set canon df)); simpl; by rewrite IH.
Qed.

Section construir.
Context `{SetOrder}.

Lemma elem_of_set_order (s : gset value) e : e ∈ set_order s ↔ e ∈ s.
Proof. by rewrite set_order_perm, elem_of_elements. Qed.

Lemma elem_of_filas canon fuentes f :
  f ∈ filas canon (species_sets_de canon fuentes)
  ↔ ∃ e, (∃ kv, kv ∈ fuentes ∧ e ∈ species_set canon kv.2)
       ∧ (2 ≤ sources_containing canon fuentes e)%Z
       ∧ f = fila canon e (presencia e (species_sets_de canon fuentes)).
Proof.
  unfold filas. rewrite list_elem_of_omap. split.
  - intros (e & He & Hf). apply elem_of_set_order, elem_of_all_species in He.
    rewrite num_fuentes_sources_containing in Hf.
    case_decide; [|done]. injection Hf as <-. by exists e.
  - intros (e & He & Hn & ->). exists e. split.
    + by apply elem_of_set_order, elem_of_all_species.
    + rewrite num_fuentes_sources_containing. by rewrite decide_True.
Qed.

(** Under the count column every row holds an integer. *)
Lemma fila_num_fuentes_int canon e (sets : dict (gset value)) :
  NoDup (dict_keys sets) →
  ∃ z, dict_get "num_fuentes" (fila canon e (presencia e sets)) = Some (VInt z).
Proof.
  intros Hnd. rewrite fila_get by by rewrite presencia_keys.
  destruct (dict_get "num_fuentes" (presencia e sets)); [by eexists|].
  rewrite decide_True by done. by eexists.
Qed.

(** Under the species column every row holds an integer when the label
    is also the count's or a source's, and the species otherwise. *)
Lemma fila_canon_cell canon e (sets : dict (gset value)) :
  NoDup (dict_keys sets) →
  if decide (canon = "num_fuentes" ∨ canon ∈ dict_keys sets)
  then ∃ z, dict_get canon (fila canon e (presencia e sets)) = Some (VInt z)
  else dict_get canon (fila canon e (presencia e sets)) = Some e.
Proof.
  intros Hnd. rewrite fila_get by by rewrite presencia_keys.
  rewrite presencia_get. case_decide as Hc.
  - destruct (dict_get canon sets) as [conj|] eqn:Hget; simpl; [by eexists|].
    apply dict_get_None in Hget. destruct Hc as [->|?]; [|done].
    rewrite decide_True by done. by eexists.
  - assert (Hc1 : canon ≠ "num_fuentes") by tauto.
    assert (Hc2 : canon ∉ dict_keys sets) by tauto.
    apply dict_get_None in Hc2. rewrite Hc2. simpl.
    rewrite decide_False by done. by rewrite decide_True.
Qed.

Lemma columnas_tabla_positions canon nombres :
  ∃ p1 p2, positions "num_fuentes" (columnas_tabla canon nombres) = [p1]
           ∧ positions canon (columnas_tabla canon nombres) = [p2].
Proof.
  pose proof (columnas_tabla_NoDup canon nombres) as Hnd.
  destruct (positions_NoDup "num_fuentes" _ Hnd) as [p1 Hp1].
  { unfold columnas_tabla. apply elem_of_app. left.
    case_decide as Hc; [rewrite Hc; left | right; left]. }
  destruct (positions_NoDup canon _ Hnd) as [p2 Hp2].
  { unfold columnas_tabla. apply elem_of_app. left. case_decide; left. }
  by exists p1, p2.
Qed.

Lemma construir_shape (fuentes : dict DataFrame) canon :
  fuentes ≠ [] →
  NoDup (dict_keys fuentes) →
  Forall (λ kv, normalized canon kv.2) fuentes →
  ∃ p1 p2,
    positions "num_fuentes" (columnas_tabla canon (dict_keys fuentes)) = [p1]
    ∧ positions canon (columnas_tabla canon (dict_keys fuentes)) = [p2]
    ∧ construir_interseccion fuentes canon
      = Ok (species_sets_de canon fuentes,
            if decide (filas canon (species_sets_de canon fuentes) = [])
            then empty_frame
            else reset_index
                   (Frame (columnas_tabla canon (dict_keys fuentes))
                      (merge_sort (row_before p1 p2)
                         (imap (λ i f, Row i (fila_cells
                                  (columnas_tabla canon (dict_keys fuentes)) f))
                               (filas canon (species_sets_de canon fuentes)))))).
Proof.
  intros Hne Hnd Hnorm.
  set (K := columnas_tabla canon (dict_keys fuentes)).
  set (sets := species_sets_de canon fuentes).
  destruct (columnas_tabla_positions canon (dict_keys fuentes)) as (p1 & p2 & Hp1 & Hp2).
  exists p1, p2. split_and!; [done..|]. fold K in Hp1, Hp2.
  unfold construir_interseccion. rewrite conjuntos_por_fuente_mapping by done.
  fold (species_sets_de canon fuentes). fold sets. simpl.
  assert (Hsets : sets ≠ []).
  { unfold sets, species_sets_de. by destruct fuentes. }
  rewrite decide_False by done.
  destruct (decide (filas canon sets = [])) as [Hfs|Hfs].
  { rewrite Hfs. done. }
  rewrite (frame_of_dicts_same_keys K); [|apply columnas_tabla_NoDup|done|]; last first.
  { intros f (e & _ & _ & ->)%elem_of_filas.
    rewrite fila_keys, presencia_keys. unfold K. by rewrite species_sets_de_keys. }
  set (rows0 := imap _ (filas canon sets)).
  replace (df_empty (Frame K rows0)) with false; last first.
  { symmetry. apply bool_decide_eq_false. intros [Hr|HK]; simpl in *.
    - apply Hfs. apply (f_equal length) in Hr. unfold rows0 in Hr.
      rewrite length_imap in Hr. by apply nil_length_inv.
    - by rewrite HK in Hp2. }
  unfold sort_values. cbn [columns rows]. fold K. rewrite Hp1, Hp2.
  done.
Qed.
End construir.

(** ** The order of the rows *)

Lemma value_leb_total v w : value_leb v w = true ∨ value_leb w v = true.
Proof.
  destruct v as [s|a|], w as [t|b|]; simpl; auto.
  - apply String.leb_total.
  - destruct (Z.leb_spec a b); [by left|right]. apply Z.leb_le. lia.
Qed.

Lemma value_desc_total v w : value_desc v w = true ∨ value_desc w v = true.
Proof.
  destruct v as [s|a|], w as [t|b|]; simpl; auto.
  - destruct (String.leb_total s t); auto.
  - destruct (Z.leb_spec a b); [by right|left]. apply Z.leb_le. lia.
Qed.

Global Instance row_before_total p1 p2 : Total (row_before p1 p2).
Proof.
  intros r1 r2. unfold row_before.
  destruct (decide (cell_at p1 r1 = cell_at p1 r2)) as [Heq|Hne].
  - rewrite decide_True by done. apply value_leb_total.
  - rewrite decide_False by done. apply value_desc_total.
Qed.

Lemma Sorted_adjacent {A} (R : relation A) (l : list A) i x y :
  Sorted R l → l !! i = Some x → l !! S i = Some y → R x y.
Proof.
  intros Hs. revert i. induction Hs as [|a l Hs IH Hhd]; intros i Hx Hy; [done|].
  destruct i as [|i]; simpl in *.
  - injection Hx as ->. destruct Hhd as [|b l' Hab]; [done|].
    simpl in Hy. by injection Hy as ->.
  - by apply (IH i).
Qed.

Section tabla.
Context `{SetOrder}.

(** What every result on a non-empty mapping of normalized tables looks
    like: the species sets of the sources, and a table that either has
    no row and no column, or has the columns [columnas_tabla], one row
    per species found in two sources or more, built from the row
    dictionary of that species, the rows being in sorted order. *)
Lemma construir_table (fuentes : dict DataFrame) canon :
  fuentes ≠ [] →
  NoDup (dict_keys fuentes) →
  Forall (λ kv, normalized canon kv.2) fuentes →
  ∃ tabla p1 p2,
    construir_interseccion fuentes canon
    = Ok (species_sets_de canon fuentes, tabla)
    ∧ positions "num_fuentes" (columnas_tabla canon (dict_keys fuentes)) = [p1]
    ∧ positions canon (columnas_tabla canon (dict_keys fuentes)) = [p2]
    ∧ (rows tabla = [] → tabla = empty_frame)
    ∧ (rows tabla ≠ [] → columns tabla = columnas_tabla canon (dict_keys fuentes))
    ∧ (∀ r, r ∈ rows tabla →
         ∃ e, (∃ kv, kv ∈ fuentes ∧ e ∈ species_set canon kv.2)
              ∧ (2 ≤ sources_containing canon fuentes e)%Z
              ∧ cells r = fila_cells (columnas_tabla canon (dict_keys fuentes))
                            (fila canon e
                               (presencia e (species_sets_de canon fuentes))))
    ∧ (∀ i r1 r2, rows tabla !! i = Some r1 → rows tabla !! S i = Some r2 →
         row_before p1 p2 r1 r2).
Proof.
  intros Hne Hnd Hnorm.
  destruct (construir_shape fuentes canon Hne Hnd Hnorm) as (p1 & p2 & Hp1 & Hp2 & Hrun).
  eexists _, p1, p2. split; [exact Hrun|]. split; [done|]. split; [done|].
  set (K := columnas_tabla canon (dict_keys fuentes)) in *.
  set (sets := species_sets_de canon fuentes) in *.
  destruct (decide (filas canon sets = [])) as [Hfs|Hfs].
  { split_and!; try done. intros r Hr. by apply elem_of_nil in Hr. }
  set (rows0 := imap _ (filas canon sets)).
  assert (Hperm : merge_sort (row_before p1 p2) rows0 ≡ₚ rows0)
    by apply merge_sort_Permutation.
  split_and!.
  - simpl. intros Hnil. exfalso. apply Hfs.
    apply (f_equal length) in Hnil. rewrite length_imap, Hperm in Hnil.
    unfold rows0 in Hnil. rewrite length_imap in Hnil. by apply nil_length_inv.
  - done.
  - simpl. intros r (i & r0 & -> & Hr0)%elem_of_lookup_imap. simpl.
    apply list_elem_of_lookup_2 in Hr0. rewrite Hperm in Hr0.
    apply elem_of_lookup_imap in Hr0 as (j & f & -> & Hf).
    apply list_elem_of_lookup_2, elem_of_filas in Hf as (e & He & Hn & ->).
    by exists e.
  - simpl. intros i r1 r2 Hr1 Hr2.
    rewrite list_lookup_imap in Hr1, Hr2.
    destruct (merge_sort (row_before p1 p2) rows0 !! i) as [a|] eqn:Ha; [|done].
    destruct (merge_sort (row_before p1 p2) rows0 !! S i) as [b|] eqn:Hb; [|done].
    simpl in Hr1, Hr2. injection Hr1 as <-. injection Hr2 as <-.
    assert (Hab : row_before p1 p2 a b).
    { eapply Sorted_adjacent; [|exact Ha|exact Hb].
      apply (Sorted_merge_sort (row_before p1 p2)). }
    exact Hab.
Qed.
End tabla.

Lemma celda_fila_cells K rs r c p f :
  positions c K = [p] → cells r = fila_cells K f →
  celda (Frame K rs) r c = Some (default VNaN (dict_get c f))
  ∧ cell_at p r = default VNaN (dict_get c f).
Proof.
  intros Hp Hr. assert (HK : K !! p = Some c).
  { apply elem_of_positions. rewrite Hp. left. }
  unfold celda, cell_at. simpl. rewrite Hp, Hr. unfold fila_cells.
  by rewrite list_lookup_fmap, HK.
Qed.

(** ** Counts and presence cells *)

Lemma presence_sum_count canon (fuentes : dict DataFrame) tabla r e :
  (∀ kv, kv ∈ fuentes →
     celda tabla r kv.1
     = Some (VInt (if decide (e ∈ species_set canon kv.2) then 1 else 0))) →
  presence_sum tabla r (dict_keys fuentes) = sources_containing canon fuentes e.
Proof.
  unfold sources_containing. intros Hcells.
  induction fuentes as [|[k df] fuentes IH]; [done|].
  assert (Hk := Hcells (k, df) ltac:(left)). simpl in Hk.
  simpl. rewrite Hk. rewrite IH; last first.
  { intros kv Hkv. apply Hcells. by right. }
  rewrite filter_cons. simpl.
  destruct (decide (e ∈ species_set canon df)); simpl; lia.
Qed.

Lemma species_sets_de_get canon (fuentes : dict DataFrame) k df :
  NoDup (dict_keys fuentes) → (k, df) ∈ fuentes →
  dict_get k (species_sets_de canon fuentes) = Some (species_set canon df).
Proof.
  intros Hnd Hin. apply dict_get_elem_of.
  - by rewrite species_sets_de_keys.
  - unfold species_sets_de. apply list_elem_of_fmap. by exists (k, df).
Qed.

(** ** The merge of one extra column *)

Lemma fmap_id_on {A} (f : A → A) (l : list A) :
  (∀ x, x ∈ l → f x = x) → f <$> l = l.
Proof.
  induction l as [|x l IH]; intros Hf; [done|]. rewrite fmap_cons.
  rewrite (Hf x) by left. f_equal. apply IH. intros y Hy. apply Hf. by right.
Qed.

Lemma filter_fmap_comm {A B} (f : A → B) (P : B → Prop) `{∀ y, Decision (P y)}
    (l : list A) :
  filter P (f <$> l) = f <$> filter (λ x, P (f x)) l.
Proof.
  induction l as [|x l IH]; [done|]. rewrite fmap_cons, !filter_cons.
  destruct (decide (P (f x))); by rewrite IH.
Qed.

Lemma concat_singletons {A B} (g : A → B) (l : list A) :
  concat ((λ x, [g x]) <$> l) = g <$> l.
Proof. induction l as [|x l IH]; [done|]. rewrite !fmap_cons. simpl. by rewrite IH. Qed.

(** Where keys are all different, at most one element has a given key. *)
Lemma filter_key_NoDup {A K} `{EqDecision K} (f : A → K) (k : K) (l : list A) :
  NoDup (f <$> l) →
  filter (λ x, f x = k) l = [] ∨ ∃ x, filter (λ x, f x = k) l = [x].
Proof.
  induction l as [|y l IH]; intros Hnd; [by left|].
  rewrite fmap_cons in Hnd. apply NoDup_cons in Hnd as [Hy Hnd].
  rewrite filter_cons. destruct (decide (f y = k)) as [Hk|Hk].
  - right. exists y. f_equal.
    destruct (filter (λ x, f x = k) l) as [|z zs] eqn:E; [done|].
    exfalso. apply Hy. assert (Hz : z ∈ filter (λ x, f x = k) l) by (rewrite E; left).
    apply list_elem_of_filter in Hz as [Hfz Hz]. rewrite Hk, <-Hfz.
    by apply list_elem_of_fmap_2.
  - by apply IH.
Qed.

Lemma positions_pair_fresh c e :
  e ≠ c → positions c [c; e] = [0].
Proof.
  intros Hne. unfold positions. simpl.
  rewrite decide_True by done. by rewrite decide_False.
Qed.

Lemma agregar_extra_fresh canon fuentes T ne df pl pc pe :
  positions canon (columns T) = [pl] →
  nuevo_nombre_col ne ∉ columns T →
  ne.2 ≠ canon →
  dict_get ne.1 fuentes = Some df →
  normalized canon df →
  positions canon (columns df) = [pc] →
  positions ne.2 (columns df) = [pe] →
  agregar_extra canon fuentes T ne
  = Ok (Frame (columns T ++ [nuevo_nombre_col ne])
          (imap (λ i r, Row i (cells r
                               ++ [valor_extra canon fuentes (cell_at pl r) ne]))
                (rows T))).
Proof.
  intros Hpl Hfresh Hne Hget [_ Hnorm] Hpc Hpe.
  rewrite Hpc in Hnorm. destruct Hnorm as [Hnd _].
  assert (Hcanon : canon ∈ columns T).
  { apply list_elem_of_lookup. exists pl. apply elem_of_positions. rewrite Hpl. left. }
  assert (Hnuevo : nuevo_nombre_col ne ≠ canon).
  { intros Heq. by rewrite Heq in Hfresh. }
  assert (Hcpc : columns df !! pc = Some canon).
  { apply elem_of_positions. rewrite Hpc. left. }
  assert (Hcpe : columns df !! pe = Some ne.2).
  { apply elem_of_positions. rewrite Hpe. left. }
  unfold agregar_extra. rewrite Hget. unfold select_two. rewrite Hpc, Hpe.
  simpl. unfold take_columns. simpl. rewrite Hcpc, Hcpe. simpl.
  unfold drop_duplicates. cbn [columns rows].
  rewrite (positions_pair_fresh canon ne.2) by done.
  rewrite keep_first_all; last first.
  { intros r _. apply not_elem_of_nil. }
  { rewrite <-list_fmap_compose.
    replace (row_key [0] ∘ _) with ((λ v, [v]) ∘ cell_at pc) by done.
    rewrite list_fmap_compose. by apply (NoDup_fmap (λ v : value, [v])). }
  simpl. unfold rename_columns. cbn [columns rows]. simpl.
  rewrite decide_False by done. rewrite decide_True by done.
  unfold merge_left. cbn [columns rows]. rewrite Hpl.
  rewrite (positions_pair_fresh canon (nuevo_nombre_col ne)) by done.
  cbn [delete list_delete length replicate]. do 2 f_equal.
  - f_equal.
    + apply fmap_id_on. intros c Hc. unfold suffix_overlap.
      rewrite decide_False; [done|]. intros [_ ->%list_elem_of_singleton]. done.
    + simpl. unfold suffix_overlap. rewrite decide_False; [done|]. tauto.
  - assert (Hjoin : ∀ l : row,
      match filter (λ r, cell_at 0 r = cell_at pl l)
              ((λ r, Row (label r) [cell_at pc r; cell_at pe r]) <$> rows df) with
      | [] => [cells l ++ [VNaN]]
      | ms => (λ r, cells l ++ delete 0 (cells r)) <$> ms
      end = [cells l ++ [valor_extra canon fuentes (cell_at pl l) ne]]).
    { intros l. unfold valor_extra. rewrite Hget, Hpc, Hpe.
      rewrite filter_fmap_comm.
      replace (filter _ (rows df))
        with (filter (λ r, cell_at pc r = cell_at pl l) (rows df)) by done.
      destruct (filter_key_NoDup (cell_at pc) (cell_at pl l) (rows df) Hnd)
        as [->|[r ->]]; done. }
    rewrite (list_fmap_ext _ (λ l, [cells l ++ [valor_extra canon fuentes (cell_at pl l) ne]])
               (rows T)) by (intros; apply Hjoin).
    rewrite concat_singletons, imap_fmap. done.
Qed.

(** ** The merges of all the extra columns *)

Lemma positions_from_app i c l1 l2 :
  positions_from i c (l1 ++ l2)
  = positions_from i c l1 ++ positions_from (i + length l1) c l2.
Proof.
  revert i. induction l1 as [|x l1 IH]; intros i; simpl.
  - by rewrite Nat.add_0_r.
  - rewrite IH. replace (S i + length l1) with (i + S (length l1)) by lia.
    by case_decide.
Qed.

Lemma positions_app_fresh c l1 l2 :
  c ∉ l2 → positions c (l1 ++ l2) = positions c l1.
Proof.
  intros Hc. unfold positions. rewrite positions_from_app.
  rewrite (positions_from_not_in _ c l2) by done. apply (right_id_L [] (++)).
Qed.

Lemma imap_imap {A B C} (f : nat → B → C) (g : nat → A → B) (l : list A) :
  imap f (imap g l) = imap (λ i x, f i (g i x)) l.
Proof.
  apply list_eq. intros i. rewrite !list_lookup_imap.
  by destruct (l !! i).
Qed.

Lemma extras_validos_cons canon fuentes ne rest tabla :
  extras_validos canon fuentes (ne :: rest) tabla →
  ∃ df pc pe,
    dict_get ne.1 fuentes = Some df
    ∧ normalized canon df
    ∧ positions canon (columns df) = [pc]
    ∧ positions ne.2 (columns df) = [pe]
    ∧ ne.2 ≠ canon
    ∧ nuevo_nombre_col ne ∉ columns tabla.
Proof.
  intros (_ & _ & _ & _ & Hall). apply Forall_cons in Hall as [(Hfresh & Hne & Hdf) _].
  destruct (dict_get ne.1 fuentes) as [df|]; [|done]. destruct Hdf as [Hnorm Hlen].
  destruct (especies_normalized _ _ Hnorm) as (pc & Hpc & _).
  destruct (positions ne.2 (columns df)) as [|pe [|? ?]] eqn:Hpe; try done.
  by exists df, pc, pe.
Qed.

Lemma extras_validos_step canon fuentes ne rest tabla pl :
  extras_validos canon fuentes (ne :: rest) tabla →
  positions canon (columns tabla) = [pl] →
  extras_validos canon fuentes rest (tabla_enriquecida canon fuentes pl [ne] tabla)
  ∧ positions canon (columns (tabla_enriquecida canon fuentes pl [ne] tabla)) = [pl].
Proof.
  intros Hval Hpl.
  destruct (extras_validos_cons _ _ _ _ _ Hval) as (df & pc & pe & _ & _ & _ & _ & _ & Hfresh).
  destruct Hval as (Hrect & Hnd & Hcanon & Hnames & Hall).
  rewrite fmap_cons in Hnames. apply NoDup_cons in Hnames as [Hne_names Hnames].
  apply Forall_cons in Hall as [_ Hall].
  assert (Hnuevo : canon ∉ [nuevo_nombre_col ne]).
  { intros ->%list_elem_of_singleton. done. }
  split; [|by simpl; rewrite positions_app_fresh].
  split_and!.
  - unfold rectangular in *. simpl. apply Forall_forall.
    intros r (i & r0 & -> & Hr0)%elem_of_lookup_imap. simpl.
    rewrite Forall_forall in Hrect. rewrite !length_app. simpl.
    by rewrite (Hrect r0) by by eapply list_elem_of_lookup_2.
  - simpl. apply NoDup_app. split_and!; [done| |apply NoDup_singleton].
    intros x Hx ->%list_elem_of_singleton. done.
  - simpl. apply elem_of_app. by left.
  - done.
  - rewrite Forall_forall in Hall. apply Forall_forall. intros ne' Hne'.
    destruct (Hall ne' Hne') as (Hf' & Hn' & Hdf'). split_and!; try done.
    simpl. rewrite elem_of_app, list_elem_of_singleton. intros [?|Heq]; [done|].
    apply Hne_names. rewrite <-Heq. by apply list_elem_of_fmap_2.
Qed.

Lemma tabla_enriquecida_cons canon fuentes pl ne rest tabla :
  rectangular tabla → pl < length (columns tabla) →
  tabla_enriquecida canon fuentes pl rest
    (tabla_enriquecida canon fuentes pl [ne] tabla)
  = tabla_enriquecida canon fuentes pl (ne :: rest) tabla.
Proof.
  intros Hrect Hpl. unfold tabla_enriquecida. simpl. f_equal.
  - by rewrite <-(assoc_L (++)).
  - rewrite imap_imap. apply imap_ext. intros i r Hr. simpl. f_equal.
    rewrite <-(assoc_L (++)). simpl. do 2 f_equal.
    unfold rectangular in Hrect. rewrite Forall_forall in Hrect.
    specialize (Hrect r (list_elem_of_lookup_2 _ _ _ Hr)).
    unfold cell_at. simpl. rewrite lookup_app_l by lia. done.
Qed.

(** The final table, in closed form. *)
Lemma agregar_extras_closed canon fuentes extras tabla pl :
  extras ≠ [] →
  extras_validos canon fuentes extras tabla →
  positions canon (columns tabla) = [pl] →
  agregar_extras canon fuentes extras tabla
  = Ok (tabla_enriquecida canon fuentes pl extras tabla).
Proof.
  revert tabla. induction extras as [|ne rest IH]; intros tabla Hne Hval Hpl; [done|].
  destruct (extras_validos_cons _ _ _ _ _ Hval)
    as (df & pc & pe & Hget & Hnorm & Hpc & Hpe & Hne2 & Hfresh).
  simpl. rewrite (agregar_extra_fresh canon fuentes tabla ne df pl pc pe) by done.
  simpl.
  change (Frame _ _) with (tabla_enriquecida canon fuentes pl [ne] tabla).
  destruct (extras_validos_step _ _ _ _ _ _ Hval Hpl) as [Hval' Hpl'].
  destruct rest as [|ne' rest]; [done|].
  rewrite IH by done. f_equal. apply tabla_enriquecida_cons.
  - by destruct Hval.
  - by eapply positions_single_lt.
Qed.

(** ** The cleaning loop *)

Lemma limpiar_fuentes_app canon pre rest acc (h : heap) :
  limpiar_fuentes canon (pre ++ rest) acc h
  = match limpiar_fuentes canon pre acc h with
    | (h', Ok acc') => limpiar_fuentes canon rest acc' h'
    | (h', Err e) => (h', Err e)
    end.
Proof.
  revert acc h. induction pre as [|src pre IH]; intros acc h; [done|].
  simpl. unfold mbind, M_bind.
  destruct (limpiar_fuente canon src acc h) as [h' [acc'|e]]; [apply IH|done].
Qed.

(** The loop only ever adds warnings at the end of those it was given. *)
Lemma limpiar_fuente_avisos canon src fl em a (h : heap) :
  limpiar_fuente canon src (Limpieza fl em a) h
  = match limpiar_fuente canon src (Limpieza fl em []) h with
    | (h', Ok r) => (h', Ok (con_avisos a r))
    | (h', Err e) => (h', Err e)
    end.
Proof.
  unfold limpiar_fuente, con_avisos. cbn [fuentes_limpias extra_cols_map avisos].
  destruct (decide (strip (species_col src) = "")); [done|].
  unfold mbind, M_bind, deref, mret, M_ret.
  destruct (limpiar_dataframe _ _ _ h) as [h' [l|e]]; [|done].
  repeat case_decide; simpl; by rewrite ?(right_id_L [] (++)).
Qed.

Lemma con_avisos_assoc a b r : con_avisos a (con_avisos b r) = con_avisos (a ++ b) r.
Proof. unfold con_avisos. simpl. by rewrite (assoc_L (++)). Qed.

Lemma limpiar_fuentes_avisos canon srcs fl em a (h : heap) :
  limpiar_fuentes canon srcs (Limpieza fl em a) h
  = match limpiar_fuentes canon srcs (Limpieza fl em []) h with
    | (h', Ok r) => (h', Ok (con_avisos a r))
    | (h', Err e) => (h', Err e)
    end.
Proof.
  revert fl em a h. induction srcs as [|src srcs IH]; intros fl em a h.
  - simpl. unfold mret, M_ret, con_avisos. simpl. by rewrite (right_id_L [] (++)).
  - simpl. unfold mbind, M_bind. rewrite limpiar_fuente_avisos.
    destruct (limpiar_fuente canon src (Limpieza fl em []) h) as [h' [[fl' em' a']|e]];
      [|done].
    unfold con_avisos at 1. cbn [fuentes_limpias extra_cols_map avisos].
    rewrite (IH fl' em' (a ++ a')), (IH fl' em' a').
    destruct (limpiar_fuentes canon srcs (Limpieza fl' em' []) h') as [h'' [r|e]];
      [|done].
    by rewrite con_avisos_assoc.
Qed.

Lemma completar_con_avisos `{SetOrder} canon a r (h : heap) :
  completar canon (con_avisos a r) h
  = match completar canon r h with
    | (h', Ok out) =>
        (h', Ok (Resultado (species_sets out) (tabla_final out)
                           (a ++ advertencias out)))
    | (h', Err e) => (h', Err e)
    end.
Proof.
  unfold completar, con_avisos. cbn [fuentes_limpias extra_cols_map avisos].
  destruct (decide (fuentes_limpias r = [])); [done|].
  unfold mbind, M_bind, leer_fuentes, lift, mret, M_ret.
  destruct (construir_interseccion _ canon) as [[sets tabla]|e]; [|done].
  cbn [fst snd].
  by destruct (agregar_extras canon _ (extra_cols_map r) tabla) as [final|e].
Qed.

Lemma procesar_no_vacio `{SetOrder} canon srcs (h : heap) :
  srcs ≠ [] →
  procesar canon srcs h
  = match limpiar_fuentes canon srcs (Limpieza [] [] []) h with
    | (h', Ok l) => completar canon l h'
    | (h', Err e) => (h', Err e)
    end.
Proof. intros Hne. unfold procesar. by rewrite decide_False. Qed.

(** * The cleaning step: [limpiar_dataframe] *)

(** C7.  [limpiar_dataframe] raises the "column does not exist" error,
    naming the declared species column, exactly when the table has no
    column of that name.  When the column exists that error is not raised
    (whatever the name in it), and the input table, like every other frame
    already in the store, is left as it was. *)
Theorem limpiar_missing_column_iff
    (h : heap) (df : loc) (T : DataFrame) (c canon : string) :
  h !! df = Some T →
  ((limpiar_dataframe df c canon h).2 = Err (ValueError_columna c)
     ↔ c ∉ columns T)
  ∧ (c ∈ columns T →
       (∀ c', (limpiar_dataframe df c canon h).2 ≠ Err (ValueError_columna c'))
       ∧ (limpiar_dataframe df c canon h).1 !! df = Some T
       ∧ h `prefix_of` (limpiar_dataframe df c canon h).1).
Proof.
  intros Hdf. pose proof (list_lookup_total_correct _ _ _ Hdf) as Htot.
  destruct (limpiar_cases h df c canon)
    as [[Hnot ->]|[(Hin & p & _ & ->)|(Hin & p & q & ps & _ & ->)]];
    rewrite Htot in *; simpl.
  - split; [done|]. by intros ?.
  - split; [split; [done | by intros ?]|]. intros _. split_and!.
    + by intros c'.
    + by apply lookup_app_l_Some.
    + by apply prefix_app_r.
  - split; [split; [done | by intros ?]|]. intros _. split_and!.
    + by intros c'.
    + by apply lookup_app_l_Some.
    + by apply prefix_app_r.
Qed.

Lemma limpiar_missing_column_iff_witness :
  [tabla_sib] !! 0 = Some tabla_sib
  ∧ (((limpiar_dataframe 0 "especie" "scientificName" [tabla_sib]).2
        = Err (ValueError_columna "especie")
      ↔ "especie" ∉ columns tabla_sib)
     ∧ ("especie" ∈ columns tabla_sib →
        (∀ c', (limpiar_dataframe 0 "especie" "scientificName" [tabla_sib]).2
               ≠ Err (ValueError_columna c'))
        ∧ (limpiar_dataframe 0 "especie" "scientificName" [tabla_sib]).1 !! 0
          = Some tabla_sib
        ∧ [tabla_sib]
          `prefix_of` (limpiar_dataframe 0 "especie" "scientificName" [tabla_sib]).1)).
Proof.
  split; [reflexivity|].
  apply (limpiar_missing_column_iff [tabla_sib] 0 tabla_sib "especie" "scientificName").
  reflexivity.
Defined.

(** C5.  Cleaning is idempotent: when a run on a table returned a cleaned
    table, cleaning that result again, with the standard name as the
    species column and as the target, returns a table equal to it (same
    columns, same rows, same index labels). *)
Theorem limpiar_idempotent
    (h : heap) (df : loc) (T0 : DataFrame) (c canon : string)
    (h1 : heap) (l1 : loc) :
  h !! df = Some T0 →
  rectangular T0 →
  limpiar_dataframe df c canon h = (h1, Ok l1) →
  ∃ h2 l2, limpiar_dataframe l1 canon canon h1 = (h2, Ok l2)
           ∧ h2 !!! l2 = h1 !!! l1.
Proof.
  intros Hdf Hrect Hrun. pose proof (list_lookup_total_correct _ _ _ Hdf) as Htot.
  destruct (limpiar_cases h df c canon)
    as [[_ Hr]|[(Hin & p & Hp & Hr)|(_ & ? & ? & ? & _ & Hr)]];
    rewrite Hr in Hrun; try done.
  rewrite Htot in *. injection Hrun as <- <-.
  set (T := stage_dedup c canon p T0).
  set (h1 := h ++ [T0; stage_strip c canon p T0; stage_lower c canon p T0; T]).
  assert (HT : h1 !!! (length h + 3) = T) by apply lookup_total_fourth.
  pose proof (stage_dedup_normalized c canon p T0 Hrect Hp) as Hnorm.
  assert (HpT : positions canon (columns T) = [p]) by done.
  destruct (limpiar_cases h1 (length h + 3) canon canon)
    as [[Hnot _]|[(_ & q & Hq & Hr2)|(_ & ? & ? & ? & Hq & _)]];
    rewrite HT in *.
  - exfalso. apply Hnot. apply list_elem_of_lookup. exists p.
    by apply elem_of_positions; rewrite HpT; left.
  - rewrite rename_columns_same, HpT in Hq. injection Hq as <-.
    eexists _, _. split; [exact Hr2|].
    rewrite lookup_total_fourth. by apply stage_dedup_fixed.
  - rewrite rename_columns_same, HpT in Hq. done.
Qed.

Lemma limpiar_idempotent_witness :
  [tabla_sib] !! 0 = Some tabla_sib
  ∧ rectangular tabla_sib
  ∧ limpiar_dataframe 0 "especie" "scientificName" [tabla_sib]
    = ((limpiar_dataframe 0 "especie" "scientificName" [tabla_sib]).1, Ok 4)
  ∧ ∃ h2 l2,
      limpiar_dataframe 4 "scientificName" "scientificName"
        (limpiar_dataframe 0 "especie" "scientificName" [tabla_sib]).1
      = (h2, Ok l2)
      ∧ h2 !!! l2
        = (limpiar_dataframe 0 "especie" "scientificName" [tabla_sib]).1 !!! 4.
Proof.
  assert (H1 : [tabla_sib] !! 0 = Some tabla_sib) by reflexivity.
  assert (H2 : rectangular tabla_sib) by (apply (bool_decide_unpack _); vm_compute; exact I).
  assert (H3 : limpiar_dataframe 0 "especie" "scientificName" [tabla_sib]
               = ((limpiar_dataframe 0 "especie" "scientificName" [tabla_sib]).1, Ok 4))
    by (vm_compute; reflexivity).
  exact (conj H1 (conj H2 (conj H3
           (limpiar_idempotent [tabla_sib] 0 tabla_sib "especie" "scientificName"
              _ 4 H1 H2 H3)))).
Defined.

(** The cleaned example: the blank row is gone, the duplicate of the cat
    is gone, the missing species reads nan, the number reads 7. *)
Example limpiar_tabla_sib :
  (limpiar_dataframe 0 "especie" "scientificName" [tabla_sib]).1 !!! 4
  = Frame ["scientificName"; "estado"]
          [ Row 0 [VStr "felis catus"; VStr "LC"];
            Row 1 [VStr "nan"; VStr "VU"];
            Row 4 [VStr "7"; VNaN] ].
Proof. vm_compute. reflexivity. Qed.

(** C2.  The claim holds of every table in which, once the species column
    is renamed, a single column bears the standard label
    ([limpiar_normaliza]); it fails on a table that already has a column
    with the standard label next to the declared species column: the
    renaming then leaves two columns with that label, the selection is a
    frame, and the run stops on the [.str] access instead of returning a
    cleaned table. *)
Theorem limpiar_columna_estandar_existente :
  "species" ∈ columns tabla_gbif
  ∧ NoDup (columns tabla_gbif)
  ∧ rectangular tabla_gbif
  ∧ (limpiar_dataframe 0 "species" "scientificName" [tabla_gbif]).2
    = Err AttributeError.
Proof.
  split_and!.
  - apply (bool_decide_unpack _). vm_compute. exact I.
  - apply (bool_decide_unpack _). vm_compute. exact I.
  - apply (bool_decide_unpack _). vm_compute. exact I.
  - vm_compute. reflexivity.
Qed.

(** * The reconciliation step: [construir_interseccion] *)

(** Decidable facts about concrete tables are settled by evaluation. *)
Ltac by_compute := apply (bool_decide_unpack _); vm_compute; exact I.

(** C10.  For a non-empty mapping of normalized tables in which no species
    of the union is found in two sources or more, the result is the
    mapping of the species sets together with a table that has no row and
    no column at all (no species column, no count column, no source
    column); the empty mapping instead gives an empty table that has the
    species column. *)
Theorem construir_sin_coincidencias `{SetOrder}
    (fuentes : dict DataFrame) (canon : string) :
  fuentes ≠ [] →
  NoDup (dict_keys fuentes) →
  Forall (λ kv, normalized canon kv.2) fuentes →
  set_Forall (λ e, (sources_containing canon fuentes e < 2)%Z)
             (⋃ (snd <$> species_sets_de canon fuentes)) →
  construir_interseccion fuentes canon
  = Ok (species_sets_de canon fuentes, Frame [] [])
  ∧ construir_interseccion [] canon = Ok ([], Frame [canon] []).
Proof.
  intros Hne Hnd Hnorm Hfew. split; [|done].
  destruct (construir_table fuentes canon Hne Hnd Hnorm)
    as (tabla & p1 & p2 & Hrun & _ & _ & Hnil & _ & Hrows & _).
  rewrite Hrun. do 2 f_equal. apply Hnil.
  destruct (rows tabla) as [|r rs]; [done|]. exfalso.
  destruct (Hrows r) as (e & He & Hn & _); [left|].
  apply elem_of_all_species in He. specialize (Hfew e He). simpl in Hfew. lia.
Qed.

Lemma construir_sin_coincidencias_witness :
  fuentes_disjuntas ≠ []
  ∧ NoDup (dict_keys fuentes_disjuntas)
  ∧ Forall (λ kv, normalized "scientificName" kv.2) fuentes_disjuntas
  ∧ set_Forall (λ e, (sources_containing "scientificName" fuentes_disjuntas e < 2)%Z)
               (⋃ (snd <$> species_sets_de "scientificName" fuentes_disjuntas))
  ∧ (@construir_interseccion elements_order fuentes_disjuntas "scientificName"
     = Ok (species_sets_de "scientificName" fuentes_disjuntas, Frame [] [])
     ∧ @construir_interseccion elements_order [] "scientificName"
       = Ok ([], Frame ["scientificName"] [])).
Proof.
  assert (H1 : fuentes_disjuntas ≠ []) by done.
  assert (H2 : NoDup (dict_keys fuentes_disjuntas))
    by by_compute.
  assert (H3 : Forall (λ kv, normalized "scientificName" kv.2) fuentes_disjuntas)
    by by_compute.
  assert (H4 : set_Forall
                 (λ e, (sources_containing "scientificName" fuentes_disjuntas e < 2)%Z)
                 (⋃ (snd <$> species_sets_de "scientificName" fuentes_disjuntas)))
    by by_compute.
  exact (conj H1 (conj H2 (conj H3 (conj H4
           (@construir_sin_coincidencias elements_order
              fuentes_disjuntas "scientificName" H1 H2 H3 H4))))).
Defined.

(** C3.  In the table returned for a non-empty mapping of normalized
    tables, any two adjacent rows hold integer counts and are in order:
    the first has the strictly greater count, or the counts are equal and
    the species cell of the first is at most that of the second.  Where
    the species column is not also the label of the count or of a source,
    the two species cells are text and the comparison is the lexicographic
    one on code points. *)
Theorem construir_ordenada `{SetOrder}
    (fuentes : dict DataFrame) (canon : string) :
  fuentes ≠ [] →
  NoDup (dict_keys fuentes) →
  Forall (λ kv, normalized canon kv.2) fuentes →
  ∃ tabla,
    construir_interseccion fuentes canon
    = Ok (species_sets_de canon fuentes, tabla)
    ∧ ∀ i r1 r2, rows tabla !! i = Some r1 → rows tabla !! S i = Some r2 →
        ∃ n1 n2 s1 s2,
          celda tabla r1 "num_fuentes" = Some (VInt n1)
          ∧ celda tabla r2 "num_fuentes" = Some (VInt n2)
          ∧ celda tabla r1 canon = Some s1
          ∧ celda tabla r2 canon = Some s2
          ∧ ((n2 < n1)%Z ∨ (n1 = n2 ∧ value_leb s1 s2 = true))
          ∧ (canon ≠ "num_fuentes" → canon ∉ dict_keys fuentes →
             ∃ a b, s1 = VStr a ∧ s2 = VStr b
                    ∧ ((n2 < n1)%Z ∨ (n1 = n2 ∧ String.leb a b = true))).
Proof.
  intros Hne Hnd Hnorm.
  destruct (construir_table fuentes canon Hne Hnd Hnorm)
    as (tabla & p1 & p2 & Hrun & Hp1 & Hp2 & _ & Hcols & Hrows & Hsorted).
  exists tabla. split; [done|]. intros i r1 r2 Hr1 Hr2.
  assert (HndS : NoDup (dict_keys (species_sets_de canon fuentes)))
    by by rewrite species_sets_de_keys.
  assert (Hcol : columns tabla = columnas_tabla canon (dict_keys fuentes)).
  { apply Hcols. intros Hnil. by rewrite Hnil in Hr1. }
  destruct tabla as [K rs]. simpl in Hcol, Hr1, Hr2, Hrows, Hsorted. subst K.
  specialize (Hsorted i r1 r2 Hr1 Hr2).
  destruct (Hrows r1) as (e1 & He1 & _ & Hc1); [by eapply list_elem_of_lookup_2|].
  destruct (Hrows r2) as (e2 & He2 & _ & Hc2); [by eapply list_elem_of_lookup_2|].
  destruct (celda_fila_cells _ rs r1 _ _ _ Hp1 Hc1) as [Hn1 Hn1'].
  destruct (celda_fila_cells _ rs r2 _ _ _ Hp1 Hc2) as [Hn2 Hn2'].
  destruct (celda_fila_cells _ rs r1 _ _ _ Hp2 Hc1) as [Hs1 Hs1'].
  destruct (celda_fila_cells _ rs r2 _ _ _ Hp2 Hc2) as [Hs2 Hs2'].
  destruct (fila_num_fuentes_int canon e1 _ HndS) as [n1 Hz1].
  destruct (fila_num_fuentes_int canon e2 _ HndS) as [n2 Hz2].
  rewrite Hz1 in Hn1, Hn1'. rewrite Hz2 in Hn2, Hn2'. simpl in *.
  pose proof (fila_canon_cell canon e1 _ HndS) as Hcell1.
  pose proof (fila_canon_cell canon e2 _ HndS) as Hcell2.
  assert (Hget : ∃ s1 s2,
            dict_get canon (fila canon e1 (presencia e1 (species_sets_de canon fuentes)))
            = Some s1
            ∧ dict_get canon (fila canon e2 (presencia e2 (species_sets_de canon fuentes)))
              = Some s2
            ∧ (canon ≠ "num_fuentes" → canon ∉ dict_keys fuentes → s1 = e1 ∧ s2 = e2)).
  { rewrite species_sets_de_keys in Hcell1, Hcell2.
    destruct (decide (canon = "num_fuentes" ∨ canon ∈ dict_keys fuentes)) as [Hc|Hc].
    - destruct Hcell1 as [z1 ->], Hcell2 as [z2 ->]. eexists _, _.
      split_and!; try done. intros. tauto.
    - rewrite Hcell1, Hcell2. by eexists _, _. }
  destruct Hget as (s1 & s2 & Hg1 & Hg2 & Htext).
  rewrite Hg1 in Hs1, Hs1'. rewrite Hg2 in Hs2, Hs2'. simpl in *.
  assert (Horder : (n2 < n1)%Z ∨ (n1 = n2 ∧ value_leb s1 s2 = true)).
  { unfold row_before in Hsorted. rewrite Hn1', Hn2', Hs1', Hs2' in Hsorted.
    destruct (decide (VInt n1 = VInt n2)) as [Hd|Hd].
    - right. split; [congruence|done].
    - left. simpl in Hsorted. apply Z.leb_le in Hsorted.
      assert (n1 ≠ n2) by congruence. lia. }
  exists n1, n2, s1, s2. split_and!; try done.
  intros Hc1' Hc2'. destruct (Htext Hc1' Hc2') as [-> ->].
  destruct He1 as (kv1 & Hkv1 & He1), He2 as (kv2 & Hkv2 & He2).
  rewrite Forall_forall in Hnorm.
  pose proof (species_set_normalized canon _ _ (Hnorm _ Hkv1) He1) as Hcl1.
  pose proof (species_set_normalized canon _ _ (Hnorm _ Hkv2) He2) as Hcl2.
  destruct e1 as [a| |], e2 as [b| |]; try done. by exists a, b.
Qed.

Lemma construir_ordenada_witness :
  fuentes_varias ≠ []
  ∧ NoDup (dict_keys fuentes_varias)
  ∧ Forall (λ kv, normalized "scientificName" kv.2) fuentes_varias
  ∧ ∃ tabla,
      @construir_interseccion elements_order fuentes_varias "scientificName"
      = Ok (species_sets_de "scientificName" fuentes_varias, tabla)
      ∧ ∀ i r1 r2, rows tabla !! i = Some r1 → rows tabla !! S i = Some r2 →
          ∃ n1 n2 s1 s2,
            celda tabla r1 "num_fuentes" = Some (VInt n1)
            ∧ celda tabla r2 "num_fuentes" = Some (VInt n2)
            ∧ celda tabla r1 "scientificName" = Some s1
            ∧ celda tabla r2 "scientificName" = Some s2
            ∧ ((n2 < n1)%Z ∨ (n1 = n2 ∧ value_leb s1 s2 = true))
            ∧ ("scientificName" ≠ "num_fuentes" →
               "scientificName" ∉ dict_keys fuentes_varias →
               ∃ a b, s1 = VStr a ∧ s2 = VStr b
                      ∧ ((n2 < n1)%Z ∨ (n1 = n2 ∧ String.leb a b = true))).
Proof.
  assert (H1 : fuentes_varias ≠ []) by done.
  assert (H2 : NoDup (dict_keys fuentes_varias)) by by_compute.
  assert (H3 : Forall (λ kv, normalized "scientificName" kv.2) fuentes_varias)
    by by_compute.
  exact (conj H1 (conj H2 (conj H3
           (@construir_ordenada elements_order
              fuentes_varias "scientificName" H1 H2 H3)))).
Defined.

(** C1, as amended.  For a non-empty mapping of normalized tables whose
    source names are neither the species column label nor the label
    [num_fuentes] (the two labels being different), every row of the
    returned table holds a species and a count that is the sum of the
    row's 0/1 source cells, is the number of sources whose species set
    contains the species, and is at least 2; each source cell is 1 exactly
    when the species is in that source's set; a species found in fewer
    than 2 sources has no row. *)
Theorem construir_conteo `{SetOrder}
    (fuentes : dict DataFrame) (canon : string) :
  fuentes ≠ [] →
  NoDup (dict_keys fuentes) →
  Forall (λ kv, normalized canon kv.2) fuentes →
  canon ≠ "num_fuentes" →
  canon ∉ dict_keys fuentes →
  "num_fuentes" ∉ dict_keys fuentes →
  ∃ tabla,
    construir_interseccion fuentes canon
    = Ok (species_sets_de canon fuentes, tabla)
    ∧ conteo_correcto canon fuentes tabla
    ∧ ∀ r e, r ∈ rows tabla → celda tabla r canon = Some e →
        ∀ kv, kv ∈ fuentes →
          celda tabla r kv.1
          = Some (VInt (if decide (e ∈ species_set canon kv.2) then 1 else 0)).
Proof.
  intros Hne Hnd Hnorm Hcn Hc Hn.
  destruct (construir_table fuentes canon Hne Hnd Hnorm)
    as (tabla & p1 & p2 & Hrun & Hp1 & Hp2 & _ & Hcols & Hrows & _).
  exists tabla. split; [done|].
  assert (HndS : NoDup (dict_keys (species_sets_de canon fuentes)))
    by by rewrite species_sets_de_keys.
  pose proof (columnas_tabla_NoDup canon (dict_keys fuentes)) as HndK.
  (* the cells of a row, column by column *)
  assert (Hrow : ∀ r, r ∈ rows tabla →
    ∃ e, (2 ≤ sources_containing canon fuentes e)%Z
         ∧ celda tabla r canon = Some e
         ∧ celda tabla r "num_fuentes"
           = Some (VInt (sources_containing canon fuentes e))
         ∧ ∀ kv, kv ∈ fuentes →
             celda tabla r kv.1
             = Some (VInt (if decide (e ∈ species_set canon kv.2) then 1 else 0))).
  { intros r Hr. destruct (Hrows r Hr) as (e & _ & Hcount & Hcells).
    assert (Hcol : columns tabla = columnas_tabla canon (dict_keys fuentes)).
    { apply Hcols. intros Hnil. rewrite Hnil in Hr. by apply elem_of_nil in Hr. }
    destruct tabla as [K rs]. simpl in Hcol. subst K.
    exists e. split; [done|]. split_and!.
    - destruct (celda_fila_cells _ rs r _ _ _ Hp2 Hcells) as [-> _].
      pose proof (fila_canon_cell canon e _ HndS) as Hcell.
      rewrite species_sets_de_keys, decide_False in Hcell by tauto.
      by rewrite Hcell.
    - destruct (celda_fila_cells _ rs r _ _ _ Hp1 Hcells) as [-> _].
      rewrite fila_get by by rewrite presencia_keys.
      assert (Hnone : dict_get "num_fuentes"
                        (presencia e (species_sets_de canon fuentes)) = None).
      { apply dict_get_None. by rewrite presencia_keys, species_sets_de_keys. }
      rewrite Hnone, decide_True by done. simpl.
      by rewrite num_fuentes_sources_containing.
    - intros [k df] Hkv. simpl.
      destruct (positions_NoDup k _ HndK) as [p Hp].
      { unfold columnas_tabla. apply elem_of_app.
        destruct (decide (k ∈ (if decide (canon = "num_fuentes")
                               then [canon] else [canon; "num_fuentes"])))
          as [Hk|Hk]; [by left|right].
        assert (Hkin : k ∈ dict_keys fuentes).
        { apply list_elem_of_fmap. by exists (k, df). }
        apply list_elem_of_lookup in Hkin as [i Hi].
        apply (keep_first_first id _ _ i); [done|done|].
        rewrite list_fmap_id. intros Hin.
        apply list_elem_of_lookup in Hin as [j Hj].
        apply lookup_take_Some in Hj as [Hj Hlt].
        pose proof (NoDup_lookup _ _ _ _ Hnd Hi Hj). lia. }
      destruct (celda_fila_cells _ rs r _ _ _ Hp Hcells) as [-> _].
      rewrite fila_get by by rewrite presencia_keys.
      rewrite presencia_get, (species_sets_de_get canon fuentes k df) by done.
      simpl. f_equal. f_equal.
      destruct (decide (e ∈ species_set canon df)).
      + by rewrite bool_decide_eq_true_2.
      + by rewrite bool_decide_eq_false_2. }
  split.
  - split.
    + intros r Hr. destruct (Hrow r Hr) as (e & Hcount & Hce & Hcn' & Hsrc).
      exists e, (sources_containing canon fuentes e). split_and!; try done.
      symmetry. by apply presence_sum_count.
    + intros e Hfew r Hr Hce.
      destruct (Hrow r Hr) as (e' & Hcount & Hce' & _).
      rewrite Hce in Hce'. injection Hce' as <-. lia.
  - intros r e Hr Hce kv Hkv.
    destruct (Hrow r Hr) as (e' & _ & Hce' & _ & Hsrc).
    rewrite Hce in Hce'. injection Hce' as <-. by apply Hsrc.
Qed.

Lemma construir_conteo_witness :
  fuentes_ejemplo ≠ []
  ∧ NoDup (dict_keys fuentes_ejemplo)
  ∧ Forall (λ kv, normalized "scientificName" kv.2) fuentes_ejemplo
  ∧ "scientificName" ≠ "num_fuentes"
  ∧ ("scientificName" ∉ dict_keys fuentes_ejemplo)
  ∧ ("num_fuentes" ∉ dict_keys fuentes_ejemplo)
  ∧ ∃ tabla,
      @construir_interseccion elements_order fuentes_ejemplo "scientificName"
      = Ok (species_sets_de "scientificName" fuentes_ejemplo, tabla)
      ∧ conteo_correcto "scientificName" fuentes_ejemplo tabla
      ∧ ∀ r e, r ∈ rows tabla → celda tabla r "scientificName" = Some e →
          ∀ kv, kv ∈ fuentes_ejemplo →
            celda tabla r kv.1
            = Some (VInt (if decide (e ∈ species_set "scientificName" kv.2)
                          then 1 else 0)).
Proof.
  assert (H1 : fuentes_ejemplo ≠ []) by done.
  assert (H2 : NoDup (dict_keys fuentes_ejemplo)) by by_compute.
  assert (H3 : Forall (λ kv, normalized "scientificName" kv.2) fuentes_ejemplo)
    by by_compute.
  assert (H4 : "scientificName" ≠ "num_fuentes") by done.
  assert (H5 : "scientificName" ∉ dict_keys fuentes_ejemplo) by by_compute.
  assert (H6 : "num_fuentes" ∉ dict_keys fuentes_ejemplo) by by_compute.
  exact (conj H1 (conj H2 (conj H3 (conj H4 (conj H5 (conj H6
           (@construir_conteo elements_order
              fuentes_ejemplo "scientificName" H1 H2 H3 H4 H5 H6))))))).
Defined.

(** The example of the specification: one row, the cat, found in two
    sources. *)
Example construir_ejemplo :
  (@construir_interseccion elements_order fuentes_ejemplo "scientificName")
  = Ok (species_sets_de "scientificName" fuentes_ejemplo,
        Frame ["scientificName"; "num_fuentes"; "SIB"; "GBIF"; "IUCN"]
              [Row 0 [VStr "felis catus"; VInt 2; VInt 1; VInt 1; VInt 0]]).
Proof. vm_compute. reflexivity. Qed.

(** C1 as the specification states it, for every mapping, fails: when a
    source is named [num_fuentes], its 0/1 entry replaces the count in the
    row dictionary.  Here the cat is in both sources and its row holds 1
    under [num_fuentes]. *)
Lemma construir_conteo_counterexample :
  fuentes_num_fuentes ≠ []
  ∧ NoDup (dict_keys fuentes_num_fuentes)
  ∧ Forall (λ kv, normalized "scientificName" kv.2) fuentes_num_fuentes
  ∧ ¬ ∃ tabla,
        @construir_interseccion elements_order fuentes_num_fuentes "scientificName"
        = Ok (species_sets_de "scientificName" fuentes_num_fuentes, tabla)
        ∧ conteo_correcto "scientificName" fuentes_num_fuentes tabla.
Proof.
  split_and!; [done|by_compute|by_compute|].
  intros (tabla & Hrun & Hrows & _).
  assert (Ht : tabla = Frame ["scientificName"; "num_fuentes"; "GBIF"]
                             [Row 0 [VStr "felis catus"; VInt 1; VInt 1]]).
  { assert (Hc : match @construir_interseccion elements_order
                         fuentes_num_fuentes "scientificName" with
                 | Ok x => Some x.2
                 | Err _ => None
                 end
                 = Some (Frame ["scientificName"; "num_fuentes"; "GBIF"]
                               [Row 0 [VStr "felis catus"; VInt 1; VInt 1]]))
      by (vm_compute; reflexivity).
    rewrite Hrun in Hc. simpl in Hc. by injection Hc. }
  subst tabla.
  destruct (Hrows (Row 0 [VStr "felis catus"; VInt 1; VInt 1]))
    as (e & n & _ & Hn & _ & _ & Hge); [left|].
  vm_compute in Hn. injection Hn as <-. lia.
Qed.


(** The other collision the amended claim excludes: a source named like
    the species column puts its 0/1 entry in the place of the species. *)
Example construir_fuente_llamada_como_la_columna :
  match @construir_interseccion elements_order
          fuentes_nombre_columna "scientificName" with
  | Ok r => Some r.2
  | Err _ => None
  end
  = Some (Frame ["scientificName"; "num_fuentes"; "GBIF"]
                [Row 0 [VInt 1; VInt 2; VInt 1]]).
Proof. vm_compute. reflexivity. Qed.

(** * The enrichment step: the merges of [app.py] *)

(** The example tables are what the reconciliation returns. *)
Example interseccion_con_estado_ok :
  (@construir_interseccion elements_order fuentes_con_estado "scientificName")
  = Ok (species_sets_de "scientificName" fuentes_con_estado,
        interseccion_con_estado).
Proof. vm_compute. reflexivity. Qed.

Lemma mismo_contenido_enriquecida canon fuentes pl extras extras' tabla :
  rectangular tabla →
  NoDup (columns tabla ++ (nuevo_nombre_col <$> extras)) →
  extras ≡ₚ extras' →
  mismo_contenido (tabla_enriquecida canon fuentes pl extras tabla)
                  (tabla_enriquecida canon fuentes pl extras' tabla).
Proof.
  intros Hrect Hnd Hperm. unfold mismo_contenido, tabla_enriquecida.
  cbn [columns rows]. split_and!.
  - by rewrite Hperm.
  - rewrite !fmap_imap. by apply imap_ext.
  - rewrite !fmap_imap. apply imap_ext. intros i r Hr. cbn beta.
    unfold row_map, compose. cbn [columns cells].
    unfold rectangular in Hrect. rewrite Forall_forall in Hrect.
    specialize (Hrect r (list_elem_of_lookup_2 _ _ _ Hr)).
    rewrite !zip_with_app by done.
    rewrite !zip_with_fmap_l, !zip_with_fmap_r, !zip_with_diag.
    apply list_to_map_proper.
    + rewrite fmap_app. rewrite <-list_fmap_compose.
      replace (zip_with pair (columns tabla) (cells r)).*1 with (columns tabla).
      * done.
      * symmetry. apply fst_zip. lia.
    + by rewrite Hperm.
Qed.

Lemma extras_validos_perm canon fuentes extras extras' tabla :
  extras ≡ₚ extras' →
  extras_validos canon fuentes extras tabla →
  extras_validos canon fuentes extras' tabla.
Proof.
  intros Hperm (Hrect & Hnd & Hc & Hnames & Hall).
  split_and!; try done.
  - by rewrite <-Hperm.
  - by rewrite <-Hperm.
Qed.

Lemma extras_validos_NoDup canon fuentes extras tabla :
  extras_validos canon fuentes extras tabla →
  NoDup (columns tabla ++ (nuevo_nombre_col <$> extras)).
Proof.
  intros (_ & Hnd & _ & Hnames & Hall). apply NoDup_app. split_and!; [done| |done].
  intros x Hx (ne & -> & Hne)%list_elem_of_fmap.
  rewrite Forall_forall in Hall. by destruct (Hall ne Hne) as [? _].
Qed.

(** C6, as amended.  For an intersection table that has the species
    column and pairs (source, extra column) that can be merged onto it
    ([extras_validos]: the new labels are different from each other and
    from the labels of the table, no extra column is the species column),
    the merges succeed in any order, and two orders give final tables with
    the same index and, row by row, the same cell under every label; the
    tables differ only in the order of the new columns, which is the order
    of the merges. *)
Theorem agregar_extras_orden canon (fuentes : dict DataFrame)
    (extras extras' : dict string) (tabla : DataFrame) :
  extras_validos canon fuentes extras tabla →
  extras ≡ₚ extras' →
  ∃ t1 t2,
    agregar_extras canon fuentes extras tabla = Ok t1
    ∧ agregar_extras canon fuentes extras' tabla = Ok t2
    ∧ mismo_contenido t1 t2
    ∧ columns t1 = columns tabla ++ (nuevo_nombre_col <$> extras)
    ∧ columns t2 = columns tabla ++ (nuevo_nombre_col <$> extras').
Proof.
  intros Hval Hperm.
  pose proof (extras_validos_perm _ _ _ _ _ Hperm Hval) as Hval'.
  destruct extras as [|ne rest].
  { apply Permutation_nil_l in Hperm. subst extras'. exists tabla, tabla.
    rewrite fmap_nil, (right_id_L [] (++)). by split_and!. }
  destruct extras' as [|ne' rest'].
  { by apply Permutation_nil_r in Hperm. }
  pose proof Hval as (Hrect & Hnd & Hc & Hrest).
  destruct (positions_NoDup canon _ Hnd Hc) as [pl Hpl].
  eexists _, _. split_and!.
  - by apply (agregar_extras_closed _ _ _ _ pl).
  - by apply (agregar_extras_closed _ _ _ _ pl).
  - apply mismo_contenido_enriquecida; [done| |done].
    by apply (extras_validos_NoDup canon fuentes).
  - done.
  - done.
Qed.

Lemma agregar_extras_orden_witness :
  extras_validos "scientificName" fuentes_con_estado
    [("SIB", "estado"); ("GBIF", "estado")] interseccion_con_estado
  ∧ [("SIB", "estado"); ("GBIF", "estado")] ≡ₚ [("GBIF", "estado"); ("SIB", "estado")]
  ∧ ∃ t1 t2,
      agregar_extras "scientificName" fuentes_con_estado
        [("SIB", "estado"); ("GBIF", "estado")] interseccion_con_estado = Ok t1
      ∧ agregar_extras "scientificName" fuentes_con_estado
          [("GBIF", "estado"); ("SIB", "estado")] interseccion_con_estado = Ok t2
      ∧ mismo_contenido t1 t2
      ∧ columns t1 = columns interseccion_con_estado
                     ++ (nuevo_nombre_col <$> [("SIB", "estado"); ("GBIF", "estado")])
      ∧ columns t2 = columns interseccion_con_estado
                     ++ (nuevo_nombre_col <$> [("GBIF", "estado"); ("SIB", "estado")]).
Proof.
  assert (H1 : extras_validos "scientificName" fuentes_con_estado
                 [("SIB", "estado"); ("GBIF", "estado")] interseccion_con_estado)
    by by_compute.
  assert (H2 : [("SIB", "estado"); ("GBIF", "estado")]
               ≡ₚ [("GBIF", "estado"); ("SIB", "estado")]) by apply Permutation_swap.
  exact (conj H1 (conj H2
           (agregar_extras_orden "scientificName" fuentes_con_estado
              [("SIB", "estado"); ("GBIF", "estado")]
              [("GBIF", "estado"); ("SIB", "estado")]
              interseccion_con_estado H1 H2))).
Defined.

(** C6 as the specification states it fails: merging the extra column of
    SIB and then that of GBIF, or the other way round, gives two different
    final tables (the new columns are in the order of the merges). *)
Lemma agregar_extras_orden_counterexample :
  [("SIB", "estado"); ("GBIF", "estado")] ≡ₚ [("GBIF", "estado"); ("SIB", "estado")]
  ∧ agregar_extras "scientificName" fuentes_con_estado
      [("SIB", "estado"); ("GBIF", "estado")] interseccion_con_estado
    = Ok (Frame ["scientificName"; "num_fuentes"; "SIB"; "GBIF";
                 "SIB_estado"; "GBIF_estado"]
            [ Row 0 [VStr "felis catus"; VInt 2; VInt 1; VInt 1;
                     VStr "LC"; VStr "EN"];
              Row 1 [VStr "puma concolor"; VInt 2; VInt 1; VInt 1;
                     VStr "NT"; VStr "VU"] ])
  ∧ agregar_extras "scientificName" fuentes_con_estado
      [("GBIF", "estado"); ("SIB", "estado")] interseccion_con_estado
    = Ok (Frame ["scientificName"; "num_fuentes"; "SIB"; "GBIF";
                 "GBIF_estado"; "SIB_estado"]
            [ Row 0 [VStr "felis catus"; VInt 2; VInt 1; VInt 1;
                     VStr "EN"; VStr "LC"];
              Row 1 [VStr "puma concolor"; VInt 2; VInt 1; VInt 1;
                     VStr "VU"; VStr "NT"] ])
  ∧ agregar_extras "scientificName" fuentes_con_estado
      [("SIB", "estado"); ("GBIF", "estado")] interseccion_con_estado
    ≠ agregar_extras "scientificName" fuentes_con_estado
        [("GBIF", "estado"); ("SIB", "estado")] interseccion_con_estado.
Proof.
  split_and!.
  - apply Permutation_swap.
  - vm_compute. reflexivity.
  - vm_compute. reflexivity.
  - vm_compute. discriminate.
Qed.

(** C8.  A source that declares an extra column which its cleaned table
    does not have is skipped with a warning, not an error: its turn of the
    cleaning loop succeeds, records the cleaned table, adds the warning
    and adds no entry to [extra_cols_map]; and the whole run does exactly
    what it does when that source declares no extra column at all (same
    store, same error if there is one, otherwise the same species sets
    and the same final table, so no column is added for that source and
    the columns of the other sources are as they would be), apart from
    that one warning. *)
Theorem extra_ausente_se_omite `{SetOrder} (canon : string)
    (pre post : list fuente) (src : fuente)
    (h h1 h2 : heap) (acc1 : limpieza) (l : loc) :
  limpiar_fuentes canon pre (Limpieza [] [] []) h = (h1, Ok acc1) →
  strip (species_col src) ≠ "" →
  limpiar_dataframe (df_raw src) (strip (species_col src)) canon h1 = (h2, Ok l) →
  extra_col src ≠ "" →
  extra_col src ∉ columns (h2 !!! l) →
  limpiar_fuente canon src acc1 h1
  = (h2, Ok (Limpieza (dict_set (name src) l (fuentes_limpias acc1))
                      (extra_cols_map acc1)
                      (avisos acc1 ++ [(name src, extra_col src)])))
  ∧ match procesar canon (pre ++ sin_extra src :: post) h with
    | (h', Ok out') =>
        ∃ w1 w2,
          advertencias out' = w1 ++ w2
          ∧ procesar canon (pre ++ src :: post) h
            = (h', Ok (Resultado (species_sets out') (tabla_final out')
                                 (w1 ++ (name src, extra_col src) :: w2)))
    | (h', Err e) => procesar canon (pre ++ src :: post) h = (h', Err e)
    end.
Proof.
  intros Hpre Hcol Hclean Hextra Hmissing.
  assert (Hstep : limpiar_fuente canon src acc1 h1
    = (h2, Ok (Limpieza (dict_set (name src) l (fuentes_limpias acc1))
                        (extra_cols_map acc1)
                        (avisos acc1 ++ [(name src, extra_col src)])))).
  { unfold limpiar_fuente. rewrite decide_False by done.
    unfold mbind, M_bind. rewrite Hclean. unfold deref, mret, M_ret.
    rewrite decide_False by done. by rewrite decide_False. }
  assert (Hstep' : limpiar_fuente canon (sin_extra src) acc1 h1
    = (h2, Ok (Limpieza (dict_set (name src) l (fuentes_limpias acc1))
                        (extra_cols_map acc1) (avisos acc1)))).
  { unfold limpiar_fuente. cbn [sin_extra name df_raw species_col extra_col].
    rewrite decide_False by done.
    unfold mbind, M_bind. rewrite Hclean. unfold deref, mret, M_ret.
    by rewrite decide_True. }
  split; [exact Hstep|].
  set (fl := dict_set (name src) l (fuentes_limpias acc1)) in *.
  set (em := extra_cols_map acc1) in *.
  set (w := (name src, extra_col src)) in *.
  assert (Hloop : limpiar_fuentes canon (pre ++ src :: post) (Limpieza [] [] []) h
    = match limpiar_fuentes canon post (Limpieza fl em []) h2 with
      | (h', Ok r) => (h', Ok (con_avisos (avisos acc1 ++ [w]) r))
      | (h', Err e) => (h', Err e)
      end).
  { rewrite limpiar_fuentes_app, Hpre. simpl. unfold mbind, M_bind.
    rewrite Hstep. apply limpiar_fuentes_avisos. }
  assert (Hloop' : limpiar_fuentes canon (pre ++ sin_extra src :: post)
                     (Limpieza [] [] []) h
    = match limpiar_fuentes canon post (Limpieza fl em []) h2 with
      | (h', Ok r) => (h', Ok (con_avisos (avisos acc1) r))
      | (h', Err e) => (h', Err e)
      end).
  { rewrite limpiar_fuentes_app, Hpre. simpl. unfold mbind, M_bind.
    rewrite Hstep'. apply limpiar_fuentes_avisos. }
  rewrite !procesar_no_vacio by (by destruct pre).
  rewrite Hloop, Hloop'.
  destruct (limpiar_fuentes canon post (Limpieza fl em []) h2) as [h' [r|e]]; [|done].
  rewrite !completar_con_avisos.
  destruct (completar canon r h') as [h'' [out|e]]; [|done].
  cbn [species_sets tabla_final advertencias].
  exists (avisos acc1), (advertencias out). split; [done|].
  by rewrite <-(assoc_L (++)).
Qed.

Lemma extra_ausente_se_omite_witness :
  limpiar_fuentes "scientificName" [fuente_sib] (Limpieza [] [] []) almacen
  = ((limpiar_fuentes "scientificName" [fuente_sib] (Limpieza [] [] []) almacen).1,
     Ok (Limpieza [("SIB", 5)] [("SIB", "estado")] []))
  ∧ strip (species_col fuente_gbif_sin_columna) ≠ ""
  ∧ limpiar_dataframe (df_raw fuente_gbif_sin_columna)
      (strip (species_col fuente_gbif_sin_columna)) "scientificName"
      (limpiar_fuentes "scientificName" [fuente_sib] (Limpieza [] [] []) almacen).1
    = ((limpiar_dataframe 1 "scientificName" "scientificName"
          (limpiar_fuentes "scientificName" [fuente_sib]
             (Limpieza [] [] []) almacen).1).1,
       Ok 9)
  ∧ extra_col fuente_gbif_sin_columna ≠ ""
  ∧ (extra_col fuente_gbif_sin_columna
     ∉ columns ((limpiar_dataframe 1 "scientificName" "scientificName"
                   (limpiar_fuentes "scientificName" [fuente_sib]
                      (Limpieza [] [] []) almacen).1).1 !!! 9))
  ∧ (limpiar_fuente "scientificName" fuente_gbif_sin_columna
       (Limpieza [("SIB", 5)] [("SIB", "estado")] [])
       (limpiar_fuentes "scientificName" [fuente_sib] (Limpieza [] [] []) almacen).1
     = ((limpiar_dataframe 1 "scientificName" "scientificName"
           (limpiar_fuentes "scientificName" [fuente_sib]
              (Limpieza [] [] []) almacen).1).1,
        Ok (Limpieza (dict_set "GBIF" 9 [("SIB", 5)]) [("SIB", "estado")]
                     ([] ++ [("GBIF", "iucn_status")])))
     ∧ match @procesar elements_order "scientificName"
               ([fuente_sib] ++ sin_extra fuente_gbif_sin_columna :: []) almacen with
       | (h', Ok out') =>
           ∃ w1 w2,
             advertencias out' = w1 ++ w2
             ∧ @procesar elements_order "scientificName"
                 ([fuente_sib] ++ fuente_gbif_sin_columna :: []) almacen
               = (h', Ok (Resultado (species_sets out') (tabla_final out')
                                    (w1 ++ ("GBIF", "iucn_status") :: w2)))
       | (h', Err e) =>
           @procesar elements_order "scientificName"
             ([fuente_sib] ++ fuente_gbif_sin_columna :: []) almacen
           = (h', Err e)
       end).
Proof.
  assert (H1 : limpiar_fuentes "scientificName" [fuente_sib] (Limpieza [] [] []) almacen
    = ((limpiar_fuentes "scientificName" [fuente_sib] (Limpieza [] [] []) almacen).1,
       Ok (Limpieza [("SIB", 5)] [("SIB", "estado")] [])))
    by (vm_compute; reflexivity).
  assert (H2 : strip (species_col fuente_gbif_sin_columna) ≠ "") by (vm_compute; discriminate).
  assert (H3 : limpiar_dataframe (df_raw fuente_gbif_sin_columna)
      (strip (species_col fuente_gbif_sin_columna)) "scientificName"
      (limpiar_fuentes "scientificName" [fuente_sib] (Limpieza [] [] []) almacen).1
    = ((limpiar_dataframe 1 "scientificName" "scientificName"
          (limpiar_fuentes "scientificName" [fuente_sib]
             (Limpieza [] [] []) almacen).1).1,
       Ok 9)) by (vm_compute; reflexivity).
  assert (H4 : extra_col fuente_gbif_sin_columna ≠ "") by (vm_compute; discriminate).
  assert (H5 : extra_col fuente_gbif_sin_columna
    ∉ columns ((limpiar_dataframe 1 "scientificName" "scientificName"
                  (limpiar_fuentes "scientificName" [fuente_sib]
                     (Limpieza [] [] []) almacen).1).1 !!! 9)) by by_compute.
  exact (conj H1 (conj H2 (conj H3 (conj H4 (conj H5
           (@extra_ausente_se_omite elements_order "scientificName"
              [fuente_sib] [] fuente_gbif_sin_columna almacen _ _ _ 9
              H1 H2 H3 H4 H5)))))).
Defined.

(** The example of the specification: the run goes on, the warning is
    recorded, and the final table has the extra column of SIB and none for
    GBIF. *)
Example extra_ausente_ejemplo :
  match @procesar elements_order "scientificName"
          [fuente_sib; fuente_gbif_sin_columna] almacen with
  | (_, Ok out) => Some (columns (tabla_final out), advertencias out)
  | (_, Err _) => None
  end
  = Some (["scientificName"; "num_fuentes"; "SIB"; "GBIF"; "SIB_estado"],
          [("GBIF", "iucn_status")]).
Proof. vm_compute. reflexivity. Qed.

(** What the enrichment does to a table that has the species column: the
    rows are those of the intersection table, one for one and in order,
    each with its old cells followed by one cell per new column; the new
    columns bear the names [source_extra]; the cell of a species that the
    source does not have is NaN. *)
Lemma agregar_extras_conserva_filas canon (fuentes : dict DataFrame)
    (extras : dict string) (tabla : DataFrame) :
  extras_validos canon fuentes extras tabla →
  ∃ final pl,
    agregar_extras canon fuentes extras tabla = Ok final
    ∧ positions canon (columns tabla) = [pl]
    ∧ columns final = columns tabla ++ (nuevo_nombre_col <$> extras)
    ∧ length (rows final) = length (rows tabla)
    ∧ ∀ i r, rows tabla !! i = Some r →
        ∃ r', rows final !! i = Some r'
              ∧ cells r'
                = cells r ++ (valor_extra canon fuentes (cell_at pl r) <$> extras).
Proof.
  intros Hval. pose proof Hval as (Hrect & Hnd & Hc & _).
  destruct (positions_NoDup canon _ Hnd Hc) as [pl Hpl].
  destruct extras as [|ne rest].
  - exists tabla, pl. simpl. rewrite (right_id_L [] (++)). split_and!; try done.
    intros i r Hr. exists r. by rewrite (right_id_L [] (++)).
  - exists (tabla_enriquecida canon fuentes pl (ne :: rest) tabla), pl.
    split_and!; try done.
    + by apply agregar_extras_closed.
    + simpl. by rewrite length_imap.
    + intros i r Hr. eexists. split.
      * simpl. rewrite list_lookup_imap, Hr. done.
      * done.
Qed.

Lemma valor_extra_ausente canon (fuentes : dict DataFrame) key ne df pc :
  dict_get ne.1 fuentes = Some df →
  positions canon (columns df) = [pc] →
  key ∉ (cell_at pc <$> rows df) →
  valor_extra canon fuentes key ne = VNaN.
Proof.
  intros Hget Hpc Hkey. unfold valor_extra. rewrite Hget, Hpc.
  destruct (positions ne.2 (columns df)) as [|pe [|? ?]]; try done.
  destruct (filter (λ r, cell_at pc r = key) (rows df)) as [|r rs] eqn:E; [done|].
  exfalso. apply Hkey. assert (Hr : r ∈ filter (λ r, cell_at pc r = key) (rows df))
    by (rewrite E; left).
  apply list_elem_of_filter in Hr as [<- Hr]. by apply list_elem_of_fmap_2.
Qed.

(** The merge onto a table without the species column raises. *)
Lemma merge_left_sin_clave on right :
  merge_left on empty_frame right = Err (KeyError on).
Proof. done. Qed.

(** C4.  The claim holds of every intersection table that has the species
    column ([agregar_extras_conserva_filas]); it fails on the table the
    reconciliation returns when no species is shared, which has no column
    at all: the first merge raises [KeyError] and the run ends without a
    final table, where the claim asks for a final table with the same
    (zero) rows.  Here SIB and IUCN share no species and SIB declares an
    extra column that it has. *)
Theorem procesar_sin_coincidencias_falla :
  (limpiar_fuentes "scientificName" fuentes_info_disjuntas
     (Limpieza [] [] []) almacen_disjunto).2
  = Ok (Limpieza [("SIB", 5); ("IUCN", 9)] [("SIB", "estado")] [])
  ∧ match (leer_fuentes [("SIB", 5); ("IUCN", 9)]
             (limpiar_fuentes "scientificName" fuentes_info_disjuntas
                (Limpieza [] [] []) almacen_disjunto).1).2 with
    | Ok fuentes =>
        match @construir_interseccion elements_order fuentes "scientificName" with
        | Ok r =>
            r.2 = Frame [] []
            ∧ agregar_extras "scientificName" fuentes [("SIB", "estado")] r.2
              = Err (KeyError "scientificName")
        | Err _ => False
        end
    | Err _ => False
    end
  ∧ (@procesar elements_order "scientificName"
       fuentes_info_disjuntas almacen_disjunto).2
    = Err (KeyError "scientificName").
Proof.
  split_and!.
  - vm_compute. reflexivity.
  - vm_compute. split; reflexivity.
  - vm_compute. reflexivity.
Qed.


(** What the conditions of the amended C6 exclude.  Two pairs with the
    same new label: the second merge renames both columns. *)
Example agregar_extras_mismo_nombre :
  agregar_extras "scientificName" fuentes_mismo_nombre
    [("A", "b_c"); ("A_b", "c")] interseccion_mismo_nombre
  = Ok (Frame ["scientificName"; "num_fuentes"; "A"; "A_b"; "A_b_c_x"; "A_b_c_y"]
              [Row 0 [VStr "felis catus"; VInt 2; VInt 1; VInt 1;
                      VStr "u"; VStr "v"]]).
Proof. vm_compute. reflexivity. Qed.

(** The species column declared as the extra column: the renaming takes
    the key away from the right-hand table and the merge raises. *)
Example agregar_extra_columna_estandar :
  agregar_extras "scientificName" fuentes_con_estado
    [("SIB", "scientificName")] interseccion_con_estado
  = Err (KeyError "scientificName").
Proof. vm_compute. reflexivity. Qed.

(** * Missing species values *)

(** Where the renaming leaves the standard label on one column, a missing
    value in the species column is turned into the text nan before the
    blank rows are dropped, so its row is not dropped as blank.  The run
    succeeds; exactly one row of the cleaned table has the species nan; it
    is the row of the missing value itself (same label, same other cells)
    when no earlier row has a species that cleans to nan, the later ones
    being its duplicates; and nan is in the species set that the
    reconciliation computes for the table, like any other species text. *)
Theorem limpiar_nan (h : heap) (df : loc) (T : DataFrame)
    (c canon : string) (p i : nat) (r : row) :
  h !! df = Some T →
  rectangular T →
  c ∈ columns T →
  positions canon (columns (rename_columns c canon T)) = [p] →
  rows T !! i = Some r →
  cell_at p r = VNaN →
  clean_value VNaN = VStr "nan"
  ∧ strip (py_str VNaN) ≠ ""
  ∧ ∃ h' l',
      limpiar_dataframe df c canon h = (h', Ok l')
      ∧ length (filter (λ r', cell_at p r' = VStr "nan") (rows (h' !!! l'))) = 1
      ∧ ((∀ j r0, j < i → rows T !! j = Some r0 →
            clean_value (cell_at p r0) ≠ VStr "nan") →
         update_cell p (λ _, VStr "nan") r ∈ rows (h' !!! l'))
      ∧ VStr "nan" ∈ species_set canon (h' !!! l').
Proof.
  intros Hdf Hrect Hin Hp Hr Hcell.
  split; [done|]. split; [done|].
  destruct (limpiar_normaliza h df T c canon p Hdf Hrect Hin Hp)
    as (h' & Hrun & _ & Hnorm & Hcols & Hrows).
  exists h', (length h + 3). split; [done|].
  set (T' := h' !!! (length h + 3)) in *.
  assert (Hlt : p < length (columns T)).
  { rewrite <-(rename_columns_length c canon). by eapply positions_single_lt. }
  assert (Hlen : p < length (cells r)).
  { unfold rectangular in Hrect. rewrite Forall_forall in Hrect.
    rewrite (Hrect r); [done|]. by eapply list_elem_of_lookup_2. }
  set (rc := update_cell p (λ _, VStr "nan") r).
  assert (Hrc : rc = update_cell p clean_value r).
  { unfold rc, update_cell. by rewrite Hcell. }
  assert (Hrckey : cell_at p rc = VStr "nan").
  { unfold rc. by rewrite cell_at_update_cell. }
  (* the rows before the dropping of duplicates *)
  set (keep := λ r0 : row, strip (py_str (cell_at p r0)) ≠ "").
  assert (Hsplit : update_cell p clean_value <$> filter keep (rows T)
    = (update_cell p clean_value <$> filter keep (take i (rows T)))
      ++ rc :: (update_cell p clean_value <$> filter keep (drop (S i) (rows T)))).
  { rewrite <-(take_drop_middle (rows T) i r Hr) at 1.
    rewrite filter_app, filter_cons, decide_True by (unfold keep; by rewrite Hcell).
    by rewrite fmap_app, fmap_cons, Hrc. }
  assert (Hsome : ∃ y, y ∈ rows T' ∧ cell_at p y = VStr "nan").
  { destruct (keep_first_complete (row_key [p]) []
                (update_cell p clean_value <$> filter keep (rows T)) rc)
      as (y & Hy & Hkey).
    - rewrite Hsplit. apply elem_of_app. right. left.
    - apply not_elem_of_nil.
    - exists y. rewrite Hrows. split; [done|].
      apply row_key_single_inj in Hkey. by rewrite Hkey. }
  destruct (especies_normalized canon T' Hnorm) as (p' & Hp' & Hesp & _).
  assert (p' = p) as ->.
  { rewrite Hcols, Hp in Hp'. by injection Hp'. }
  split_and!.
  - destruct Hnorm as [_ Hnorm]. rewrite Hp' in Hnorm. destruct Hnorm as [Hnd _].
    destruct (filter_key_NoDup (cell_at p) (VStr "nan") (rows T') Hnd)
      as [Hnone|[x Hx]].
    + destruct Hsome as (y & Hy & Hkey). exfalso.
      assert (Hyf : y ∈ filter (λ r', cell_at p r' = VStr "nan") (rows T')).
      { by apply list_elem_of_filter. }
      rewrite Hnone in Hyf. by apply elem_of_nil in Hyf.
    + by rewrite Hx.
  - intros Hfirst. rewrite Hrows. unfold cleaned_rows. fold keep. rewrite Hsplit.
    apply keep_first_middle; [apply not_elem_of_nil|].
    intros (y & Hkey & Hy)%list_elem_of_fmap.
    apply list_elem_of_fmap in Hy as (r0 & -> & Hr0).
    apply list_elem_of_filter in Hr0 as [_ Hr0].
    apply list_elem_of_lookup in Hr0 as [j Hj].
    apply lookup_take_Some in Hj as [Hj Hji].
    apply row_key_single_inj in Hkey. rewrite Hrckey in Hkey.
    assert (Hlen0 : p < length (cells r0)).
    { unfold rectangular in Hrect. rewrite Forall_forall in Hrect.
      rewrite (Hrect r0); [done|]. by eapply list_elem_of_lookup_2. }
    rewrite cell_at_update_cell in Hkey by done.
    by apply (Hfirst j r0 Hji Hj).
  - unfold species_set. rewrite Hesp. apply elem_of_list_to_set.
    destruct Hsome as (y & Hy & Hkey). apply list_elem_of_fmap. by exists y.
Qed.

Lemma limpiar_nan_witness :
  [tabla_sib] !! 0 = Some tabla_sib
  ∧ rectangular tabla_sib
  ∧ "especie" ∈ columns tabla_sib
  ∧ positions "scientificName"
      (columns (rename_columns "especie" "scientificName" tabla_sib)) = [0]
  ∧ rows tabla_sib !! 1 = Some (Row 1 [VNaN; VStr "VU"])
  ∧ cell_at 0 (Row 1 [VNaN; VStr "VU"]) = VNaN
  ∧ (clean_value VNaN = VStr "nan"
     ∧ strip (py_str VNaN) ≠ ""
     ∧ ∃ h' l',
         limpiar_dataframe 0 "especie" "scientificName" [tabla_sib] = (h', Ok l')
         ∧ length (filter (λ r', cell_at 0 r' = VStr "nan") (rows (h' !!! l'))) = 1
         ∧ ((∀ j r0, j < 1 → rows tabla_sib !! j = Some r0 →
               clean_value (cell_at 0 r0) ≠ VStr "nan") →
            update_cell 0 (λ _, VStr "nan") (Row 1 [VNaN; VStr "VU"])
            ∈ rows (h' !!! l'))
         ∧ VStr "nan" ∈ species_set "scientificName" (h' !!! l')).
Proof.
  assert (H1 : [tabla_sib] !! 0 = Some tabla_sib) by reflexivity.
  assert (H2 : rectangular tabla_sib) by by_compute.
  assert (H3 : "especie" ∈ columns tabla_sib) by by_compute.
  assert (H4 : positions "scientificName"
                 (columns (rename_columns "especie" "scientificName" tabla_sib)) = [0])
    by reflexivity.
  assert (H5 : rows tabla_sib !! 1 = Some (Row 1 [VNaN; VStr "VU"])) by reflexivity.
  assert (H6 : cell_at 0 (Row 1 [VNaN; VStr "VU"]) = VNaN) by reflexivity.
  exact (conj H1 (conj H2 (conj H3 (conj H4 (conj H5 (conj H6
           (limpiar_nan [tabla_sib] 0 tabla_sib "especie" "scientificName" 0 1
              (Row 1 [VNaN; VStr "VU"]) H1 H2 H3 H4 H5 H6))))))).
Defined.

(** Two uploads with missing species: after the cleaning, nan is a row of
    the intersection table, found in both sources. *)
Example nan_coincide :
  match @procesar elements_order "scientificName"
          [ Fuente "SIB" 0 "scientificName" "";
            Fuente "GBIF" 1 "scientificName" "" ]
          [tabla_con_nan_1; tabla_con_nan_2] with
  | (_, Ok out) => Some (tabla_final out)
  | (_, Err _) => None
  end
  = Some (Frame ["scientificName"; "num_fuentes"; "SIB"; "GBIF"]
                [Row 0 [VStr "nan"; VInt 2; VInt 1; VInt 1]]).
Proof. vm_compute. reflexivity. Qed.

(** C9.  The claim holds of every table in which, once the species column
    is renamed, a single column bears the standard label ([limpiar_nan]);
    it fails on a table that already has a column with the standard
    label next to the declared species column.  Here the species of the
    second row is missing: the renaming leaves two columns with the
    standard label, the selection is a frame, and the run stops on the
    [.str] access: no table is returned, so the row of the missing value
    is not retained and nan is not a species of any cleaned table. *)
Theorem limpiar_nan_columna_estandar_existente :
  "species" ∈ columns tabla_gbif_nan
  ∧ NoDup (columns tabla_gbif_nan)
  ∧ rectangular tabla_gbif_nan
  ∧ (∃ p r, positions "species" (columns tabla_gbif_nan) = [p]
            ∧ r ∈ rows tabla_gbif_nan ∧ cell_at p r = VNaN)
  ∧ limpiar_dataframe 0 "species" "scientificName" [tabla_gbif_nan]
    = ([tabla_gbif_nan; tabla_gbif_nan;
        rename_columns "species" "scientificName" tabla_gbif_nan],
       Err AttributeError).
Proof.
  split_and!.
  - apply (bool_decide_unpack _). vm_compute. exact I.
  - apply (bool_decide_unpack _). vm_compute. exact I.
  - apply (bool_decide_unpack _). vm_compute. exact I.
  - exists 1, (Row 1 [VStr "Canis lupus Linnaeus, 1758"; VNaN]).
    split_and!; [done| |done]. right. left.
  - vm_compute. reflexivity.
Qed.

(** * Further properties of the cleaning step *)

Lemma cleaned_rows_labels p rs :
  label <$> cleaned_rows p rs `sublist_of` label <$> rs.
Proof.
  unfold cleaned_rows. etrans.
  - apply fmap_sublist, keep_first_sublist.
  - rewrite <-list_fmap_compose.
    replace (label ∘ update_cell p clean_value) with label by done.
    apply fmap_sublist, sublist_filter.
Qed.

(** X1.  A successful cleaning only touches the species column: the
    columns are those of the input with the species column renamed, and
    the rows are rows of the input, in their order and with their index
    labels, each with all its other cells as they were. *)
Theorem limpiar_solo_cambia_especie (h : heap) (df : loc) (T : DataFrame)
    (c canon : string) (p : nat) :
  h !! df = Some T →
  rectangular T →
  c ∈ columns T →
  positions canon (columns (rename_columns c canon T)) = [p] →
  ∃ h', limpiar_dataframe df c canon h = (h', Ok (length h + 3))
        ∧ columns (h' !!! (length h + 3))
          = (λ x, if decide (x = c) then canon else x) <$> columns T
        ∧ solo_cambia_columna p T (h' !!! (length h + 3)).
Proof.
  intros Hdf Hrect Hin Hp.
  destruct (limpiar_normaliza h df T c canon p Hdf Hrect Hin Hp)
    as (h' & Hrun & _ & _ & Hcols & Hrows).
  exists h'. split_and!; [done|done|]. split.
  - rewrite Hrows. apply cleaned_rows_labels.
  - intros r'. rewrite Hrows.
    intros (r & Hr & _ & ->)%elem_of_cleaned_rows.
    exists r. split_and!; [done|done|apply update_cell_length|].
    intros q Hq. simpl. by apply list_lookup_insert_ne.
Qed.

Lemma limpiar_solo_cambia_especie_witness :
  [tabla_sib] !! 0 = Some tabla_sib
  ∧ rectangular tabla_sib
  ∧ "especie" ∈ columns tabla_sib
  ∧ positions "scientificName"
      (columns (rename_columns "especie" "scientificName" tabla_sib)) = [0]
  ∧ ∃ h', limpiar_dataframe 0 "especie" "scientificName" [tabla_sib]
          = (h', Ok (length [tabla_sib] + 3))
          ∧ columns (h' !!! (length [tabla_sib] + 3))
            = (λ x, if decide (x = "especie") then "scientificName" else x)
                <$> columns tabla_sib
          ∧ solo_cambia_columna 0 tabla_sib (h' !!! (length [tabla_sib] + 3)).
Proof.
  assert (H1 : [tabla_sib] !! 0 = Some tabla_sib) by reflexivity.
  assert (H2 : rectangular tabla_sib) by by_compute.
  assert (H3 : "especie" ∈ columns tabla_sib) by by_compute.
  assert (H4 : positions "scientificName"
                 (columns (rename_columns "especie" "scientificName" tabla_sib)) = [0])
    by reflexivity.
  exact (conj H1 (conj H2 (conj H3 (conj H4
           (limpiar_solo_cambia_especie [tabla_sib] 0 tabla_sib
              "especie" "scientificName" 0 H1 H2 H3 H4))))).
Defined.

Lemma cleaned_rows_species p rs v :
  Forall (λ r, p < length (cells r)) rs →
  v ∈ cell_at p <$> cleaned_rows p rs
  ↔ ∃ r, r ∈ rs ∧ strip (py_str (cell_at p r)) ≠ ""
         ∧ v = clean_value (cell_at p r).
Proof.
  intros Hlen. rewrite Forall_forall in Hlen. split.
  - intros (r' & -> & Hr')%list_elem_of_fmap.
    apply elem_of_cleaned_rows in Hr' as (r & Hr & Hne & ->).
    exists r. split_and!; [done|done|]. apply cell_at_update_cell. by apply Hlen.
  - intros (r & Hr & Hne & ->).
    destruct (keep_first_complete (row_key [p]) []
                (update_cell p clean_value
                   <$> filter (λ r, strip (py_str (cell_at p r)) ≠ "") rs)
                (update_cell p clean_value r)) as (y & Hy & Hkey).
    + apply list_elem_of_fmap_2. by apply list_elem_of_filter.
    + apply not_elem_of_nil.
    + apply list_elem_of_fmap. exists y. split; [|done].
      apply row_key_single_inj in Hkey. rewrite Hkey.
      symmetry. apply cell_at_update_cell. by apply Hlen.
Qed.

Lemma cleaned_rows_especies_limpias p T v :
  rectangular T → p < length (columns T) →
  v ∈ cell_at p <$> cleaned_rows p (rows T) ↔ v ∈ especies_limpias p T.
Proof.
  intros Hrect Hlt. rewrite cleaned_rows_species; last first.
  { unfold rectangular in Hrect. eapply Forall_impl; [exact Hrect|].
    intros r Hr. simpl in Hr. lia. }
  unfold especies_limpias. rewrite list_elem_of_fmap. split.
  - intros (r & Hr & Hne & ->). exists (cell_at p r). split; [done|].
    apply list_elem_of_filter. split; [done|]. by apply list_elem_of_fmap_2.
  - intros (v0 & -> & Hv0). apply list_elem_of_filter in Hv0 as [Hne Hv0].
    apply list_elem_of_fmap in Hv0 as (r & -> & Hr). by exists r.
Qed.

(** X2.  The species of the cleaned table are exactly the cleaned texts
    (coerced to text, trimmed, lower-cased) of the species cells of the
    input that are not blank: no species is lost, none is invented, and
    each is there once. *)
Theorem limpiar_especies_del_resultado (h : heap) (df : loc) (T : DataFrame)
    (c canon : string) (p : nat) :
  h !! df = Some T →
  rectangular T →
  c ∈ columns T →
  positions canon (columns (rename_columns c canon T)) = [p] →
  ∃ h', limpiar_dataframe df c canon h = (h', Ok (length h + 3))
        ∧ NoDup (cell_at p <$> rows (h' !!! (length h + 3)))
        ∧ ∀ v, v ∈ cell_at p <$> rows (h' !!! (length h + 3))
               ↔ v ∈ especies_limpias p T.
Proof.
  intros Hdf Hrect Hin Hp.
  destruct (limpiar_normaliza h df T c canon p Hdf Hrect Hin Hp)
    as (h' & Hrun & _ & Hnorm & Hcols & Hrows).
  exists h'. split; [done|].
  assert (Hlt : p < length (columns T)).
  { rewrite <-(rename_columns_length c canon). by eapply positions_single_lt. }
  split.
  - destruct Hnorm as [_ Hnorm]. rewrite Hcols, Hp in Hnorm. by destruct Hnorm.
  - intros v. rewrite Hrows. by apply cleaned_rows_especies_limpias.
Qed.

Lemma limpiar_especies_del_resultado_witness :
  [tabla_sib] !! 0 = Some tabla_sib
  ∧ rectangular tabla_sib
  ∧ "especie" ∈ columns tabla_sib
  ∧ positions "scientificName"
      (columns (rename_columns "especie" "scientificName" tabla_sib)) = [0]
  ∧ ∃ h', limpiar_dataframe 0 "especie" "scientificName" [tabla_sib]
          = (h', Ok (length [tabla_sib] + 3))
          ∧ NoDup (cell_at 0 <$> rows (h' !!! (length [tabla_sib] + 3)))
          ∧ ∀ v, v ∈ cell_at 0 <$> rows (h' !!! (length [tabla_sib] + 3))
                 ↔ v ∈ especies_limpias 0 tabla_sib.
Proof.
  assert (H1 : [tabla_sib] !! 0 = Some tabla_sib) by reflexivity.
  assert (H2 : rectangular tabla_sib) by by_compute.
  assert (H3 : "especie" ∈ columns tabla_sib) by by_compute.
  assert (H4 : positions "scientificName"
                 (columns (rename_columns "especie" "scientificName" tabla_sib)) = [0])
    by reflexivity.
  exact (conj H1 (conj H2 (conj H3 (conj H4
           (limpiar_especies_del_resultado [tabla_sib] 0 tabla_sib
              "especie" "scientificName" 0 H1 H2 H3 H4))))).
Defined.

(** X3.  When the declared column exists and, once it is renamed, the
    standard label is on one column only, the cleaning returns a table,
    and that table has no row exactly when every species cell of the
    input is blank once trimmed (an input without rows included). *)
Theorem limpiar_sin_filas (h : heap) (df : loc) (T : DataFrame)
    (c canon : string) (p : nat) :
  h !! df = Some T →
  rectangular T →
  c ∈ columns T →
  positions canon (columns (rename_columns c canon T)) = [p] →
  ∃ h', limpiar_dataframe df c canon h = (h', Ok (length h + 3))
        ∧ (rows (h' !!! (length h + 3)) = []
           ↔ Forall (λ r, strip (py_str (cell_at p r)) = "") (rows T)).
Proof.
  intros Hdf Hrect Hin Hp.
  destruct (limpiar_normaliza h df T c canon p Hdf Hrect Hin Hp)
    as (h' & Hrun & _ & _ & _ & Hrows).
  exists h'. split; [done|]. rewrite Hrows. split.
  - intros Hnil. apply Forall_forall. intros r Hr.
    destruct (decide (strip (py_str (cell_at p r)) = "")) as [|Hne]; [done|].
    exfalso.
    destruct (keep_first_complete (row_key [p]) []
                (update_cell p clean_value
                   <$> filter (λ r, strip (py_str (cell_at p r)) ≠ "") (rows T))
                (update_cell p clean_value r)) as (y & Hy & _).
    + apply list_elem_of_fmap_2. by apply list_elem_of_filter.
    + apply not_elem_of_nil.
    + unfold cleaned_rows in Hnil. rewrite Hnil in Hy. by apply elem_of_nil in Hy.
  - intros Hall. unfold cleaned_rows.
    replace (filter _ (rows T)) with (@nil row); [done|].
    symmetry. clear -Hall. induction Hall as [|r rs Hr _ IH]; [done|].
    rewrite filter_cons, decide_False; [exact IH|]. by intros ?.
Qed.

Lemma limpiar_sin_filas_witness :
  [tabla_sib] !! 0 = Some tabla_sib
  ∧ rectangular tabla_sib
  ∧ "especie" ∈ columns tabla_sib
  ∧ positions "scientificName"
      (columns (rename_columns "especie" "scientificName" tabla_sib)) = [0]
  ∧ ∃ h', limpiar_dataframe 0 "especie" "scientificName" [tabla_sib]
          = (h', Ok (length [tabla_sib] + 3))
          ∧ (rows (h' !!! (length [tabla_sib] + 3)) = []
             ↔ Forall (λ r, strip (py_str (cell_at 0 r)) = "") (rows tabla_sib)).
Proof.
  assert (H1 : [tabla_sib] !! 0 = Some tabla_sib) by reflexivity.
  assert (H2 : rectangular tabla_sib) by by_compute.
  assert (H3 : "especie" ∈ columns tabla_sib) by by_compute.
  assert (H4 : positions "scientificName"
                 (columns (rename_columns "especie" "scientificName" tabla_sib)) = [0])
    by reflexivity.
  exact (conj H1 (conj H2 (conj H3 (conj H4
           (limpiar_sin_filas [tabla_sib] 0 tabla_sib
              "especie" "scientificName" 0 H1 H2 H3 H4))))).
Defined.

(** X16.  The cleaning works on a copy: whatever the outcome (a cleaned
    table, the [ValueError] of a missing column, or a failure on the way),
    every table that was in the store before the call, the input
    included, is there unchanged after it. *)
Theorem limpiar_no_modifica (h : heap) (df : loc) (orig canon : string) :
  h `prefix_of` (limpiar_dataframe df orig canon h).1.
Proof.
  destruct (limpiar_cases h df orig canon)
    as [[_ Hrun]|[(_ & p & _ & Hrun)|(_ & p & q & ps & _ & Hrun)]];
    rewrite Hrun; simpl; [done|by apply prefix_app_r..].
Qed.

(** * Further properties of the reconciliation step *)

(** ** The order on cells is a total order *)

Lemma ascii_compare_lt_trans a b c :
  Ascii.compare a b = Lt → Ascii.compare b c = Lt → Ascii.compare a c = Lt.
Proof.
  unfold Ascii.compare. rewrite !N.compare_lt_iff. lia.
Qed.

Lemma string_compare_lt_trans s1 s2 s3 :
  String.compare s1 s2 = Lt → String.compare s2 s3 = Lt →
  String.compare s1 s3 = Lt.
Proof.
  revert s2 s3. induction s1 as [|a s1 IH]; intros [|b s2] [|c s3]; simpl;
    try done.
  destruct (Ascii.compare a b) eqn:Hab; try done.
  - apply Ascii.compare_eq_iff in Hab as ->.
    destruct (Ascii.compare b c); try done. apply IH.
  - intros _. destruct (Ascii.compare b c) eqn:Hbc; try done.
    + apply Ascii.compare_eq_iff in Hbc as <-. by rewrite Hab.
    + by rewrite (ascii_compare_lt_trans a b c).
Qed.

Lemma string_leb_trans s1 s2 s3 :
  String.leb s1 s2 = true → String.leb s2 s3 = true → String.leb s1 s3 = true.
Proof.
  unfold String.leb.
  destruct (String.compare s1 s2) eqn:H12; try done;
    destruct (String.compare s2 s3) eqn:H23; try done; intros _ _.
  - apply String.compare_eq_iff in H12 as ->. by rewrite H23.
  - apply String.compare_eq_iff in H12 as ->. by rewrite H23.
  - apply String.compare_eq_iff in H23 as <-. by rewrite H12.
  - by rewrite (string_compare_lt_trans s1 s2 s3).
Qed.

Lemma value_leb_trans u v w :
  value_leb u v = true → value_leb v w = true → value_leb u w = true.
Proof.
  destruct u as [s|a|], v as [t|b|], w as [x|c|]; simpl; try done.
  - apply string_leb_trans.
  - rewrite !Z.leb_le. lia.
Qed.

Lemma value_leb_antisym v w :
  value_leb v w = true → value_leb w v = true → v = w.
Proof.
  destruct v as [s|a|], w as [t|b|]; simpl; try done.
  - intros H1 H2. f_equal. by apply String.leb_antisym.
  - rewrite !Z.leb_le. intros. f_equal. lia.
Qed.

Lemma value_desc_trans u v w :
  value_desc u v = true → value_desc v w = true → value_desc u w = true.
Proof.
  destruct u as [s|a|], v as [t|b|], w as [x|c|]; simpl; try done.
  - intros H1 H2. by apply (string_leb_trans x t s).
  - rewrite !Z.leb_le. lia.
Qed.

Lemma value_desc_antisym v w :
  value_desc v w = true → value_desc w v = true → v = w.
Proof.
  destruct v as [s|a|], w as [t|b|]; simpl; try done.
  - intros H1 H2. f_equal. by apply String.leb_antisym.
  - rewrite !Z.leb_le. intros. f_equal. lia.
Qed.

Global Instance row_before_trans p1 p2 : Transitive (row_before p1 p2).
Proof.
  intros r1 r2 r3. unfold row_before.
  destruct (decide (cell_at p1 r1 = cell_at p1 r2)) as [E12|N12];
    destruct (decide (cell_at p1 r2 = cell_at p1 r3)) as [E23|N23].
  - rewrite decide_True by congruence. apply value_leb_trans.
  - rewrite decide_False by congruence. intros _. by rewrite E12.
  - rewrite decide_False by congruence. intros H _. by rewrite <-E23.
  - intros H12 H23.
    destruct (decide (cell_at p1 r1 = cell_at p1 r3)) as [E13|N13].
    + exfalso. apply N12. rewrite <-E13 in H23.
      by apply value_desc_antisym.
    + by apply (value_desc_trans _ (cell_at p1 r2)).
Qed.

(** Two rows that may each come before the other have the same sort
    keys. *)
Lemma row_before_antisym p1 p2 r1 r2 :
  row_before p1 p2 r1 r2 → row_before p1 p2 r2 r1 →
  cell_at p1 r1 = cell_at p1 r2 ∧ cell_at p2 r1 = cell_at p2 r2.
Proof.
  unfold row_before.
  destruct (decide (cell_at p1 r1 = cell_at p1 r2)) as [E|N].
  - rewrite decide_True by done. intros H1 H2. split; [done|].
    by apply value_leb_antisym.
  - rewrite decide_False by congruence. intros H1 H2. exfalso. apply N.
    by apply value_desc_antisym.
Qed.

Lemma omap_filter {A B} (P : A → Prop) `{∀ x, Decision (P x)} (f : A → B)
    (l : list A) :
  omap (λ x, if decide (P x) then Some (f x) else None) l = f <$> filter P l.
Proof.
  induction l as [|x l IH]; [done|]. rewrite filter_cons. cbn [omap list_omap].
  destruct (decide (P x)); rewrite ?fmap_cons; by rewrite <-IH.
Qed.

Global Instance celdas_before_trans p1 p2 : Transitive (celdas_before p1 p2).
Proof. intros c1 c2 c3. unfold celdas_before. apply transitivity. Qed.

Lemma row_before_cells p1 p2 r1 r2 :
  row_before p1 p2 r1 r2 → celdas_before p1 p2 (cells r1) (cells r2).
Proof. by destruct r1, r2. Qed.

Section construir_extra.
Context `{SetOrder}.

Lemma filas_especies_compartidas canon fuentes :
  filas canon (species_sets_de canon fuentes)
  = (λ e, fila canon e (presencia e (species_sets_de canon fuentes)))
      <$> especies_compartidas canon fuentes.
Proof.
  unfold filas, especies_compartidas.
  induction (set_order _) as [|e l IH]; [done|].
  rewrite filter_cons. cbn [omap list_omap].
  rewrite num_fuentes_sources_containing.
  destruct (decide (2 ≤ sources_containing canon fuentes e)%Z);
    rewrite ?fmap_cons; by rewrite <-IH.
Qed.

Lemma especies_compartidas_NoDup canon fuentes :
  NoDup (especies_compartidas canon fuentes).
Proof.
  unfold especies_compartidas. apply NoDup_filter.
  rewrite set_order_perm. apply NoDup_elements.
Qed.

Lemma elem_of_especies_compartidas canon fuentes e :
  e ∈ especies_compartidas canon fuentes
  ↔ (2 ≤ sources_containing canon fuentes e)%Z.
Proof.
  unfold especies_compartidas.
  rewrite list_elem_of_filter, elem_of_set_order, elem_of_all_species.
  split; [tauto|]. intros Hn. split; [done|].
  unfold sources_containing in Hn.
  destruct (filter _ fuentes) as [|kv l] eqn:Hf; [simpl in Hn; lia|].
  assert (Hkv : kv ∈ filter (λ kv, e ∈ species_set canon kv.2) fuentes)
    by (rewrite Hf; left).
  apply list_elem_of_filter in Hkv as [He Hkv]. by exists kv.
Qed.

(** The table, row by row: the cells of the rows are the cells built for
    the shared species, put in the order of [sort_values]; the index is
    0, 1, ... *)
Lemma construir_celdas (fuentes : dict DataFrame) canon :
  fuentes ≠ [] →
  NoDup (dict_keys fuentes) →
  Forall (λ kv, normalized canon kv.2) fuentes →
  ∃ p1 p2 cs,
    positions "num_fuentes" (columnas_tabla canon (dict_keys fuentes)) = [p1]
    ∧ positions canon (columnas_tabla canon (dict_keys fuentes)) = [p2]
    ∧ construir_interseccion fuentes canon
      = Ok (species_sets_de canon fuentes,
            Frame (if decide (especies_compartidas canon fuentes = [])
                   then [] else columnas_tabla canon (dict_keys fuentes))
                  (imap Row cs))
    ∧ cs ≡ₚ celdas_de canon fuentes <$> especies_compartidas canon fuentes
    ∧ Sorted (celdas_before p1 p2) cs.
Proof.
  intros Hne Hnd Hnorm.
  destruct (construir_shape fuentes canon Hne Hnd Hnorm)
    as (p1 & p2 & Hp1 & Hp2 & Hrun).
  rewrite filas_especies_compartidas, imap_fmap in Hrun.
  set (E := especies_compartidas canon fuentes) in *.
  destruct (decide (E = [])) as [HE|HE].
  - exists p1, p2, []. rewrite HE in Hrun |- *. by split_and!.
  - rewrite decide_False in Hrun by by destruct E.
    set (rows0 := imap _ E) in Hrun.
    exists p1, p2, (cells <$> merge_sort (row_before p1 p2) rows0).
    split_and!; try done.
    + rewrite Hrun. unfold reset_index. simpl. by rewrite imap_fmap.
    + rewrite merge_sort_Permutation.
      assert (Hc : cells <$> rows0 = celdas_de canon fuentes <$> E)
        by apply (cells_imap_row (celdas_de canon fuentes) E id).
      by rewrite Hc.
    + apply (Sorted_fmap _ (row_before p1 p2)).
      * intros r1 r2. apply row_before_cells.
      * apply (Sorted_merge_sort (row_before p1 p2)).
Qed.

End construir_extra.

Lemma fmap_imap_Row {B} (g : row → B) (g' : list value → B)
    (cs : list (list value)) :
  (∀ i c, g (Row i c) = g' c) → g <$> imap Row cs = g' <$> cs.
Proof.
  intros Hg. rewrite fmap_imap.
  assert (Hgen : ∀ k : nat → nat, imap (λ n, g ∘ Row (k n)) cs = g' <$> cs).
  { induction cs as [|c cs IH]; intros k; [done|]. simpl.
    rewrite Hg. f_equal. apply (IH (k ∘ S)). }
  apply (Hgen id).
Qed.

Lemma length_celdas_de canon fuentes e :
  length (celdas_de canon fuentes e)
  = length (columnas_tabla canon (dict_keys fuentes)).
Proof. unfold celdas_de, fila_cells. by rewrite length_fmap. Qed.

(** Where the species column is not also the label of the count or of a
    source, the row of a species holds it under the species column. *)
Lemma celdas_de_especie canon fuentes e p2 :
  NoDup (dict_keys fuentes) →
  canon ≠ "num_fuentes" → canon ∉ dict_keys fuentes →
  positions canon (columnas_tabla canon (dict_keys fuentes)) = [p2] →
  celdas_de canon fuentes e !! p2 = Some e.
Proof.
  intros Hnd Hc1 Hc2 Hp2.
  assert (HK : columnas_tabla canon (dict_keys fuentes) !! p2 = Some canon).
  { apply elem_of_positions. rewrite Hp2. left. }
  unfold celdas_de, fila_cells. rewrite list_lookup_fmap, HK. simpl.
  pose proof (fila_canon_cell canon e (species_sets_de canon fuentes)) as Hcell.
  rewrite species_sets_de_keys in Hcell. specialize (Hcell Hnd).
  rewrite decide_False in Hcell by tauto. by rewrite Hcell.
Qed.

(** The species column of the table, for source names that do not clash
    with it. *)
Lemma construir_columna_especie `{SetOrder}
    (fuentes : dict DataFrame) (canon : string) :
  fuentes ≠ [] →
  NoDup (dict_keys fuentes) →
  Forall (λ kv, normalized canon kv.2) fuentes →
  canon ≠ "num_fuentes" →
  canon ∉ dict_keys fuentes →
  ∃ tabla,
    construir_interseccion fuentes canon
    = Ok (species_sets_de canon fuentes, tabla)
    ∧ NoDup ((λ r, celda tabla r canon) <$> rows tabla)
    ∧ ∀ e, (∃ r, r ∈ rows tabla ∧ celda tabla r canon = Some e)
           ↔ (2 ≤ sources_containing canon fuentes e)%Z.
Proof.
  intros Hne Hnd Hnorm Hc1 Hc2.
  destruct (construir_celdas fuentes canon Hne Hnd Hnorm)
    as (p1 & p2 & cs & Hp1 & Hp2 & Hrun & Hperm & _).
  eexists. split; [exact Hrun|].
  set (E := especies_compartidas canon fuentes) in *.
  set (K := columnas_tabla canon (dict_keys fuentes)) in *.
  destruct (decide (E = [])) as [HE|HE].
  { rewrite HE in Hperm. apply Permutation_nil_r in Hperm. subst cs. simpl.
    split; [apply NoDup_nil_2|]. intros e. split.
    - intros (r & Hr & _). by apply elem_of_nil in Hr.
    - intros He%elem_of_especies_compartidas. fold E in He. rewrite HE in He.
      by apply elem_of_nil in He. }
  assert (Hcol : (λ r, celda (Frame K (imap Row cs)) r canon) <$> imap Row cs
                 ≡ₚ Some <$> E).
  { rewrite (fmap_imap_Row _ (λ c, c !! p2)).
    - rewrite Hperm, <-list_fmap_compose.
      assert (Heq : (λ c, c !! p2) ∘ celdas_de canon fuentes <$> E = Some <$> E).
      { apply list_fmap_ext. intros i e _. simpl.
        by apply celdas_de_especie. }
      by rewrite Heq.
    - intros i c. unfold celda. simpl. by rewrite Hp2. }
  simpl. split.
  - rewrite Hcol. apply (NoDup_fmap_2 _), especies_compartidas_NoDup.
  - intros e. rewrite <-elem_of_especies_compartidas. fold E.
    rewrite <-(list_elem_of_fmap_inj Some E e), <-Hcol, list_elem_of_fmap.
    split.
    + intros (r & Hr & Hcell). by exists r.
    + intros (r & Hcell & Hr). by exists r.
Qed.


(** X4.  Where the species column is not also the label of the count or of
    a source, the table has exactly one row per species found in two
    sources or more: no species fills two rows, and a species has a row
    exactly when two sources or more hold it. *)
Theorem construir_una_fila_por_especie `{SetOrder}
    (fuentes : dict DataFrame) (canon : string) :
  fuentes ≠ [] →
  NoDup (dict_keys fuentes) →
  Forall (λ kv, normalized canon kv.2) fuentes →
  canon ≠ "num_fuentes" →
  canon ∉ dict_keys fuentes →
  ∃ tabla,
    construir_interseccion fuentes canon
    = Ok (species_sets_de canon fuentes, tabla)
    ∧ NoDup ((λ r, celda tabla r canon) <$> rows tabla)
    ∧ ∀ e, (∃ r, r ∈ rows tabla ∧ celda tabla r canon = Some e)
           ↔ (2 ≤ sources_containing canon fuentes e)%Z.
Proof. apply construir_columna_especie. Qed.

Lemma construir_una_fila_por_especie_witness :
  fuentes_ejemplo ≠ []
  ∧ NoDup (dict_keys fuentes_ejemplo)
  ∧ Forall (λ kv, normalized "scientificName" kv.2) fuentes_ejemplo
  ∧ "scientificName" ≠ "num_fuentes"
  ∧ ("scientificName" ∉ dict_keys fuentes_ejemplo)
  ∧ ∃ tabla,
      @construir_interseccion elements_order fuentes_ejemplo "scientificName"
      = Ok (species_sets_de "scientificName" fuentes_ejemplo, tabla)
      ∧ NoDup ((λ r, celda tabla r "scientificName") <$> rows tabla)
      ∧ ∀ e, (∃ r, r ∈ rows tabla ∧ celda tabla r "scientificName" = Some e)
             ↔ (2 ≤ sources_containing "scientificName" fuentes_ejemplo e)%Z.
Proof.
  assert (H1 : fuentes_ejemplo ≠ []) by done.
  assert (H2 : NoDup (dict_keys fuentes_ejemplo)) by by_compute.
  assert (H3 : Forall (λ kv, normalized "scientificName" kv.2) fuentes_ejemplo)
    by by_compute.
  assert (H4 : "scientificName" ≠ "num_fuentes") by done.
  assert (H5 : "scientificName" ∉ dict_keys fuentes_ejemplo) by by_compute.
  exact (conj H1 (conj H2 (conj H3 (conj H4 (conj H5
           (@construir_una_fila_por_especie elements_order
              fuentes_ejemplo "scientificName" H1 H2 H3 H4 H5)))))).
Defined.

(** X5.  The shape of the returned table: every row has one cell per
    column, the index labels are 0, 1, ... in row order, a table without
    rows has no column, and, where the source names are neither the
    species column label nor [num_fuentes], a table with rows has the
    species column, the count column and one column per source, in the
    order of the mapping. *)
Theorem construir_forma `{SetOrder}
    (fuentes : dict DataFrame) (canon : string) :
  fuentes ≠ [] →
  NoDup (dict_keys fuentes) →
  Forall (λ kv, normalized canon kv.2) fuentes →
  canon ≠ "num_fuentes" →
  canon ∉ dict_keys fuentes →
  "num_fuentes" ∉ dict_keys fuentes →
  ∃ tabla,
    construir_interseccion fuentes canon
    = Ok (species_sets_de canon fuentes, tabla)
    ∧ rectangular tabla
    ∧ (∀ i r, rows tabla !! i = Some r → label r = i)
    ∧ (rows tabla = [] → columns tabla = [])
    ∧ (rows tabla ≠ [] →
       columns tabla = canon :: "num_fuentes" :: dict_keys fuentes).
Proof.
  intros Hne Hnd Hnorm Hc1 Hc2 Hc3.
  destruct (construir_celdas fuentes canon Hne Hnd Hnorm)
    as (p1 & p2 & cs & Hp1 & Hp2 & Hrun & Hperm & _).
  eexists. split; [exact Hrun|].
  set (E := especies_compartidas canon fuentes) in *.
  rewrite columnas_tabla_fresh in * by done. simpl.
  split_and!.
  - unfold rectangular. simpl. apply Forall_forall.
    intros r (i & c & -> & Hc)%elem_of_lookup_imap. simpl.
    assert (Hin : c ∈ celdas_de canon fuentes <$> E).
    { rewrite <-Hperm. by eapply list_elem_of_lookup_2. }
    apply list_elem_of_fmap in Hin as (e & -> & He).
    rewrite length_celdas_de, columnas_tabla_fresh by done.
    rewrite decide_False; [done|]. intros HE. rewrite HE in He.
    by apply elem_of_nil in He.
  - intros i r. rewrite list_lookup_imap.
    destruct (cs !! i); intros [= <-]. done.
  - intros Hnil. destruct cs as [|c cs]; [|done].
    apply Permutation_nil_l in Hperm. symmetry in Hperm.
    apply fmap_nil_inv in Hperm. by rewrite decide_True.
  - intros Hrows. rewrite decide_False; [done|]. intros HE.
    rewrite HE in Hperm. apply Permutation_nil_r in Hperm. by subst cs.
Qed.

Lemma construir_forma_witness :
  fuentes_ejemplo ≠ []
  ∧ NoDup (dict_keys fuentes_ejemplo)
  ∧ Forall (λ kv, normalized "scientificName" kv.2) fuentes_ejemplo
  ∧ "scientificName" ≠ "num_fuentes"
  ∧ ("scientificName" ∉ dict_keys fuentes_ejemplo)
  ∧ ("num_fuentes" ∉ dict_keys fuentes_ejemplo)
  ∧ ∃ tabla,
      @construir_interseccion elements_order fuentes_ejemplo "scientificName"
      = Ok (species_sets_de "scientificName" fuentes_ejemplo, tabla)
      ∧ rectangular tabla
      ∧ (∀ i r, rows tabla !! i = Some r → label r = i)
      ∧ (rows tabla = [] → columns tabla = [])
      ∧ (rows tabla ≠ [] →
         columns tabla
         = "scientificName" :: "num_fuentes" :: dict_keys fuentes_ejemplo).
Proof.
  assert (H1 : fuentes_ejemplo ≠ []) by done.
  assert (H2 : NoDup (dict_keys fuentes_ejemplo)) by by_compute.
  assert (H3 : Forall (λ kv, normalized "scientificName" kv.2) fuentes_ejemplo)
    by by_compute.
  assert (H4 : "scientificName" ≠ "num_fuentes") by done.
  assert (H5 : "scientificName" ∉ dict_keys fuentes_ejemplo) by by_compute.
  assert (H6 : "num_fuentes" ∉ dict_keys fuentes_ejemplo) by by_compute.
  exact (conj H1 (conj H2 (conj H3 (conj H4 (conj H5 (conj H6
           (@construir_forma elements_order
              fuentes_ejemplo "scientificName" H1 H2 H3 H4 H5 H6))))))).
Defined.

(** X6.  Where the species column is not also the label of the count or of
    a source, the result does not depend on the order in which Python
    visits the set of all the species: any two orders give the same
    species sets and the same table, row for row. *)
Theorem construir_orden_indiferente (O1 O2 : SetOrder)
    (fuentes : dict DataFrame) (canon : string) :
  fuentes ≠ [] →
  NoDup (dict_keys fuentes) →
  Forall (λ kv, normalized canon kv.2) fuentes →
  canon ≠ "num_fuentes" →
  canon ∉ dict_keys fuentes →
  @construir_interseccion O1 fuentes canon
  = @construir_interseccion O2 fuentes canon.
Proof.
  intros Hne Hnd Hnorm Hc1 Hc2.
  destruct (@construir_celdas O1 fuentes canon Hne Hnd Hnorm)
    as (p1 & p2 & cs1 & Hp1 & Hp2 & Hrun1 & Hperm1 & Hsort1).
  destruct (@construir_celdas O2 fuentes canon Hne Hnd Hnorm)
    as (p1' & p2' & cs2 & Hp1' & Hp2' & Hrun2 & Hperm2 & Hsort2).
  rewrite Hp1 in Hp1'. injection Hp1' as <-.
  rewrite Hp2 in Hp2'. injection Hp2' as <-.
  rewrite Hrun1, Hrun2.
  assert (HE : @especies_compartidas O1 canon fuentes
               ≡ₚ @especies_compartidas O2 canon fuentes).
  { unfold especies_compartidas. apply filter_Permutation.
    by rewrite !set_order_perm. }
  assert (Hcs : cs1 = cs2).
  { apply (Sorted_unique_strong (celdas_before p1 p2)); [|done|done|].
    - intros c1 c2 Hin1 Hin2 H12 H21.
      rewrite Hperm1 in Hin1. rewrite Hperm2 in Hin2.
      apply list_elem_of_fmap in Hin1 as (e1 & -> & _).
      apply list_elem_of_fmap in Hin2 as (e2 & -> & _).
      destruct (row_before_antisym _ _ _ _ H12 H21) as [_ Heq].
      unfold cell_at in Heq. simpl in Heq.
      rewrite !(celdas_de_especie canon fuentes _ p2) in Heq by done.
      simpl in Heq. by subst e2.
    - by rewrite Hperm1, Hperm2, HE. }
  subst cs2. do 3 f_equal.
  destruct (decide (@especies_compartidas O1 canon fuentes = [])) as [H1|H1].
  - rewrite H1 in HE. apply Permutation_nil_l in HE.
    by rewrite decide_True.
  - rewrite decide_False; [done|]. intros H2. rewrite H2 in HE.
    by apply Permutation_nil_r in HE.
Qed.

Lemma construir_orden_indiferente_witness :
  fuentes_varias ≠ []
  ∧ NoDup (dict_keys fuentes_varias)
  ∧ Forall (λ kv, normalized "scientificName" kv.2) fuentes_varias
  ∧ "scientificName" ≠ "num_fuentes"
  ∧ ("scientificName" ∉ dict_keys fuentes_varias)
  ∧ @construir_interseccion elements_order fuentes_varias "scientificName"
    = @construir_interseccion reverse_order fuentes_varias "scientificName".
Proof.
  assert (H1 : fuentes_varias ≠ []) by done.
  assert (H2 : NoDup (dict_keys fuentes_varias)) by by_compute.
  assert (H3 : Forall (λ kv, normalized "scientificName" kv.2) fuentes_varias)
    by by_compute.
  assert (H4 : "scientificName" ≠ "num_fuentes") by done.
  assert (H5 : "scientificName" ∉ dict_keys fuentes_varias) by by_compute.
  exact (conj H1 (conj H2 (conj H3 (conj H4 (conj H5
           (construir_orden_indiferente elements_order reverse_order
              fuentes_varias "scientificName" H1 H2 H3 H4 H5)))))).
Defined.

(** X7.  With a single source there is nothing to reconcile: whatever its
    name and its species, the table has no row and no column. *)
Theorem construir_una_fuente `{SetOrder}
    (nombre : string) (df : DataFrame) (canon : string) :
  normalized canon df →
  construir_interseccion [(nombre, df)] canon
  = Ok ([(nombre, species_set canon df)], Frame [] []).
Proof.
  intros Hnorm.
  destruct (construir_table [(nombre, df)] canon)
    as (tabla & p1 & p2 & Hrun & _ & _ & Hnil & _ & Hrows & _).
  - done.
  - apply NoDup_singleton.
  - by apply Forall_singleton.
  - rewrite Hrun. simpl. do 2 f_equal. apply Hnil.
    destruct (rows tabla) as [|r rs]; [done|]. exfalso.
    destruct (Hrows r) as (e & _ & Hn & _); [left|].
    unfold sources_containing in Hn. rewrite filter_cons, filter_nil in Hn.
    simpl in Hn. destruct (decide (e ∈ species_set canon df)); simpl in Hn; lia.
Qed.

Lemma construir_una_fuente_witness :
  normalized "scientificName" (tabla_de ["felis catus"; "canis lupus"])
  ∧ @construir_interseccion elements_order
      [("SIB", tabla_de ["felis catus"; "canis lupus"])] "scientificName"
    = Ok ([("SIB", species_set "scientificName"
                     (tabla_de ["felis catus"; "canis lupus"]))],
          Frame [] []).
Proof.
  assert (H1 : normalized "scientificName"
                 (tabla_de ["felis catus"; "canis lupus"])) by by_compute.
  exact (conj H1 (@construir_una_fuente elements_order "SIB"
                    (tabla_de ["felis catus"; "canis lupus"])
                    "scientificName" H1)).
Defined.

Lemma conjuntos_por_fuente_falta canon (pre post : dict DataFrame)
    nombre df (acc : dict (gset value)) :
  Forall (λ kv, length (positions canon (columns kv.2)) = 1) pre →
  canon ∉ columns df →
  conjuntos_por_fuente canon (pre ++ (nombre, df) :: post) acc
  = Err (KeyError canon).
Proof.
  intros Hpre Hdf. revert acc.
  induction Hpre as [|[k d] pre Hd _ IH]; intros acc; simpl.
  - unfold especies, getitem. apply positions_nil in Hdf. by rewrite Hdf.
  - simpl in Hd. unfold especies at 1, getitem.
    destruct (positions canon (columns d)) as [|p [|q ps]]; try done.
    simpl. apply IH.
Qed.

(** X8.  A table that was not cleaned stops the reconciliation: when the
    first source whose table does not have the species column exactly
    once lacks it, the call raises [KeyError] on the column label,
    whatever the sources after it hold. *)
Theorem construir_columna_ausente `{SetOrder}
    (pre post : dict DataFrame) (nombre : string) (df : DataFrame)
    (canon : string) :
  Forall (λ kv, length (positions canon (columns kv.2)) = 1) pre →
  canon ∉ columns df →
  construir_interseccion (pre ++ (nombre, df) :: post) canon
  = Err (KeyError canon).
Proof.
  intros Hpre Hdf. unfold construir_interseccion.
  by rewrite conjuntos_por_fuente_falta.
Qed.

Lemma construir_columna_ausente_witness :
  Forall (λ kv, length (positions "scientificName" (columns kv.2)) = 1)
         [("SIB", tabla_de ["felis catus"])]
  ∧ ("scientificName" ∉ columns tabla_a)
  ∧ @construir_interseccion elements_order fuentes_sin_limpiar "scientificName"
    = Err (KeyError "scientificName").
Proof.
  assert (H1 : Forall (λ kv, length (positions "scientificName"
                                       (columns kv.2)) = 1)
                 [("SIB", tabla_de ["felis catus"])]) by by_compute.
  assert (H2 : "scientificName" ∉ columns tabla_a) by by_compute.
  exact (conj H1 (conj H2
           (@construir_columna_ausente elements_order
              [("SIB", tabla_de ["felis catus"])]
              [("IUCN", tabla_de ["felis catus"])]
              "GBIF" tabla_a "scientificName" H1 H2))).
Defined.

Lemma size_species_set_normalized canon df :
  normalized canon df → size (species_set canon df) = length (rows df).
Proof.
  intros Hnorm.
  destruct (especies_normalized _ _ Hnorm) as (p & Hp & Hesp & _).
  destruct Hnorm as [_ Hnorm]. rewrite Hp in Hnorm. destruct Hnorm as [Hnd _].
  unfold species_set. rewrite Hesp, size_list_to_set by done.
  by rewrite length_fmap.
Qed.

(** X9.  The indicators shown per source are the numbers of rows of the
    cleaned tables: the species set that [construir_interseccion] returns
    for a source has as many elements as the cleaned table of the source
    has rows, and the indicators come in the order of the sources. *)
Theorem indicadores_por_fuente `{SetOrder}
    (fuentes : dict DataFrame) (canon : string) :
  NoDup (dict_keys fuentes) →
  Forall (λ kv, normalized canon kv.2) fuentes →
  ∃ sets tabla,
    construir_interseccion fuentes canon = Ok (sets, tabla)
    ∧ datos_indicadores sets = (λ kv, (kv.1, length (rows kv.2))) <$> fuentes.
Proof.
  intros Hnd Hnorm. destruct (decide (fuentes = [])) as [->|Hne].
  { by exists [], (Frame [canon] []). }
  destruct (construir_table fuentes canon Hne Hnd Hnorm)
    as (tabla & p1 & p2 & Hrun & _).
  exists (species_sets_de canon fuentes), tabla. split; [done|].
  unfold datos_indicadores, species_sets_de. rewrite <-list_fmap_compose.
  apply Forall_fmap_ext_1. eapply Forall_impl; [exact Hnorm|].
  intros kv Hkv. simpl. f_equal. by apply size_species_set_normalized.
Qed.

Lemma indicadores_por_fuente_witness :
  NoDup (dict_keys fuentes_varias)
  ∧ Forall (λ kv, normalized "scientificName" kv.2) fuentes_varias
  ∧ ∃ sets tabla,
      @construir_interseccion elements_order fuentes_varias "scientificName"
      = Ok (sets, tabla)
      ∧ datos_indicadores sets
        = (λ kv, (kv.1, length (rows kv.2))) <$> fuentes_varias.
Proof.
  assert (H1 : NoDup (dict_keys fuentes_varias)) by by_compute.
  assert (H2 : Forall (λ kv, normalized "scientificName" kv.2) fuentes_varias)
    by by_compute.
  exact (conj H1 (conj H2
           (@indicadores_por_fuente elements_order
              fuentes_varias "scientificName" H1 H2))).
Defined.

(** * The loader and the cards *)

(** ** [split] and the extension *)

Lemma split_char_ne sep s : split_char sep s ≠ [].
Proof.
  destruct s as [|a s]; simpl; [done|].
  destruct (split_char sep s); [done|]. by case_decide.
Qed.

Lemma split_char_app sep s1 s2 :
  split_char sep (s1 +:+ String sep s2)
  = split_char sep s1 ++ split_char sep s2.
Proof.
  induction s1 as [|a s1 IH]; simpl.
  - pose proof (split_char_ne sep s2) as Hne.
    destruct (split_char sep s2); [done|]. by rewrite decide_True.
  - rewrite IH. pose proof (split_char_ne sep s1) as Hne.
    destruct (split_char sep s1) as [|p ps]; [done|]. simpl.
    by case_decide.
Qed.

Lemma split_char_sin sep s :
  sep ∉ list_ascii_of_string s → split_char sep s = [s].
Proof.
  induction s as [|a s IH]; simpl; [done|].
  rewrite not_elem_of_cons. intros [Hne Hs]. rewrite (IH Hs).
  rewrite decide_False; [done|]. by intros ->.
Qed.

Lemma extension_sin_punto s :
  "."%char ∉ list_ascii_of_string s → extension s = lower s.
Proof. intros Hs. unfold extension. by rewrite split_char_sin. Qed.

Lemma extension_ultimo_punto base resto :
  extension (base +:+ String "." resto) = extension resto.
Proof.
  unfold extension. rewrite split_char_app, last_app.
  pose proof (split_char_ne "." resto) as Hne.
  destruct (last (split_char "." resto)) eqn:Hl; [done|].
  by apply last_None in Hl.
Qed.

(** X10.  The loader looks only at what follows the last dot of the file
    name, whatever its case: for an ending [ext] without a dot, the file
    [base.ext] and the file named [ext] alone are both read by
    [read_csv] when [ext] is [csv] up to case, by [read_excel] when it is
    [xls] or [xlsx] up to case, and refused otherwise with [ext] in lower
    case in the message. *)
Theorem leer_archivo_por_extension {C R : Type} (read_csv read_excel : C → R)
    (base ext : string) (contenido : C) :
  "."%char ∉ list_ascii_of_string ext →
  let lectura_esperada :=
    if decide (lower ext = "csv") then Leido (read_csv contenido)
    else if decide (lower ext ∈ ["xls"; "xlsx"]) then Leido (read_excel contenido)
    else FormatoNoSoportado (lower ext) in
  leer_archivo_subido read_csv read_excel
    (Some (base +:+ String "." ext, contenido)) = lectura_esperada
  ∧ leer_archivo_subido read_csv read_excel (Some (ext, contenido))
    = lectura_esperada.
Proof.
  intros Hext. simpl.
  by rewrite extension_ultimo_punto, extension_sin_punto.
Qed.

Lemma leer_archivo_por_extension_witness :
  ("."%char ∉ list_ascii_of_string "XLSX")
  ∧ (leer_archivo_subido lector_ejemplo lector_ejemplo
       (Some ("iucn.2024.XLSX", tabla_b)) = Leido (inr tabla_b)
     ∧ leer_archivo_subido lector_ejemplo lector_ejemplo
         (Some ("XLSX", tabla_b)) = Leido (inr tabla_b)).
Proof.
  assert (H1 : "."%char ∉ list_ascii_of_string "XLSX") by by_compute.
  exact (conj H1 (leer_archivo_por_extension lector_ejemplo lector_ejemplo
                    "iucn.2024" "XLSX" tabla_b H1)).
Defined.

(** ** The names of the sources *)

Lemma nombre_base_inj i j : nombre_base i = nombre_base j → i = j.
Proof.
  unfold nombre_base.
  destruct i as [|[|[|i]]], j as [|[|[|j]]]; simpl; try done.
  intros Heq. simplify_eq. lia.
Qed.

Lemma nombre_base_fresco i :
  nombre_base i ≠ "scientificName" ∧ nombre_base i ≠ "num_fuentes".
Proof. unfold nombre_base. by destruct i as [|[|[|i]]]. Qed.

Lemma con_archivo_ge {C} i (tarjetas : list (tarjeta C)) k :
  k ∈ con_archivo i tarjetas → i ≤ k.
Proof.
  revert i. induction tarjetas as [|t rest IH]; intros i; simpl.
  - by intros ?%elem_of_nil.
  - destruct (archivo t).
    + intros [->|Hk%IH]%elem_of_cons; lia.
    + intros Hk%IH. lia.
Qed.

Lemma con_archivo_NoDup {C} i (tarjetas : list (tarjeta C)) :
  NoDup (con_archivo i tarjetas).
Proof.
  revert i. induction tarjetas as [|t rest IH]; intros i; simpl.
  - apply NoDup_nil_2.
  - destruct (archivo t); [|apply IH]. apply NoDup_cons. split; [|apply IH].
    intros Hi%con_archivo_ge. lia.
Qed.

(** What the loading loop leaves when it ends without error. *)
Lemma cargar_fuentes_inv {C E : Type}
    (read_csv read_excel : C → E + DataFrame)
    (i : nat) (tarjetas : list (tarjeta C)) (h h' : heap) (srcs : list fuente) :
  cargar_fuentes read_csv read_excel i tarjetas h = (h', inr srcs) →
  name <$> srcs = nombre_base <$> con_archivo i tarjetas
  ∧ NoDup (name <$> srcs)
  ∧ Forall (λ s, name s ≠ "scientificName" ∧ name s ≠ "num_fuentes") srcs
  ∧ h `prefix_of` h'
  ∧ length h' = length h + length srcs
  ∧ df_raw <$> srcs = seq (length h) (length srcs)
  ∧ Forall (λ s, strip (extra_col s) = extra_col s) srcs.
Proof.
  intros Hrun.
  assert (Hgen : name <$> srcs = nombre_base <$> con_archivo i tarjetas
                 ∧ h `prefix_of` h'
                 ∧ length h' = length h + length srcs
                 ∧ df_raw <$> srcs = seq (length h) (length srcs)
                 ∧ Forall (λ s, strip (extra_col s) = extra_col s) srcs).
  { revert i h h' srcs Hrun.
    induction tarjetas as [|t rest IH]; intros i h h' srcs Hrun; simpl in Hrun.
    - injection Hrun as <- <-. simpl. split_and!; done || lia.
    - unfold leer_archivo_subido in Hrun. simpl.
      destruct (archivo t) as [[nombre contenido]|].
      + assert (Hleido : ∃ df,
                  cargar_fuentes read_csv read_excel (S i) rest (h ++ [df])
                  = (h', inr (drop 1 srcs))
                  ∧ srcs = Fuente (nombre_base i) (length h) (col_especie t)
                             (strip (col_extra t)) :: drop 1 srcs).
        { repeat case_decide;
            try (destruct (read_csv contenido) as [e|df]; [done|]);
            try (destruct (read_excel contenido) as [e|df]; [done|]);
            try done;
            destruct (cargar_fuentes read_csv read_excel (S i) rest (h ++ [df]))
              as [h'' [err|srcs']] eqn:Hrest; try done;
            injection Hrun as <- <-; by exists df. }
        destruct Hleido as (df & Hrest & Hsrcs).
        destruct (IH _ _ _ _ Hrest) as (Hn & Hpre & Hlen & Hdf & Hex).
        rewrite Hsrcs. rewrite !fmap_cons. cbn [name df_raw extra_col length].
        rewrite length_app in Hlen, Hdf. simpl in Hlen, Hdf.
        split_and!.
        * by rewrite Hn.
        * etrans; [|exact Hpre]. by apply prefix_app_r.
        * lia.
        * simpl. f_equal. rewrite Hdf. f_equal. lia.
        * apply Forall_cons. split; [apply strip_idem|done].
      + by apply IH. }
  destruct Hgen as (Hn & Hpre & Hlen & Hdf & Hex).
  split_and!; try done.
  - rewrite Hn. apply (NoDup_fmap_2_strong nombre_base); [|apply con_archivo_NoDup].
    intros j k _ _. apply nombre_base_inj.
  - apply Forall_forall. intros s Hs.
    assert (Hin : name s ∈ name <$> srcs) by by apply list_elem_of_fmap_2.
    rewrite Hn in Hin. apply list_elem_of_fmap in Hin as (k & -> & _).
    apply nombre_base_fresco.
Qed.


(** X11.  When every upload can be read, the list [sources_info] has one
    entry per card that holds an upload, in the order of the cards; the
    entries bear different names, none of which is the label of the
    species column or of the count column of the result; each entry
    refers to a frame of its own, added to the store, and its extra
    column has no white space around it. *)
Theorem cargar_fuentes_correcta {C E : Type}
    (read_csv read_excel : C → E + DataFrame)
    (i : nat) (tarjetas : list (tarjeta C)) (h h' : heap) (srcs : list fuente) :
  cargar_fuentes read_csv read_excel i tarjetas h = (h', inr srcs) →
  name <$> srcs = nombre_base <$> con_archivo i tarjetas
  ∧ NoDup (name <$> srcs)
  ∧ Forall (λ s, name s ≠ "scientificName" ∧ name s ≠ "num_fuentes") srcs
  ∧ h `prefix_of` h'
  ∧ length h' = length h + length srcs
  ∧ df_raw <$> srcs = seq (length h) (length srcs)
  ∧ Forall (λ s, strip (extra_col s) = extra_col s) srcs.
Proof. apply cargar_fuentes_inv. Qed.

Lemma cargar_fuentes_correcta_witness :
  cargar_fuentes lector_ejemplo lector_ejemplo 0 tarjetas_ejemplo []
  = (almacen_ejemplo, inr fuentes_info_ejemplo)
  ∧ (name <$> fuentes_info_ejemplo
     = nombre_base <$> con_archivo 0 tarjetas_ejemplo
     ∧ NoDup (name <$> fuentes_info_ejemplo)
     ∧ Forall (λ s, name s ≠ "scientificName" ∧ name s ≠ "num_fuentes")
              fuentes_info_ejemplo
     ∧ [] `prefix_of` almacen_ejemplo
     ∧ length almacen_ejemplo = length (@nil DataFrame) + length fuentes_info_ejemplo
     ∧ df_raw <$> fuentes_info_ejemplo
       = seq (length (@nil DataFrame)) (length fuentes_info_ejemplo)
     ∧ Forall (λ s, strip (extra_col s) = extra_col s) fuentes_info_ejemplo).
Proof.
  assert (H1 : cargar_fuentes lector_ejemplo lector_ejemplo 0 tarjetas_ejemplo []
               = (almacen_ejemplo, inr fuentes_info_ejemplo))
    by (vm_compute; reflexivity).
  exact (conj H1 (cargar_fuentes_correcta lector_ejemplo lector_ejemplo
                    0 tarjetas_ejemplo [] almacen_ejemplo
                    fuentes_info_ejemplo H1)).
Defined.

(** * The processing block of the application *)

(** ** The cleaning loop *)

Lemma prefix_lookup_total (h h' : heap) i :
  h `prefix_of` h' → i < length h → h' !!! i = h !!! i.
Proof.
  intros Hpre Hlt. destruct (lookup_lt_is_Some_2 h i Hlt) as [x Hx].
  rewrite (list_lookup_total_correct _ _ _ Hx).
  apply list_lookup_total_correct. by eapply prefix_lookup_Some.
Qed.

Lemma species_set_limpia canon T c p d :
  rectangular T →
  positions canon (columns (rename_columns c canon T)) = [p] →
  normalized canon d →
  columns d = columns (rename_columns c canon T) →
  rows d = cleaned_rows p (rows T) →
  species_set canon d = list_to_set (especies_limpias p T).
Proof.
  intros Hrect Hp Hnorm Hcols Hrows.
  destruct (especies_normalized _ _ Hnorm) as (p' & Hp' & Hesp & _).
  rewrite Hcols, Hp in Hp'. injection Hp' as <-.
  unfold species_set. rewrite Hesp. apply set_eq. intros v.
  rewrite !elem_of_list_to_set, Hrows.
  apply cleaned_rows_especies_limpias; [done|].
  rewrite <-(rename_columns_length c canon). by eapply positions_single_lt.
Qed.

(** One turn of the loop on a source that can be cleaned. *)
Lemma limpiar_fuente_valida canon (h0 h : heap) src acc :
  h0 `prefix_of` h →
  fuente_valida canon h0 src →
  ∃ h',
    limpiar_fuente canon src acc h
    = (h', Ok (Limpieza
                 (dict_set (name src) (length h + 3) (fuentes_limpias acc))
                 (if decide (extra_col src ≠ ""
                             ∧ extra_col src ∈ columnas_limpias canon h0 src)
                  then dict_set (name src) (extra_col src) (extra_cols_map acc)
                  else extra_cols_map acc)
                 (if decide (extra_col src ≠ ""
                             ∧ extra_col src ∉ columnas_limpias canon h0 src)
                  then avisos acc ++ [(name src, extra_col src)]
                  else avisos acc)))
    ∧ h `prefix_of` h'
    ∧ length h + 3 < length h'
    ∧ limpia_de canon h0 src (h' !!! (length h + 3)).
Proof.
  intros Hpre Hval. unfold fuente_valida in Hval.
  destruct (h0 !! df_raw src) as [T|] eqn:HT; [|done].
  destruct Hval as (Hrect & Hblank & Hin & Hlen).
  destruct (positions canon (columns (rename_columns (strip (species_col src))
                                        canon T))) as [|p [|q ps]] eqn:Hp;
    try done.
  assert (HT' : h !! df_raw src = Some T) by by eapply prefix_lookup_Some.
  assert (Htot0 : h0 !!! df_raw src = T) by by apply list_lookup_total_correct.
  assert (Htot : h !!! df_raw src = T) by by apply list_lookup_total_correct.
  destruct (limpiar_normaliza h (df_raw src) T (strip (species_col src)) canon p
              HT' Hrect Hin Hp) as (h' & Hrun & Hpre' & Hnorm & Hcols & Hrows).
  assert (Hh' : length h + 3 < length h').
  { rewrite (limpiar_ok h (df_raw src) _ canon p) in Hrun by by rewrite Htot.
    injection Hrun as <-.
    rewrite length_app. simpl. lia. }
  exists h'. split_and!; try done.
  - unfold limpiar_fuente. rewrite decide_False by done.
    unfold mbind, M_bind. rewrite Hrun. unfold deref, mret, M_ret.
    unfold columnas_limpias. rewrite Htot0, <-Hcols.
    destruct (decide (extra_col src = "")) as [He|He].
    + rewrite !decide_False by tauto. done.
    + destruct (decide (extra_col src ∈ columns (h' !!! (length h + 3))))
        as [Hc|Hc].
      * rewrite decide_True, decide_False by tauto. done.
      * rewrite decide_False, decide_True by tauto. done.
  - unfold limpia_de, columnas_limpias, especies_de_fuente, columnas_limpias.
    rewrite Htot0, Hp. split_and!; [done|done|].
    by eapply species_set_limpia.
Qed.

(** The loop on sources that can all be cleaned, from any accumulator
    that does not know their names yet. *)
Lemma limpiar_fuentes_inv canon srcs (h0 : heap) :
  ∀ (h : heap) acc,
    h0 `prefix_of` h →
    Forall (fuente_valida canon h0) srcs →
    NoDup (name <$> srcs) →
    (∀ s, s ∈ srcs → (name s ∉ dict_keys (fuentes_limpias acc))
                     ∧ (name s ∉ dict_keys (extra_cols_map acc))) →
    ∃ h' l nuevas,
      limpiar_fuentes canon srcs acc h = (h', Ok l)
      ∧ h `prefix_of` h'
      ∧ fuentes_limpias l = fuentes_limpias acc ++ nuevas
      ∧ Forall2 (λ s kv, kv.1 = name s ∧ kv.2 < length h'
                         ∧ limpia_de canon h0 s (h' !!! kv.2)) srcs nuevas
      ∧ extra_cols_map l = extra_cols_map acc ++ extras_de canon h0 srcs
      ∧ avisos l = avisos acc ++ avisos_de canon h0 srcs.
Proof.
  induction srcs as [|s rest IH]; intros h acc Hpre Hval Hnd Hfresh.
  { exists h, acc, []. unfold extras_de, avisos_de. simpl.
    rewrite !(right_id_L [] (++)). by split_and!. }
  apply Forall_cons in Hval as [Hs Hrest].
  rewrite fmap_cons in Hnd. apply NoDup_cons in Hnd as [Hname Hnd].
  destruct (Hfresh s) as [Hf1 Hf2]; [left|].
  destruct (limpiar_fuente_valida canon h0 h s acc Hpre Hs)
    as (h1 & Hstep & Hpre1 & Hlt1 & Hlimpia).
  rewrite (dict_set_fresh _ _ _ Hf1) in Hstep.
  set (acc1 := Limpieza _ _ _) in Hstep.
  destruct (IH h1 acc1) as (h' & l & nuevas & Hrun & Hpre' & Hfl & Hall & Hem & Hav).
  - by etrans.
  - done.
  - done.
  - intros s' Hs'. assert (Hne : name s' ≠ name s).
    { intros Heq. apply Hname. rewrite <-Heq. by apply list_elem_of_fmap_2. }
    destruct (Hfresh s') as [Hf1' Hf2']; [by right|].
    unfold acc1. cbn [fuentes_limpias extra_cols_map]. split.
    + unfold dict_keys. rewrite fmap_app, elem_of_app. simpl.
      rewrite list_elem_of_singleton. tauto.
    + case_decide; [|done]. rewrite (dict_set_fresh _ _ _ Hf2).
      unfold dict_keys. rewrite fmap_app, elem_of_app. simpl.
      rewrite list_elem_of_singleton. tauto.
  - exists h', l, ((name s, length h + 3) :: nuevas).
    unfold acc1 in Hfl, Hem, Hav. cbn [fuentes_limpias extra_cols_map avisos] in *.
    split_and!.
    + simpl. unfold mbind, M_bind. by rewrite Hstep.
    + by etrans.
    + by rewrite Hfl, <-(assoc_L (++)).
    + apply Forall2_cons. split; [|done]. simpl. split_and!; [done| |].
      * apply prefix_length in Hpre'. lia.
      * by rewrite (prefix_lookup_total h1 h').
    + rewrite Hem. unfold extras_de. rewrite filter_cons.
      destruct (decide (extra_col s ≠ ""
                        ∧ extra_col s ∈ columnas_limpias canon h0 s)) as [HP|HP].
      * rewrite ?decide_True by done. rewrite (dict_set_fresh _ _ _ Hf2).
        by rewrite fmap_cons, <-(assoc_L (++)).
      * by rewrite ?decide_False by done.
    + rewrite Hav. unfold avisos_de. rewrite filter_cons.
      destruct (decide (extra_col s ≠ ""
                        ∧ extra_col s ∉ columnas_limpias canon h0 s)) as [HP|HP].
      * rewrite ?decide_True by done.
        by rewrite fmap_cons, <-(assoc_L (++)).
      * by rewrite ?decide_False by done.
Qed.

(** X12.  When every source can be cleaned and the names differ, the
    cleaning loop ends without error and leaves the uploads as they were;
    it holds one cleaned table per source, in order and under its name:
    a normalized table with the columns of the upload (the species column
    renamed) whose species are the cleaned non-blank species of the
    upload; the extra columns it keeps are those that the cleaned tables
    have, and it warns about exactly the others. *)
Theorem limpiar_fuentes_validas (canon : string) (srcs : list fuente)
    (h : heap) :
  Forall (fuente_valida canon h) srcs →
  NoDup (name <$> srcs) →
  ∃ h' l,
    limpiar_fuentes canon srcs (Limpieza [] [] []) h = (h', Ok l)
    ∧ h `prefix_of` h'
    ∧ Forall2 (λ s kv, kv.1 = name s ∧ limpia_de canon h s (h' !!! kv.2))
              srcs (fuentes_limpias l)
    ∧ extra_cols_map l = extras_de canon h srcs
    ∧ avisos l = avisos_de canon h srcs.
Proof.
  intros Hval Hnd.
  destruct (limpiar_fuentes_inv canon srcs h h (Limpieza [] [] []))
    as (h' & l & nuevas & Hrun & Hpre & Hfl & Hall & Hem & Hav); try done.
  { intros s _. simpl. split; apply not_elem_of_nil. }
  exists h', l. simpl in Hfl, Hem, Hav. subst nuevas. split_and!; try done.
  eapply Forall2_impl; [exact Hall|]. simpl. tauto.
Qed.

Lemma limpiar_fuentes_validas_witness :
  Forall (fuente_valida "scientificName" almacen_ejemplo) fuentes_info_ejemplo
  ∧ NoDup (name <$> fuentes_info_ejemplo)
  ∧ ∃ h' l,
      limpiar_fuentes "scientificName" fuentes_info_ejemplo
        (Limpieza [] [] []) almacen_ejemplo = (h', Ok l)
      ∧ almacen_ejemplo `prefix_of` h'
      ∧ Forall2 (λ s kv, kv.1 = name s
                         ∧ limpia_de "scientificName" almacen_ejemplo s
                             (h' !!! kv.2))
                fuentes_info_ejemplo (fuentes_limpias l)
      ∧ extra_cols_map l
        = extras_de "scientificName" almacen_ejemplo fuentes_info_ejemplo
      ∧ avisos l
        = avisos_de "scientificName" almacen_ejemplo fuentes_info_ejemplo.
Proof.
  assert (H1 : Forall (fuente_valida "scientificName" almacen_ejemplo)
                 fuentes_info_ejemplo) by by_compute.
  assert (H2 : NoDup (name <$> fuentes_info_ejemplo)) by by_compute.
  exact (conj H1 (conj H2
           (limpiar_fuentes_validas "scientificName" fuentes_info_ejemplo
              almacen_ejemplo H1 H2))).
Defined.

(** ** From the cleaned tables to the result *)

(** The mapping that [construir_interseccion] receives, read against the
    entries of [sources_info]. *)
Lemma fuentes_de_limpias canon (h h' : heap) srcs (fl : dict loc) :
  Forall2 (λ s kv, kv.1 = name s ∧ limpia_de canon h s (h' !!! kv.2)) srcs fl →
  let fuentes := (λ kv, (kv.1, h' !!! kv.2)) <$> fl in
  dict_keys fuentes = name <$> srcs
  ∧ Forall (λ kv, normalized canon kv.2) fuentes
  ∧ species_sets_de canon fuentes
    = (λ s, (name s, especies_de_fuente canon h s)) <$> srcs
  ∧ ∀ e, sources_containing canon fuentes e
         = Z.of_nat (length (filter (λ s, e ∈ especies_de_fuente canon h s) srcs)).
Proof.
  intros Hall. simpl. unfold sources_containing, species_sets_de, dict_keys.
  induction Hall as [|s [k loc] srcs fl (Hk & Hnorm & _ & Hsp) _ IH].
  { by split_and!. }
  destruct IH as (IH1 & IH2 & IH3 & IH4). simpl in Hk, Hnorm, Hsp. subst k.
  rewrite !fmap_cons. cbn [fst snd]. split_and!.
  - by rewrite IH1.
  - by apply Forall_cons.
  - by rewrite Hsp, IH3.
  - intros e. specialize (IH4 e). rewrite !filter_cons. cbn [fst snd].
    rewrite Hsp.
    destruct (decide (e ∈ especies_de_fuente canon h s)); simpl; lia.
Qed.

(** X13.  A run on sources that can all be cleaned, under different names
    that are not the label of the species column (itself not
    [num_fuentes]), and none of which brings an extra column: the run
    ends without error and leaves the uploads as they were; the species
    set of each source is the set of the cleaned non-blank species of its
    upload; the final table has exactly one row per species that two
    uploads or more hold once cleaned; the warnings name the extra
    columns that were asked for and not found. *)
Theorem procesar_sin_extras `{SetOrder} (canon : string)
    (srcs : list fuente) (h : heap) :
  srcs ≠ [] →
  Forall (fuente_valida canon h) srcs →
  NoDup (name <$> srcs) →
  canon ≠ "num_fuentes" →
  canon ∉ name <$> srcs →
  extras_de canon h srcs = [] →
  ∃ h' tabla,
    procesar canon srcs h
    = (h', Ok (Resultado
                 ((λ s, (name s, especies_de_fuente canon h s)) <$> srcs)
                 tabla (avisos_de canon h srcs)))
    ∧ h `prefix_of` h'
    ∧ NoDup ((λ r, celda tabla r canon) <$> rows tabla)
    ∧ ∀ e, (∃ r, r ∈ rows tabla ∧ celda tabla r canon = Some e)
           ↔ 2 ≤ length (filter (λ s, e ∈ especies_de_fuente canon h s) srcs).
Proof.
  intros Hne Hval Hnd Hc1 Hc2 Hex.
  destruct (limpiar_fuentes_inv canon srcs h h (Limpieza [] [] []))
    as (h' & l & nuevas & Hrun & Hpre & Hfl & Hall & Hem & Hav); try done.
  { intros s _. simpl. split; apply not_elem_of_nil. }
  simpl in Hfl, Hem, Hav. subst nuevas.
  assert (Hall' : Forall2 (λ s kv, kv.1 = name s
                                   ∧ limpia_de canon h s (h' !!! kv.2))
                    srcs (fuentes_limpias l)).
  { eapply Forall2_impl; [exact Hall|]. simpl. tauto. }
  destruct (fuentes_de_limpias canon h h' srcs _ Hall')
    as (Hkeys & Hnorm & Hsets & Hcount).
  set (fuentes := (λ kv, (kv.1, h' !!! kv.2)) <$> fuentes_limpias l) in *.
  assert (Hfne : fuentes_limpias l ≠ []).
  { intros Hnil. rewrite Hnil in Hall'. apply Forall2_nil_inv_r in Hall'.
    done. }
  destruct (construir_columna_especie fuentes canon)
    as (tabla & Hcons & Hnodup & Hrows).
  { unfold fuentes. by destruct (fuentes_limpias l). }
  { by rewrite Hkeys. }
  { done. }
  { done. }
  { by rewrite Hkeys. }
  exists h', tabla. split_and!.
  - rewrite procesar_no_vacio, Hrun by done.
    unfold completar. rewrite decide_False by done.
    unfold mbind, M_bind, leer_fuentes, lift, mret, M_ret.
    fold fuentes. rewrite Hcons, Hem, Hex. simpl.
    by rewrite Hsets, Hav.
  - done.
  - done.
  - intros e. rewrite Hrows, Hcount. lia.
Qed.

Lemma procesar_sin_extras_witness :
  fuentes_info_aviso ≠ []
  ∧ Forall (fuente_valida "scientificName" almacen_ejemplo) fuentes_info_aviso
  ∧ NoDup (name <$> fuentes_info_aviso)
  ∧ "scientificName" ≠ "num_fuentes"
  ∧ ("scientificName" ∉ name <$> fuentes_info_aviso)
  ∧ extras_de "scientificName" almacen_ejemplo fuentes_info_aviso = []
  ∧ ∃ h' tabla,
      @procesar elements_order "scientificName" fuentes_info_aviso
        almacen_ejemplo
      = (h', Ok (Resultado
                   ((λ s, (name s, especies_de_fuente "scientificName"
                                     almacen_ejemplo s))
                      <$> fuentes_info_aviso)
                   tabla
                   (avisos_de "scientificName" almacen_ejemplo
                      fuentes_info_aviso)))
      ∧ almacen_ejemplo `prefix_of` h'
      ∧ NoDup ((λ r, celda tabla r "scientificName") <$> rows tabla)
      ∧ ∀ e, (∃ r, r ∈ rows tabla ∧ celda tabla r "scientificName" = Some e)
             ↔ 2 ≤ length (filter (λ s, e ∈ especies_de_fuente "scientificName"
                                            almacen_ejemplo s)
                             fuentes_info_aviso).
Proof.
  assert (H1 : fuentes_info_aviso ≠ []) by done.
  assert (H2 : Forall (fuente_valida "scientificName" almacen_ejemplo)
                 fuentes_info_aviso) by by_compute.
  assert (H3 : NoDup (name <$> fuentes_info_aviso)) by by_compute.
  assert (H4 : "scientificName" ≠ "num_fuentes") by done.
  assert (H5 : "scientificName" ∉ name <$> fuentes_info_aviso) by by_compute.
  assert (H6 : extras_de "scientificName" almacen_ejemplo fuentes_info_aviso = [])
    by (vm_compute; reflexivity).
  exact (conj H1 (conj H2 (conj H3 (conj H4 (conj H5 (conj H6
           (@procesar_sin_extras elements_order "scientificName"
              fuentes_info_aviso almacen_ejemplo H1 H2 H3 H4 H5 H6))))))).
Defined.

(** X14.  The first source that cannot be cleaned ends the run, whatever
    the sources after it: the sources before it being cleaned, a species
    column left blank stops the run, and a species column that the upload
    does not have raises the [ValueError] that names it.  The uploads are
    left as they were. *)
Theorem procesar_fuente_invalida `{SetOrder} (canon : string)
    (pre post : list fuente) (src : fuente) (h : heap) :
  Forall (fuente_valida canon h) pre →
  NoDup (name <$> pre) →
  df_raw src < length h →
  strip (species_col src) = ""
  ∨ strip (species_col src) ∉ columns (h !!! df_raw src) →
  ∃ h',
    procesar canon (pre ++ src :: post) h
    = (h', Err (if decide (strip (species_col src) = "") then Stop
                else ValueError_columna (strip (species_col src))))
    ∧ h `prefix_of` h'.
Proof.
  intros Hval Hnd Hlt Hbad.
  destruct (limpiar_fuentes_inv canon pre h h (Limpieza [] [] []))
    as (h1 & l1 & nuevas & Hrun & Hpre & _); try done.
  { intros s _. simpl. split; apply not_elem_of_nil. }
  exists h1. split; [|done].
  rewrite procesar_no_vacio by by destruct pre.
  rewrite limpiar_fuentes_app, Hrun. simpl.
  unfold mbind at 1, M_bind at 1. unfold limpiar_fuente.
  destruct (decide (strip (species_col src) = "")) as [Hblank|Hblank]; [done|].
  destruct Hbad as [?|Hcol]; [done|].
  unfold mbind, M_bind. rewrite limpiar_missing; [done|].
  by rewrite (prefix_lookup_total h h1).
Qed.

Lemma procesar_fuente_invalida_witness :
  Forall (fuente_valida "scientificName" almacen) [Fuente "SIB" 0 "especie" ""]
  ∧ NoDup (name <$> [Fuente "SIB" 0 "especie" ""])
  ∧ 1 < length almacen
  ∧ (strip "species" = "" ∨ strip "species" ∉ columns (almacen !!! 1))
  ∧ ∃ h',
      @procesar elements_order "scientificName" fuentes_info_sin_columna almacen
      = (h', Err (ValueError_columna "species"))
      ∧ almacen `prefix_of` h'.
Proof.
  assert (H1 : Forall (fuente_valida "scientificName" almacen)
                 [Fuente "SIB" 0 "especie" ""]) by by_compute.
  assert (H2 : NoDup (name <$> [Fuente "SIB" 0 "especie" ""])) by by_compute.
  assert (H3 : 1 < length almacen) by by_compute.
  assert (H4 : strip "species" = ""
               ∨ strip "species" ∉ columns (almacen !!! 1)) by by_compute.
  exact (conj H1 (conj H2 (conj H3 (conj H4
           (@procesar_fuente_invalida elements_order "scientificName"
              [Fuente "SIB" 0 "especie" ""] [] (Fuente "GBIF" 1 "species" "")
              almacen H1 H2 H3 H4))))).
Defined.

(** A species column left blank on the second card. *)
Example procesar_columna_en_blanco :
  (@procesar elements_order "scientificName" fuentes_info_en_blanco almacen).2
  = Err Stop.
Proof. vm_compute. reflexivity. Qed.

(** ** The enrichment *)

(** X15.  What the enrichment writes on tables of text: when the extra
    columns can be merged, the species cells of the table are text and
    the extra columns hold no integer, the final table has the rows of
    the intersection table, one for one and in order, each with its cells
    followed by one cell per extra column, in the order of the merges;
    under the column of a source, the row of a species holds the extra
    cell of the row of that species in the source's cleaned table, and a
    missing value when the source does not have the species. *)
Theorem enriquecer_valores (canon : string) (fuentes : dict DataFrame)
    (extras : dict string) (tabla : DataFrame) :
  extras_validos canon fuentes extras tabla →
  extras_de_texto canon fuentes extras tabla →
  ∃ final pl,
    agregar_extras canon fuentes extras tabla = Ok final
    ∧ positions canon (columns tabla) = [pl]
    ∧ columns final = columns tabla ++ (nuevo_nombre_col <$> extras)
    ∧ length (rows final) = length (rows tabla)
    ∧ ∀ i r, rows tabla !! i = Some r →
        ∃ r', rows final !! i = Some r'
          ∧ take (length (cells r)) (cells r') = cells r
          ∧ ∀ j ne df pc pe,
              extras !! j = Some ne →
              dict_get ne.1 fuentes = Some df →
              positions canon (columns df) = [pc] →
              positions ne.2 (columns df) = [pe] →
              (∀ s, s ∈ rows df → cell_at pc s = cell_at pl r →
                 cells r' !! (length (cells r) + j) = Some (cell_at pe s)
                 ∧ is_int (cell_at pe s) = false)
              ∧ (cell_at pl r ∉ cell_at pc <$> rows df →
                 cells r' !! (length (cells r) + j) = Some VNaN).
Proof.
  intros Hval [_ Htexto].
  destruct (agregar_extras_conserva_filas canon fuentes extras tabla Hval)
    as (final & pl & Hrun & Hpl & Hcols & Hlen & Hrows).
  exists final, pl. split_and!; try done.
  intros i r Hr. destruct (Hrows i r Hr) as (r' & Hr' & Hcells).
  exists r'. split; [done|]. rewrite Hcells. split.
  { by rewrite take_app_length. }
  intros j ne df pc pe Hj Hget Hpc Hpe.
  rewrite lookup_app_r by lia.
  replace (length (cells r) + j - length (cells r)) with j by lia.
  rewrite list_lookup_fmap, Hj. simpl.
  destruct Hval as (_ & _ & _ & _ & Hall).
  rewrite Forall_forall in Hall, Htexto.
  assert (Hne : ne ∈ extras) by by eapply list_elem_of_lookup_2.
  destruct (Hall ne Hne) as (_ & _ & Hdf).
  specialize (Htexto ne Hne). rewrite Hget, Hpe in Htexto.
  rewrite Forall_forall in Htexto.
  rewrite Hget in Hdf. destruct Hdf as [[_ Hnorm] _]. rewrite Hpc in Hnorm.
  destruct Hnorm as [Hnd _].
  unfold valor_extra. rewrite Hget, Hpc, Hpe.
  destruct (filter_key_NoDup (cell_at pc) (cell_at pl r) (rows df) Hnd)
    as [Hnil|[x Hx]].
  - rewrite Hnil. split; [|done]. intros s Hs Hkey. exfalso.
    assert (Hin : s ∈ filter (λ x, cell_at pc x = cell_at pl r) (rows df))
      by by apply list_elem_of_filter.
    rewrite Hnil in Hin. by apply elem_of_nil in Hin.
  - rewrite Hx. split.
    + intros s Hs Hkey.
      assert (Hin : s ∈ filter (λ x, cell_at pc x = cell_at pl r) (rows df))
        by by apply list_elem_of_filter.
      rewrite Hx in Hin. apply list_elem_of_singleton in Hin. subst s.
      split; [done|]. by apply Htexto.
    + intros Hnot. exfalso. apply Hnot.
      assert (Hin : x ∈ filter (λ x, cell_at pc x = cell_at pl r) (rows df))
        by (rewrite Hx; left).
      apply list_elem_of_filter in Hin as [<- Hin]. by apply list_elem_of_fmap_2.
Qed.

Lemma enriquecer_valores_witness :
  extras_validos "scientificName" fuentes_con_estado
    [("SIB", "estado"); ("GBIF", "estado")] interseccion_con_estado
  ∧ extras_de_texto "scientificName" fuentes_con_estado
      [("SIB", "estado"); ("GBIF", "estado")] interseccion_con_estado
  ∧ ∃ final pl,
      agregar_extras "scientificName" fuentes_con_estado
        [("SIB", "estado"); ("GBIF", "estado")] interseccion_con_estado
      = Ok final
      ∧ positions "scientificName" (columns interseccion_con_estado) = [pl]
      ∧ columns final
        = columns interseccion_con_estado
          ++ (nuevo_nombre_col <$> [("SIB", "estado"); ("GBIF", "estado")])
      ∧ length (rows final) = length (rows interseccion_con_estado)
      ∧ ∀ i r, rows interseccion_con_estado !! i = Some r →
          ∃ r', rows final !! i = Some r'
            ∧ take (length (cells r)) (cells r') = cells r
            ∧ ∀ j ne df pc pe,
                [("SIB", "estado"); ("GBIF", "estado")] !! j = Some ne →
                dict_get ne.1 fuentes_con_estado = Some df →
                positions "scientificName" (columns df) = [pc] →
                positions ne.2 (columns df) = [pe] →
                (∀ s, s ∈ rows df → cell_at pc s = cell_at pl r →
                   cells r' !! (length (cells r) + j) = Some (cell_at pe s)
                   ∧ is_int (cell_at pe s) = false)
                ∧ (cell_at pl r ∉ cell_at pc <$> rows df →
                   cells r' !! (length (cells r) + j) = Some VNaN).
Proof.
  assert (H1 : extras_validos "scientificName" fuentes_con_estado
                 [("SIB", "estado"); ("GBIF", "estado")] interseccion_con_estado)
    by by_compute.
  assert (H2 : extras_de_texto "scientificName" fuentes_con_estado
                 [("SIB", "estado"); ("GBIF", "estado")] interseccion_con_estado)
    by by_compute.
  exact (conj H1 (conj H2
           (enriquecer_valores "scientificName" fuentes_con_estado
              [("SIB", "estado"); ("GBIF", "estado")]
              interseccion_con_estado H1 H2))).
Defined.

(** ** The check after the cleaning loop *)

Lemma limpiar_fuente_no_vacio canon src acc (h h' : heap) acc' :
  limpiar_fuente canon src acc h = (h', Ok acc') → fuentes_limpias acc' ≠ [].
Proof.
  unfold limpiar_fuente. case_decide; [done|].
  unfold mbind, M_bind, deref, mret, M_ret.
  destruct (limpiar_dataframe _ _ _ h) as [h1 [loc|e]]; [|done].
  assert (Hset : dict_set (name src) loc (fuentes_limpias acc) ≠ []).
  { destruct (fuentes_limpias acc) as [|[k v] d]; simpl; [done|].
    by case_decide. }
  repeat case_decide; intros [= <- <-]; done.
Qed.

Lemma limpiar_fuentes_no_vacio canon srcs acc (h h' : heap) l :
  fuentes_limpias acc ≠ [] →
  limpiar_fuentes canon srcs acc h = (h', Ok l) → fuentes_limpias l ≠ [].
Proof.
  revert acc h. induction srcs as [|s rest IH]; intros acc h Hne; simpl.
  - by intros [= <- <-].
  - unfold mbind, M_bind.
    destruct (limpiar_fuente canon s acc h) as [h1 [acc1|e]] eqn:Hstep; [|done].
    apply IH. by eapply limpiar_fuente_no_vacio.
Qed.

(** X17.  The check "no valid source" after the cleaning loop never
    fires: when the loop ends without error on a list [sources_info]
    that is not empty, it holds a cleaned table, so that the run goes on
    to the reconciliation. *)
Theorem limpiar_fuentes_deja_fuentes (canon : string) (srcs : list fuente)
    (acc : limpieza) (h h' : heap) (l : limpieza) :
  srcs ≠ [] →
  limpiar_fuentes canon srcs acc h = (h', Ok l) →
  fuentes_limpias l ≠ [].
Proof.
  destruct srcs as [|s rest]; [done|]. intros _. simpl.
  unfold mbind, M_bind.
  destruct (limpiar_fuente canon s acc h) as [h1 [acc1|e]] eqn:Hstep; [|done].
  apply limpiar_fuentes_no_vacio. by eapply limpiar_fuente_no_vacio.
Qed.

Lemma limpiar_fuentes_deja_fuentes_witness :
  fuentes_info_ejemplo ≠ []
  ∧ limpiar_fuentes "scientificName" fuentes_info_ejemplo (Limpieza [] [] [])
      almacen_ejemplo
    = ((limpiar_fuentes "scientificName" fuentes_info_ejemplo (Limpieza [] [] [])
          almacen_ejemplo).1,
       Ok (Limpieza [("SIB", 6); ("IUCN", 10); ("Fuente 4", 14)]
             [("SIB", "estado"); ("Fuente 4", "estado")] []))
  ∧ [("SIB", 6); ("IUCN", 10); ("Fuente 4", 14)] ≠ [].
Proof.
  assert (H1 : fuentes_info_ejemplo ≠ []) by done.
  assert (H2 : limpiar_fuentes "scientificName" fuentes_info_ejemplo
                 (Limpieza [] [] []) almacen_ejemplo
               = ((limpiar_fuentes "scientificName" fuentes_info_ejemplo
                     (Limpieza [] [] []) almacen_ejemplo).1,
                  Ok (Limpieza [("SIB", 6); ("IUCN", 10); ("Fuente 4", 14)]
                        [("SIB", "estado"); ("Fuente 4", "estado")] [])))
    by (vm_compute; reflexivity).
  exact (conj H1 (conj H2
           (limpiar_fuentes_deja_fuentes "scientificName" fuentes_info_ejemplo
              (Limpieza [] [] []) almacen_ejemplo _ _ H1 H2))).
Defined.
